(** * py-serializer: the SEC EDGAR deserializer of [pyserializer.py]

    A shallow embedding of [deserialize], [process_nested_fields],
    [processTxtHeader], [KEY_MAP] and [field_is_array], followed by the
    properties of the two parsers.

    Modelling choices.
    - A Python [str] is a [string]; a character is a code point below 256.
    - The stream [IO[str]] is the list of the lines that successive calls
      of [readline()] return (each with its terminator); an exhausted
      stream answers [""] for ever.
    - A [dict] is an association list in insertion order.  Dicts are
      mutable and shared ([new_parent] is attached to its parent before it
      is filled; the header parser keeps references to records in a
      stack), so they live in a store and are named by locations.
    - A Python [list] is only ever reached through the dict slot that holds
      it, so it is stored in the slot; its elements are strings or
      references to dicts.
    - [logging] is a list of emitted messages.
    - [while True] loops that are not structurally bounded take a [fuel]
      argument; [OutOfFuel] is not a result of the program.  More fuel
      never changes a result ([process_nested_fields_fuel]).
    - The recursion limit of the interpreter is not modelled. *)

From Stdlib Require Import String Ascii List Bool Arith Lia.
Import ListNotations.
Local Set Warnings "-register-all".
Local Open Scope string_scope.
Local Open Scope list_scope.

(* ================================================================== *)
(** ** Strings: the [str] methods the parsers use *)

(** [str.isspace] on one character (code points below 256). *)
Definition isspace (c : ascii) : bool :=
  let n := nat_of_ascii c in
  ((9 <=? n)%nat && (n <=? 13)%nat) || ((28 <=? n)%nat && (n <=? 32)%nat)
  || (n =? 133)%nat || (n =? 160)%nat.

(** [s.startswith(p)] *)
Fixpoint startswith (p s : string) : bool :=
  match p, s with
  | EmptyString, _ => true
  | String a p', String b s' => Ascii.eqb a b && startswith p' s'
  | String _ _, EmptyString => false
  end.

Fixpoint lstrip (s : string) : string :=
  match s with
  | EmptyString => EmptyString
  | String c s' => if isspace c then lstrip s' else s
  end.

Fixpoint rstrip (s : string) : string :=
  match s with
  | EmptyString => EmptyString
  | String c s' =>
      let r := rstrip s' in
      if isspace c && (r =? "") then EmptyString else String c r
  end.

(** [s.strip()] *)
Definition strip (s : string) : string := rstrip (lstrip s).

(** Cut [s] at the first occurrence of [sep]. *)
Fixpoint cut (sep : ascii) (s : string) : option (string * string) :=
  match s with
  | EmptyString => None
  | String c s' =>
      if Ascii.eqb c sep then Some (EmptyString, s')
      else match cut sep s' with
           | Some (a, b) => Some (String c a, b)
           | None => None
           end
  end.

(** [s.split(sep, 1)] *)
Definition split1 (sep : ascii) (s : string) : list string :=
  match cut sep s with
  | Some (a, b) => [a; b]
  | None => [s]
  end.

(** [s[1:]] *)
Definition tail1 (s : string) : string :=
  match s with
  | EmptyString => EmptyString
  | String _ s' => s'
  end.

(** [''.join(xs)] *)
Definition join (xs : list string) : string := String.concat "" xs.

(** [c in s] *)
Fixpoint has_char (c : ascii) (s : string) : bool :=
  match s with
  | EmptyString => false
  | String c' s' => Ascii.eqb c' c || has_char c s'
  end.

(** [x in xs] for a list of strings *)
Definition str_in (x : string) (xs : list string) : bool :=
  existsb (String.eqb x) xs.

(** The lines [readline()] yields on a text: each up to and including its
    newline, the last one possibly without. *)
Fixpoint splitlines_aux (cur : string) (s : string) : list string :=
  match s with
  | EmptyString => if cur =? "" then [] else [cur]
  | String c s' =>
      if Ascii.eqb c "010" then (cur ++ String c EmptyString)%string :: splitlines_aux "" s'
      else splitlines_aux (cur ++ String c EmptyString)%string s'
  end.

Definition splitlines (text : string) : list string := splitlines_aux "" text.

(* ================================================================== *)
(** ** Data model *)

Definition loc := nat.

(** An element of a Python list: a string or a reference to a dict. *)
Inductive elem : Type :=
| EStr (s : string)
| ERef (l : loc).

(** A field value. *)
Inductive value : Type :=
| VStr (s : string)
| VRef (l : loc)
| VList (xs : list elem).

Definition dict := list (string * value).

(** [d[k]] *)
Fixpoint dict_get (k : string) (d : dict) : option value :=
  match d with
  | [] => None
  | (k', v) :: d' => if k' =? k then Some v else dict_get k d'
  end.

(** [k in d] *)
Definition dict_mem (k : string) (d : dict) : bool :=
  match dict_get k d with Some _ => true | None => false end.

(** [d[k] = v]: an existing key keeps its position. *)
Fixpoint dict_set (k : string) (v : value) (d : dict) : dict :=
  match d with
  | [] => [(k, v)]
  | (k', v') :: d' =>
      if k' =? k then (k, v) :: d' else (k', v') :: dict_set k v d'
  end.

(** The store of dicts. *)
Definition store := list dict.

Fixpoint store_set (l : loc) (d : dict) (h : store) : store :=
  match h, l with
  | [], _ => []
  | _ :: h', O => d :: h'
  | d' :: h', S l' => d' :: store_set l' d h'
  end.

(** Messages passed to [logging]. *)
Inductive error : Type :=
| InvalidLeadingMarker
| MissingOpenBracket (line : string)
| MissingCloseBracket (line : string)
| UnterminatedRawBlock
| DuplicateKey (key : string)
| MissingColonDelimiter (line : string)
| AttributeError (attr : string)
| InvalidReference.

Inductive log_entry : Type :=
| WarnMissingTopField (field name : string)
| WarnDuplicateKey (key : string)
| WarnUnknownKey (key val section : string)
| ErrorProcessing (e : error).

(** [KEY_MAP]: an entry is a plain rename or a pair of the canonical name
    and the table of the section. *)
Inductive entry : Type :=
| Plain (canon : string)
| Nested (canon : string) (sub : list (string * entry)).

Definition key_map := list (string * entry).

Fixpoint km_get (k : string) (m : key_map) : option entry :=
  match m with
  | [] => None
  | (k', e) :: m' => if k' =? k then Some e else km_get k m'
  end.

Definition KEY_MAP : key_map :=
  [ ("ACCESSION NUMBER", Plain "ACCESSION-NUMBER");
    ("CONFORMED SUBMISSION TYPE", Plain "TYPE");
    ("PUBLIC DOCUMENT COUNT", Plain "PUBLIC-DOCUMENT-COUNT");
    ("CONFORMED PERIOD OF REPORT", Plain "PERIOD");
    ("FILED AS OF DATE", Plain "FILING-DATE");
    ("DATE AS OF CHANGE", Plain "DATE-OF-FILING-DATE-CHANGE");
    ("FILER", Nested "FILER"
      [ ("COMPANY DATA", Nested "COMPANY-DATA"
          [ ("COMPANY CONFORMED NAME", Plain "CONFORMED-NAME");
            ("CENTRAL INDEX KEY", Plain "CIK");
            ("STANDARD INDUSTRIAL CLASSIFICATION", Plain "ASSIGNED-SIC");
            ("ORGANIZATION NAME", Plain "ORGANIZATION-NAME");
            ("IRS NUMBER", Plain "IRS-NUMBER");
            ("STATE OF INCORPORATION", Plain "STATE-OF-INCORPORATION");
            ("FISCAL YEAR END", Plain "FISCAL-YEAR-END") ]);
        ("FILING VALUES", Nested "FILING-VALUES"
          [ ("FORM TYPE", Plain "FORM-TYPE");
            ("SEC ACT", Plain "ACT");
            ("SEC FILE NUMBER", Plain "FILE-NUMBER");
            ("FILM NUMBER", Plain "FILM-NUMBER") ]);
        ("BUSINESS ADDRESS", Nested "BUSINESS-ADDRESS"
          [ ("STREET 1", Plain "STREET1");
            ("CITY", Plain "CITY");
            ("STATE", Plain "STATE");
            ("ZIP", Plain "ZIP");
            ("BUSINESS PHONE", Plain "PHONE") ]);
        ("MAIL ADDRESS", Nested "MAIL-ADDRESS"
          [ ("STREET 1", Plain "STREET1");
            ("CITY", Plain "CITY");
            ("STATE", Plain "STATE");
            ("ZIP", Plain "ZIP") ]);
        ("FORMER COMPANY", Nested "FORMER-COMPANY"
          [ ("FORMER CONFORMED NAME", Plain "FORMER-CONFORMED-NAME");
            ("DATE OF NAME CHANGE", Plain "DATE-CHANGED") ]) ]) ].

(** [field_is_array] *)
Definition field_is_array (field : string) : bool :=
  str_in field
    [ "ITEMS"; "FORMER-COMPANY"; "DOCUMENT"; "CLASS-CONTRACT"; "FORMER-NAME";
      "FILER"; "SERIES"; "GROUP-MEMBERS"; "FILED-FOR"; "REPORTING-OWNER";
      "NEW-SERIES"; "MERGER"; "ITEM"; "REFERENCES-429"; "TARGET-DATA";
      "NEW-CLASSES-CONTRACTS"; "SUBJECT-COMPANY"; "RULE" ].

(** Keys that stay scalar when their inline value is empty. *)
Definition scalar_flags : list string :=
  [ "ORGANIZATION-NAME"; "CONFIRMING-COPY"; "PRIVATE-TO-PUBLIC";
    "CORRECTION"; "DELETION" ].

(* ================================================================== *)
(** ** The state and error monad *)

Record state : Type := mkState {
  heap : store;
  reader : list string;
  log : list log_entry
}.

Inductive result (A : Type) : Type :=
| Ok (a : A) (st : state)
| Raise (e : error) (st : state)
| OutOfFuel.
Arguments Ok {A} a st.
Arguments Raise {A} e st.
Arguments OutOfFuel {A}.

Definition M (A : Type) : Type := state -> result A.

Definition ret {A} (a : A) : M A := fun st => Ok a st.

Definition bind {A B} (m : M A) (k : A -> M B) : M B :=
  fun st =>
    match m st with
    | Ok a st' => k a st'
    | Raise e st' => Raise e st'
    | OutOfFuel => OutOfFuel
    end.

Definition raise {A} (e : error) : M A := fun st => Raise e st.

Definition out_of_fuel {A} : M A := fun _ => OutOfFuel.

Notation "x <- c1 ;; c2" := (bind c1 (fun x => c2))
  (at level 61, c1 at next level, right associativity).
Notation "c1 ;; c2" := (bind c1 (fun _ => c2))
  (at level 61, right associativity).

(** [reader.readline()] *)
Definition readline : M string :=
  fun st =>
    match reader st with
    | [] => Ok "" st
    | l :: rest => Ok l (mkState (heap st) rest (log st))
    end.

(** [logging.warning(...)], [logging.error(...)] *)
Definition emit (w : log_entry) : M unit :=
  fun st => Ok tt (mkState (heap st) (reader st) (log st ++ [w])).

(** Dereference a dict. *)
Definition get_dict (l : loc) : M dict :=
  fun st =>
    match nth_error (heap st) l with
    | Some d => Ok d st
    | None => Raise InvalidReference st
    end.

Definition put_dict (l : loc) (d : dict) : M unit :=
  fun st => Ok tt (mkState (store_set l d (heap st)) (reader st) (log st)).

(** [{}] *)
Definition new_dict : M loc :=
  fun st => Ok (length (heap st)) (mkState (heap st ++ [[]]) (reader st) (log st)).

(** [fields[key] = v] *)
Definition set_item (fields : loc) (key : string) (v : value) : M unit :=
  d <- get_dict fields ;;
  put_dict fields (dict_set key v d).

(** [if key not in fields: fields[key] = []] *)
Definition ensure_list (fields : loc) (key : string) : M unit :=
  d <- get_dict fields ;;
  if dict_mem key d then ret tt else put_dict fields (dict_set key (VList []) d).

(** [fields[key].append(x)] *)
Definition list_append (fields : loc) (key : string) (x : elem) : M unit :=
  d <- get_dict fields ;;
  match dict_get key d with
  | Some (VList xs) => put_dict fields (dict_set key (VList (xs ++ [x])) d)
  | Some (VStr _) | Some (VRef _) => raise (AttributeError "append")
  | None => raise InvalidReference
  end.

(** [if key in fields: raise ValueError("Duplicate key ...")] *)
Definition reject_duplicate (fields : loc) (key : string) : M unit :=
  d <- get_dict fields ;;
  if dict_mem key d then raise (DuplicateKey key) else ret tt.

(** [if key in fields: logging.warning("Duplicate key ...")] *)
Definition warn_duplicate (fields : loc) (key : string) : M unit :=
  d <- get_dict fields ;;
  if dict_mem key d then emit (WarnDuplicateKey key) else ret tt.

(* ================================================================== *)
(** ** processTxtHeader *)

(** A frame of [current_section_stack]: the record, the table in scope and
    the label.  The head of the list is the top of the stack
    ([current_section_stack[-1]]). *)
Definition frame : Type := loc * key_map * string.

(** One turn of the [while] loop on a non-empty stack.  [None] is [break];
    [Some stack'] goes back to the loop test with [stack']. *)
Definition header_iteration (stack : list frame) : M (option (list frame)) :=
  match stack with
  | [] => ret None
  | (fields, key_map, label) :: below =>
      line <- readline ;;
      if (line =? "") || (strip line =? "") then
        d <- get_dict fields ;;
        if (0 <? length d)%nat && (1 <? length stack)%nat
        then ret (Some below)
        else ret (Some stack)
      else if startswith "</SEC-HEADER>" line then ret None
      else if startswith "<ACCEPTANCE-DATETIME>" line then ret (Some stack)
      else
        let parts := split1 ":" line in
        if (length parts =? 0)%nat then raise (MissingColonDelimiter line)
        else
          let key := strip (nth 0 parts "") in
          let value := if (length parts =? 1)%nat then "" else strip (nth 1 parts "") in
          match km_get key key_map with
          | Some (Nested orig_key sub) =>
              if field_is_array orig_key then
                ensure_list fields orig_key ;;
                new_parent <- new_dict ;;
                list_append fields orig_key (ERef new_parent) ;;
                ret (Some ((new_parent, sub, key) :: stack))
              else
                warn_duplicate fields orig_key ;;
                new_parent <- new_dict ;;
                set_item fields orig_key (VRef new_parent) ;;
                ret (Some ((new_parent, sub, key) :: stack))
          | Some (Plain orig_key) =>
              if field_is_array orig_key then
                ensure_list fields orig_key ;;
                list_append fields orig_key (EStr value) ;;
                ret (Some stack)
              else
                warn_duplicate fields orig_key ;;
                set_item fields orig_key (VStr value) ;;
                ret (Some stack)
          | None =>
              if negb ((key =? "") || (value =? "")) && negb (key =? "ITEM INFORMATION")
              then emit (WarnUnknownKey key value label) ;; ret (Some stack)
              else ret (Some stack)
          end
  end.

(** A line that reaches the table lookup: not blank, not the terminator,
    not the acceptance stamp; and the key and the value the turn computes
    from it. *)
Definition header_data (line : string) : bool :=
  negb ((line =? "") || (strip line =? ""))
  && negb (startswith "</SEC-HEADER>" line)
  && negb (startswith "<ACCEPTANCE-DATETIME>" line).

Definition header_key (line : string) : string :=
  strip (nth 0 (split1 ":" line) "").

Definition header_value (line : string) : string :=
  let parts := split1 ":" line in
  if (length parts =? 1)%nat then "" else strip (nth 1 parts "").

(** [while len(current_section_stack) > 0: ...] *)
Fixpoint header_loop (fuel : nat) (stack : list frame) {struct fuel} : M unit :=
  match stack with
  | [] => ret tt
  | _ :: _ =>
      match fuel with
      | O => out_of_fuel
      | S fuel' =>
          r <- header_iteration stack ;;
          match r with
          | None => ret tt
          | Some stack' => header_loop fuel' stack'
          end
      end
  end.

Definition processTxtHeader (fuel : nat) (fields : loc) : M unit :=
  header_loop fuel [(fields, KEY_MAP, "")].

(* ================================================================== *)
(** ** process_nested_fields *)

(** The inner loop of the [TEXT] branch, on the lines left in the stream:
    the accumulated [content] and the lines after the closing one, or
    [None] when the stream ends first. *)
Fixpoint text_loop (content : list string) (lines : list string)
  : option (list string * list string) :=
  match lines with
  | [] => None
  | line :: rest =>
      if line =? "" then None
      else if startswith "</TEXT>" line then Some (content, rest)
      else text_loop (content ++ [line]) rest
  end.

Definition read_text (fields : loc) (key : string) : M unit :=
  fun st =>
    match text_loop [] (reader st) with
    | None => Raise UnterminatedRawBlock (mkState (heap st) [] (log st))
    | Some (content, rest) =>
        set_item fields key (VStr (join content))
          (mkState (heap st) rest (log st))
    end.

Fixpoint process_nested_fields (fuel : nat) (field_name : string) (fields : loc)
  {struct fuel} : M unit :=
  match fuel with
  | O => out_of_fuel
  | S fuel' =>
      line <- readline ;;
      if line =? "" then ret tt
      else if startswith ("</" ++ field_name ++ ">")%string line
              || startswith "</SEC-DOCUMENT>" line then ret tt
      else if negb (startswith "<" line) then raise (MissingOpenBracket line)
      else
        let parts := split1 ">" line in
        if (length parts <? 2)%nat then raise (MissingCloseBracket line)
        else
          let key := strip (tail1 (nth 0 parts "")) in
          let value := strip (nth 1 parts "") in
          (if key =? "TEXT" then read_text fields key
           else if key =? "SEC-HEADER" then processTxtHeader fuel' fields
           else if (value =? "") && negb (str_in key scalar_flags) then
             if field_is_array key then
               ensure_list fields key ;;
               new_parent <- new_dict ;;
               list_append fields key (ERef new_parent) ;;
               process_nested_fields fuel' key new_parent
             else
               reject_duplicate fields key ;;
               new_parent <- new_dict ;;
               set_item fields key (VRef new_parent) ;;
               process_nested_fields fuel' key new_parent
           else
             if field_is_array key then
               ensure_list fields key ;;
               list_append fields key (EStr value)
             else
               reject_duplicate fields key ;;
               set_item fields key (VStr value)) ;;
          process_nested_fields fuel' field_name fields
  end.

(** The key and the inline value that one turn of the loop of
    [process_nested_fields] extracts from [line], when the turn neither
    stops at [line] nor rejects it. *)
Definition open_tag (field_name line : string) : option (string * string) :=
  if line =? "" then None
  else if startswith ("</" ++ field_name ++ ">")%string line
          || startswith "</SEC-DOCUMENT>" line then None
  else if negb (startswith "<" line) then None
  else match split1 ">" line with
       | [p0; p1] => Some (strip (tail1 p0), strip p1)
       | _ => None
       end.

(* ================================================================== *)
(** ** deserialize *)

(** The stream handed to [deserialize]: its lines and its [name]
    attribute.  A file from [open()] has a name; an in-memory [StringIO]
    has none. *)
Record IO : Type := mkIO {
  io_name : option string;
  io_lines : list string
}.

(** [for field in expected_top_fields: if field not in fields: warning] *)
Fixpoint check_top_fields (input_name : option string) (fields : loc)
  (expected : list string) : M unit :=
  match expected with
  | [] => ret tt
  | field :: more =>
      d <- get_dict fields ;;
      (if dict_mem field d then ret tt
       else match input_name with
            | Some n => emit (WarnMissingTopField field n)
            | None => raise (AttributeError "name")
            end) ;;
      check_top_fields input_name fields more
  end.

Definition deserialize_body (fuel : nat) (input_name : option string) : M loc :=
  first_line <- readline ;;
  if negb (startswith "<SUBMISSION>" first_line
           || startswith "<SEC-DOCUMENT>" first_line)
  then raise InvalidLeadingMarker
  else
    fields <- new_dict ;;
    process_nested_fields fuel "SUBMISSION" fields ;;
    check_top_fields input_name fields ["DOCUMENT"; "FILER"] ;;
    ret fields.

(** [try: ... except Exception as e: logging.error(...); raise] *)
Definition logged {A} (m : M A) : M A :=
  fun st =>
    match m st with
    | Raise e st' => Raise e (mkState (heap st') (reader st') (log st' ++ [ErrorProcessing e]))
    | r => r
    end.

Definition deserialize (fuel : nat) (input : IO) : result loc :=
  logged (deserialize_body fuel (io_name input))
    (mkState [] (io_lines input) []).

(* ================================================================== *)
(** ** Reading a record back from the store *)

Inductive tree : Type :=
| TStr (s : string)
| TRec (fs : list (string * tree))
| TSeq (xs : list tree).

Fixpoint view (depth : nat) (h : store) (l : loc) : tree :=
  match depth with
  | O => TRec []
  | S depth' =>
      match nth_error h l with
      | None => TRec []
      | Some d =>
          TRec (map (fun kv : string * value =>
                  (fst kv,
                   match snd kv with
                   | VStr s => TStr s
                   | VRef l' => view depth' h l'
                   | VList xs =>
                       TSeq (map (fun e => match e with
                                           | EStr s => TStr s
                                           | ERef l' => view depth' h l'
                                           end) xs)
                   end)) d)
      end
  end.

Definition nl : string := String "010" EmptyString.

(** A line of text with its terminator. *)
Definition ln (s : string) : string := (s ++ nl)%string.

Definition scenario_A : list string :=
  [ ln "<SUBMISSION>";
    ln "<ACCESSION-NUMBER>0000000000-24-000001";
    ln "<TYPE>10-K";
    ln "<FILER>";
    ln "<COMPANY-DATA>";
    ln "<CONFORMED-NAME>ACME CORP";
    ln "<CIK>0000000001";
    ln "</COMPANY-DATA>";
    ln "</FILER>";
    ln "</SUBMISSION>" ].

Definition scenario_A_record : tree :=
  TRec [ ("ACCESSION-NUMBER", TStr "0000000000-24-000001");
         ("TYPE", TStr "10-K");
         ("FILER", TSeq [ TRec [ ("COMPANY-DATA",
                     TRec [ ("CONFORMED-NAME", TStr "ACME CORP");
                            ("CIK", TStr "0000000001") ]) ] ]) ].

(* ================================================================== *)
(** ** Vocabulary of the properties *)

(** Partial correctness of a computation from a state: the result, when
    there is one, satisfies [Q]; the exception, when one is raised,
    satisfies [E]. *)
Definition wp {A} (m : M A) (Q : A -> state -> Prop) (E : error -> state -> Prop)
  (st : state) : Prop :=
  match m st with
  | Ok a st' => Q a st'
  | Raise e st' => E e st'
  | OutOfFuel => True
  end.

(** Every array-valued key of a record holds a list. *)
Definition dict_ok (d : dict) : Prop :=
  forall k v, dict_get k d = Some v -> field_is_array k = true ->
              exists xs, v = VList xs.

Definition arrays_ok (h : store) : Prop := Forall dict_ok h.

(** The elements under [key], none when the key is absent. *)
Definition items_of (key : string) (d : dict) : list elem :=
  match dict_get key d with
  | Some (VList xs) => xs
  | _ => []
  end.

(** From [h0] to [h] the store only grew, and of the records of [h0] only
    the one at [r] may differ. *)
Definition touches_only (r : loc) (h0 h : store) : Prop :=
  length h0 <= length h /\
  forall l, l < length h0 -> l <> r -> nth_error h l = nth_error h0 l.

(** The frames of a header stack point to [r] or to records allocated
    since the store had [n] records. *)
Definition frames_in (r : loc) (n : nat) (stack : list frame) : Prop :=
  Forall (fun fr : frame => fst (fst fr) = r \/ n <= fst (fst fr)) stack.

(** [m'] has every result of [m]: they differ only where [m] ran out of
    fuel. *)
Definition refines {A} (m m' : M A) : Prop :=
  forall st, m st = OutOfFuel \/ m st = m' st.

(** [m] needs no fuel: it has a result or raises, from every state. *)
Definition total {A} (m : M A) : Prop := forall st, m st <> OutOfFuel.


(** The frames of a header stack point into the store. *)
Definition frames_valid (h : store) (stack : list frame) : Prop :=
  Forall (fun fr : frame => fst (fst fr) < length h) stack.

(** The key [process_nested_fields] reads from a tag line. *)
Definition tag_key (line : string) : string :=
  strip (tail1 (nth 0 (split1 ">" line) "")).

(** Every line whose key is [SEC-HEADER] has a line that starts with
    [</SEC-HEADER>] after it. *)
Fixpoint headers_closed (lines : list string) : bool :=
  match lines with
  | [] => true
  | l :: rest =>
      (if tag_key l =? "SEC-HEADER"
       then existsb (startswith "</SEC-HEADER>") rest
       else true)
      && headers_closed rest
  end.

(** Total correctness: [m] has a result that satisfies [Q], or raises. *)
Definition twp {A} (m : M A) (Q : A -> state -> Prop) (st : state) : Prop :=
  match m st with
  | Ok a st' => Q a st'
  | Raise _ _ => True
  | OutOfFuel => False
  end.

(** From [h] to [h'] every list under an array-valued key was only
    extended at its end. *)
Definition lists_grow (h h' : store) : Prop :=
  forall l d k xs,
    field_is_array k = true ->
    nth_error h l = Some d -> dict_get k d = Some (VList xs) ->
    exists d' ys, nth_error h' l = Some d' /\ dict_get k d' = Some (VList (xs ++ ys)).

(** From [h] to [h'] no record lost a key. *)
Definition keys_kept (h h' : store) : Prop :=
  forall l d k,
    nth_error h l = Some d -> dict_mem k d = true ->
    exists d', nth_error h' l = Some d' /\ dict_mem k d' = true.

(** From [st] to [st'] lines were read in order and messages were added
    to the log. *)
Definition advances (st st' : state) : Prop :=
  (exists read, reader st = read ++ reader st') /\
  (exists added, log st' = log st ++ added).

(** The tables of the [FILER] section and of its [COMPANY DATA] section. *)
Definition FILER_MAP : key_map :=
  match km_get "FILER" KEY_MAP with
  | Some (Nested _ sub) => sub
  | _ => []
  end.

Definition COMPANY_DATA_MAP : key_map :=
  match km_get "COMPANY DATA" FILER_MAP with
  | Some (Nested _ sub) => sub
  | _ => []
  end.

(** The records a value, a record and the store refer to. *)
Definition refs_elem (e : elem) : list nat :=
  match e with
  | ERef l => [l]
  | EStr _ => []
  end.

Definition refs_value (v : value) : list nat :=
  match v with
  | VStr _ => []
  | VRef l => [l]
  | VList xs => flat_map refs_elem xs
  end.

Definition refs_dict (d : dict) : list nat :=
  flat_map (fun kv : string * value => refs_value (snd kv)) d.

Definition refs_store (h : store) : list nat := flat_map refs_dict h.

(** No record is referred to twice, and every reference is to a record of
    the store. *)
Definition tree_shaped (h : store) : Prop :=
  NoDup (refs_store h) /\ Forall (fun l => l < length h) (refs_store h).

(** The same by counting. *)
Definition refs_count (h : store) (x : nat) : nat :=
  count_occ Nat.eq_dec (refs_store h) x.

(** Every reference held by a record is to a record created after it. *)
Definition refs_forward (h : store) : Prop :=
  forall l d x, nth_error h l = Some d -> In x (refs_dict d) -> l < x.

(** What is left of the lines [tail] once the block [name] has ended
    there: a block ends at the end of input and at a line that starts with
    its close tag or with [</SEC-DOCUMENT>]. *)
Definition block_end (name : string) (tail : list string) : option (list string) :=
  match tail with
  | [] => Some []
  | line :: rest =>
      if startswith ("</" ++ name ++ ">")%string line || startswith "</SEC-DOCUMENT>" line
      then Some rest
      else None
  end.

(** A header line that leaves the root scope active: neither the
    terminator nor the line of a section of the root table. *)
Definition top_level_line (line : string) : bool :=
  negb (startswith "</SEC-HEADER>" line)
  && match km_get (header_key line) KEY_MAP with
     | Some (Nested _ _) => false
     | _ => true
     end.

(** The inline values of the tag lines [kvs] (key and value of each) that
    have the key [key], in the order met. *)
Definition values_of (key : string) (kvs : list (string * string)) : list string :=
  map snd (filter (fun kv : string * string => fst kv =? key) kvs).

(** A section of the header that holds one line: the line of the section,
    a line of a plain name of the section's table, and the blank line that
    closes the section; with the table of the section and the name the
    second line is renamed to. *)
Record flat_section : Type := mkSection {
  sec_line : string;
  sec_field : string;
  sec_blank : string;
  sec_table : key_map;
  sec_name : string
}.

Definition section_of (key : string) (km : key_map) (s : flat_section) : Prop :=
  header_data (sec_line s) = true
  /\ km_get (header_key (sec_line s)) km = Some (Nested key (sec_table s))
  /\ header_data (sec_field s) = true
  /\ km_get (header_key (sec_field s)) (sec_table s) = Some (Plain (sec_name s))
  /\ field_is_array (sec_name s) = false
  /\ strip (sec_blank s) = "".

Definition section_lines (s : flat_section) : list string :=
  [sec_line s; sec_field s; sec_blank s].

Definition section_record (s : flat_section) : dict :=
  [(sec_name s, VStr (header_value (sec_field s)))].

(** A header with two [FILER] sections, a blank line after each
    [COMPANY DATA] section. *)
Definition two_filers : list string :=
  [ ln "<SUBMISSION>"; ln "<SEC-HEADER>";
    ln "FILER:"; ln "COMPANY DATA:"; ln "CENTRAL INDEX KEY: 0000000001"; nl;
    ln "FILER:"; ln "COMPANY DATA:"; ln "CENTRAL INDEX KEY: 0000000002"; nl;
    ln "</SEC-HEADER>"; ln "</SUBMISSION>" ].

(** The table of the active scope renames the header line [line] to
    [key]. *)
Definition header_occurrence (key : string) (km : key_map) (line : string) : bool :=
  header_data line
  && match km_get (header_key line) km with
     | Some (Plain c) => c =? key
     | Some (Nested c _) => c =? key
     | None => false
     end.

(** One when the line the next turn of the header loop reads is renamed to
    [key] while [target] is the record of the active scope. *)
Definition turn_count (key : string) (target : loc) (stack : list frame) (st : state)
  : nat :=
  match stack with
  | (r, km, _) :: _ =>
      if (r =? target)%nat && header_occurrence key km (hd "" (reader st))
      then 1 else 0
  | [] => 0
  end.

(** The number of lines that the header loop, run from [stack] in [st],
    reads while [target] is the record of the active scope and that the
    table of that scope renames to [key]. *)
Fixpoint occurrences_met (key : string) (target : loc) (fuel : nat)
  (stack : list frame) (st : state) {struct fuel} : nat :=
  match fuel with
  | O => 0
  | S fuel' =>
      turn_count key target stack st
      + match header_iteration stack st with
        | Ok (Some stack') st' => occurrences_met key target fuel' stack' st'
        | _ => 0
        end
  end.

(** From [h] to [h'] the list under [key] in the record [target] got [n]
    more elements, at its end. *)
Definition appended (key : string) (target : loc) (n : nat) (h h' : store) : Prop :=
  forall d, nth_error h target = Some d ->
  exists d' xs, nth_error h' target = Some d'
                /\ items_of key d' = items_of key d ++ xs /\ length xs = n.

(** The record [d] after [d[key].append(x)], the list created when the
    key is absent. *)
Definition dict_append (key : string) (x : elem) (d : dict) : dict :=
  dict_set key (VList (items_of key d ++ [x])) d.

(** The record after the values of the tag lines [kvs] were appended, each
    under its key. *)
Definition append_values (kvs : list (string * string)) (d : dict) : dict :=
  fold_left (fun d kv => dict_append (fst kv) (EStr (snd kv)) d) kvs d.

(** The record after references to the [n] records from [base] on were
    appended under [key]. *)
Definition append_refs (key : string) (base n : nat) (d : dict) : dict :=
  fold_left (fun d i => dict_append key (ERef i) d) (seq base n) d.

(** The errors of the two parsers proper. *)
Definition parser_error (e : error) : Prop :=
  e <> InvalidLeadingMarker /\ forall l, e <> MissingColonDelimiter l.

(* ================================================================== *)
(** ** Equations of the monad and of the store *)

Lemma bind_ret_l {A B} (a : A) (k : A -> M B) st : bind (ret a) k st = k a st.
Proof. reflexivity. Qed.

Lemma bind_assoc {A B C} (m : M A) (k : A -> M B) (k' : B -> M C) st :
  bind (bind m k) k' st = bind m (fun a => bind (k a) k') st.
Proof. unfold bind. destruct (m st); reflexivity. Qed.

Lemma bind_raise {A B} e (k : A -> M B) st : bind (raise e) k st = Raise e st.
Proof. reflexivity. Qed.

Lemma run_readline_cons {A} (k : string -> M A) h l rest lg :
  bind readline k (mkState h (l :: rest) lg) = k l (mkState h rest lg).
Proof. reflexivity. Qed.

Lemma run_readline_nil {A} (k : string -> M A) h lg :
  bind readline k (mkState h [] lg) = k "" (mkState h [] lg).
Proof. reflexivity. Qed.

Lemma run_emit {A} (k : unit -> M A) w h rd lg :
  bind (emit w) k (mkState h rd lg) = k tt (mkState h rd (lg ++ [w])).
Proof. reflexivity. Qed.

Lemma run_get_dict {A} (k : dict -> M A) l d st :
  nth_error (heap st) l = Some d -> bind (get_dict l) k st = k d st.
Proof. intros H. unfold bind, get_dict. rewrite H. reflexivity. Qed.

Lemma run_new_dict {A} (k : loc -> M A) h rd lg :
  bind new_dict k (mkState h rd lg) = k (length h) (mkState (h ++ [[]]) rd lg).
Proof. reflexivity. Qed.

Lemma run_set_item {A} (k : unit -> M A) l key v d h rd lg :
  nth_error h l = Some d ->
  bind (set_item l key v) k (mkState h rd lg)
  = k tt (mkState (store_set l (dict_set key v d) h) rd lg).
Proof.
  intros H. unfold set_item. rewrite bind_assoc.
  rewrite (run_get_dict _ l d) by exact H. reflexivity.
Qed.

Lemma nth_error_store_set_eq l d h :
  l < length h -> nth_error (store_set l d h) l = Some d.
Proof.
  revert l. induction h as [|d0 h IH]; intros [|l] Hl; simpl in *; try lia.
  - reflexivity.
  - apply IH. lia.
Qed.

Lemma nth_error_store_set_neq l l' d h :
  l <> l' -> nth_error (store_set l d h) l' = nth_error h l'.
Proof.
  revert l l'. induction h as [|d0 h IH]; intros [|l] [|l'] Hne; simpl;
    try reflexivity; try congruence.
  apply IH. congruence.
Qed.

Lemma length_store_set l d h : length (store_set l d h) = length h.
Proof.
  revert l. induction h as [|d0 h IH]; intros [|l]; simpl; try reflexivity.
  now rewrite IH.
Qed.

Lemma nth_error_valid {A} (h : list A) l d : nth_error h l = Some d -> l < length h.
Proof. intros H. apply nth_error_Some. congruence. Qed.

Lemma dict_get_set_eq k v d : dict_get k (dict_set k v d) = Some v.
Proof.
  induction d as [|[k' v'] d IH]; simpl.
  - now rewrite String.eqb_refl.
  - destruct (k' =? k) eqn:E; simpl.
    + now rewrite String.eqb_refl.
    + now rewrite E.
Qed.

Lemma dict_get_set_neq k k' v d :
  k <> k' -> dict_get k' (dict_set k v d) = dict_get k' d.
Proof.
  intros Hne. induction d as [|[k0 v0] d IH]; simpl.
  - apply String.eqb_neq in Hne. now rewrite Hne.
  - destruct (k0 =? k) eqn:E; simpl.
    + apply String.eqb_eq in E. subst k0.
      apply String.eqb_neq in Hne. now rewrite Hne.
    + destruct (k0 =? k'); [reflexivity | exact IH].
Qed.

Lemma dict_mem_set k k' v d :
  dict_mem k' (dict_set k v d) = (k =? k') || dict_mem k' d.
Proof.
  unfold dict_mem. destruct (k =? k') eqn:E.
  - apply String.eqb_eq in E. subst. now rewrite dict_get_set_eq.
  - apply String.eqb_neq in E. now rewrite dict_get_set_neq.
Qed.

(** Strings. *)

Lemma split1_cases sep s :
  split1 sep s = [s] \/ exists a b, split1 sep s = [a; b].
Proof.
  unfold split1. destruct (cut sep s) as [[a b]|]; [right; eauto | now left].
Qed.

Lemma split1_length sep s : 1 <= length (split1 sep s) <= 2.
Proof.
  destruct (split1_cases sep s) as [H | (a & b & H)]; rewrite H; simpl; lia.
Qed.

Lemma split1_no_sep sep s : has_char sep s = false -> split1 sep s = [s].
Proof.
  unfold split1. intros H.
  assert (cut sep s = None) as ->; [|reflexivity].
  induction s as [|c s IH]; simpl in *; [reflexivity|].
  apply orb_false_iff in H as [H1 H2]. rewrite H1, (IH H2). reflexivity.
Qed.

Lemma startswith_nonempty p s : p <> "" -> startswith p s = true -> s <> "".
Proof. destruct p, s; simpl; congruence. Qed.

Lemma join_cons l ls : join (l :: ls) = (l ++ join ls)%string.
Proof.
  unfold join. destruct ls as [|l' ls]; simpl.
  - clear. induction l; simpl; congruence.
  - reflexivity.
Qed.

Lemma join_fold ls : join ls = fold_right String.append "" ls.
Proof.
  induction ls as [|l ls IH]; [reflexivity|].
  rewrite join_cons, IH. reflexivity.
Qed.

Lemma splitlines_aux_nonempty cur s :
  Forall (fun l => l <> "") (splitlines_aux cur s).
Proof.
  revert cur. induction s as [|c s IH]; intros cur; simpl.
  - destruct (cur =? "") eqn:E; constructor; [|constructor].
    now apply String.eqb_neq.
  - destruct (Ascii.eqb c "010").
    + constructor; [|apply IH]. destruct cur; simpl; congruence.
    + apply IH.
Qed.

(** [readline()] never yields [""] before the end of the text. *)
Lemma splitlines_nonempty text : Forall (fun l => l <> "") (splitlines text).
Proof. apply splitlines_aux_nonempty. Qed.

(* ================================================================== *)
(** ** One turn of the loop of [process_nested_fields] *)

Arguments startswith : simpl never.
Arguments strip : simpl never.
Arguments split1 : simpl never.
Arguments String.eqb : simpl never.
Arguments str_in : simpl never.
Arguments field_is_array : simpl never.
Arguments km_get : simpl never.
Arguments dict_get : simpl never.
Arguments dict_set : simpl never.
Arguments dict_mem : simpl never.
Arguments store_set : simpl never.
Arguments nth_error : simpl never.
Arguments String.append : simpl never.

Lemma open_tag_inv name line key value :
  open_tag name line = Some (key, value) ->
  (line =? "") = false /\
  startswith ("</" ++ name ++ ">")%string line || startswith "</SEC-DOCUMENT>" line = false /\
  startswith "<" line = true /\
  exists p0 p1, split1 ">" line = [p0; p1]
                /\ key = strip (tail1 p0) /\ value = strip p1.
Proof.
  unfold open_tag. intros H.
  destruct (line =? "") eqn:E1; [discriminate|].
  destruct (startswith ("</" ++ name ++ ">")%string line || startswith "</SEC-DOCUMENT>" line)
    eqn:E2; [discriminate|].
  destruct (startswith "<" line) eqn:E3; simpl in H; [|discriminate].
  destruct (split1 ">" line) as [|p0 [|p1 [|p2 ps]]] eqn:E4; try discriminate.
  inversion H; subst. repeat split; eauto.
Qed.

(** The turn on a [TEXT] line enters the raw block. *)
Lemma pnf_text_turn f name r line rest h lg value :
  open_tag name line = Some ("TEXT", value) ->
  process_nested_fields (S f) name r (mkState h (line :: rest) lg)
  = bind (read_text r "TEXT") (fun _ => process_nested_fields f name r)
      (mkState h rest lg).
Proof.
  intros H. apply open_tag_inv in H as (E1 & E2 & E3 & p0 & p1 & E4 & Ek & Ev).
  simpl. rewrite run_readline_cons, E1, E2, E3, E4. simpl.
  rewrite <- Ek. reflexivity.
Qed.

(** The turn on a [SEC-HEADER] line hands the stream to the header parser. *)
Lemma pnf_header_turn f name r line rest h lg value :
  open_tag name line = Some ("SEC-HEADER", value) ->
  process_nested_fields (S f) name r (mkState h (line :: rest) lg)
  = bind (processTxtHeader f r) (fun _ => process_nested_fields f name r)
      (mkState h rest lg).
Proof.
  intros H. apply open_tag_inv in H as (E1 & E2 & E3 & p0 & p1 & E4 & Ek & Ev).
  simpl. rewrite run_readline_cons, E1, E2, E3, E4. simpl.
  rewrite <- Ek. reflexivity.
Qed.

(** The turn on any other key with an empty inline value opens a block. *)
Lemma pnf_nested_turn f name r line rest h lg key :
  open_tag name line = Some (key, "") ->
  key <> "TEXT" -> key <> "SEC-HEADER" -> str_in key scalar_flags = false ->
  process_nested_fields (S f) name r (mkState h (line :: rest) lg)
  = bind (if field_is_array key then
            ensure_list r key ;;
            new_parent <- new_dict ;;
            list_append r key (ERef new_parent) ;;
            process_nested_fields f key new_parent
          else
            reject_duplicate r key ;;
            new_parent <- new_dict ;;
            set_item r key (VRef new_parent) ;;
            process_nested_fields f key new_parent)
      (fun _ => process_nested_fields f name r)
      (mkState h rest lg).
Proof.
  intros H Ht Hh Hf.
  apply open_tag_inv in H as (E1 & E2 & E3 & p0 & p1 & E4 & Ek & Ev).
  apply String.eqb_neq in Ht, Hh.
  simpl. rewrite run_readline_cons, E1, E2, E3, E4. simpl.
  rewrite <- Ek, <- Ev, Ht, Hh, Hf. reflexivity.
Qed.

(** The turn on a key with an inline value, or on a flag key, stores a
    scalar. *)
Lemma pnf_scalar_turn f name r line rest h lg key value :
  open_tag name line = Some (key, value) ->
  key <> "TEXT" -> key <> "SEC-HEADER" ->
  (value =? "") && negb (str_in key scalar_flags) = false ->
  process_nested_fields (S f) name r (mkState h (line :: rest) lg)
  = bind (if field_is_array key then
            ensure_list r key ;;
            list_append r key (EStr value)
          else
            reject_duplicate r key ;;
            set_item r key (VStr value))
      (fun _ => process_nested_fields f name r)
      (mkState h rest lg).
Proof.
  intros H Ht Hh Hf.
  apply open_tag_inv in H as (E1 & E2 & E3 & p0 & p1 & E4 & Ek & Ev).
  apply String.eqb_neq in Ht, Hh.
  simpl. rewrite run_readline_cons, E1, E2, E3, E4. simpl.
  rewrite <- Ek, <- Ev, Ht, Hh, Hf. reflexivity.
Qed.

(** The raw block. *)
Lemma text_loop_closed content body close rest :
  Forall (fun l => l <> "" /\ startswith "</TEXT>" l = false) body ->
  startswith "</TEXT>" close = true ->
  text_loop content (body ++ close :: rest) = Some (content ++ body, rest).
Proof.
  intros Hb Hc. revert content.
  induction Hb as [|l body [Hl1 Hl2] _ IH]; intros content; simpl.
  - assert (close <> "") as Hne by (eapply startswith_nonempty; eauto; discriminate).
    apply String.eqb_neq in Hne. rewrite Hne, Hc, app_nil_r. reflexivity.
  - apply String.eqb_neq in Hl1. rewrite Hl1, Hl2, IH, <- app_assoc. reflexivity.
Qed.

Lemma text_loop_open content body :
  Forall (fun l => startswith "</TEXT>" l = false) body ->
  text_loop content body = None.
Proof.
  intros Hb. revert content.
  induction Hb as [|l body Hl _ IH]; intros content; simpl; [reflexivity|].
  destruct (l =? ""); [reflexivity|]. rewrite Hl. apply IH.
Qed.

(** C7. End of input: in tag mode [process_nested_fields] returns
    normally, the stream exhausted and nothing changed; inside a [TEXT]
    block that no [</TEXT>] line closes it raises the error of the
    unterminated raw block. *)
Theorem eof_asymmetry :
  (forall f name fields h lg,
     process_nested_fields (S f) name fields (mkState h [] lg)
     = Ok tt (mkState h [] lg)) /\
  (forall f name fields h lg line value body,
     open_tag name line = Some ("TEXT", value) ->
     Forall (fun l => startswith "</TEXT>" l = false) body ->
     process_nested_fields (S f) name fields (mkState h (line :: body) lg)
     = Raise UnterminatedRawBlock (mkState h [] lg)).
Proof.
  split.
  - intros. reflexivity.
  - intros f name fields h lg line value body Ho Hb.
    rewrite (pnf_text_turn _ _ _ _ _ _ _ _ Ho).
    unfold bind, read_text. simpl. rewrite (text_loop_open _ _ Hb). reflexivity.
Qed.

Lemma eof_asymmetry_witness :
  process_nested_fields 1 "SUBMISSION" 0
    (mkState [[]] [ln "<TEXT>"; ln "free text"] [])
  = Raise UnterminatedRawBlock (mkState [[]] [] []).
Proof.
  apply (proj2 eof_asymmetry 0 "SUBMISSION" 0 [[]] [] (ln "<TEXT>") "" [ln "free text"]).
  - vm_compute. reflexivity.
  - repeat constructor.
Defined.

(* ================================================================== *)
(** ** One turn of the loop of [processTxtHeader] *)

Lemma header_data_inv line :
  header_data line = true ->
  (line =? "") || (strip line =? "") = false /\
  startswith "</SEC-HEADER>" line = false /\
  startswith "<ACCEPTANCE-DATETIME>" line = false /\
  (length (split1 ":" line) =? 0)%nat = false.
Proof.
  unfold header_data. intros H.
  apply andb_true_iff in H as [H H3]. apply andb_true_iff in H as [H1 H2].
  apply negb_true_iff in H1, H2, H3. repeat split; try assumption.
  apply Nat.eqb_neq. pose proof (split1_length ":" line). lia.
Qed.

Lemma header_lookup_turn fields km label below h line rest lg :
  header_data line = true ->
  header_iteration ((fields, km, label) :: below) (mkState h (line :: rest) lg)
  = match km_get (header_key line) km with
    | Some (Nested orig_key sub) =>
        if field_is_array orig_key then
          ensure_list fields orig_key ;;
          new_parent <- new_dict ;;
          list_append fields orig_key (ERef new_parent) ;;
          ret (Some ((new_parent, sub, header_key line) :: (fields, km, label) :: below))
        else
          warn_duplicate fields orig_key ;;
          new_parent <- new_dict ;;
          set_item fields orig_key (VRef new_parent) ;;
          ret (Some ((new_parent, sub, header_key line) :: (fields, km, label) :: below))
    | Some (Plain orig_key) =>
        if field_is_array orig_key then
          ensure_list fields orig_key ;;
          list_append fields orig_key (EStr (header_value line)) ;;
          ret (Some ((fields, km, label) :: below))
        else
          warn_duplicate fields orig_key ;;
          set_item fields orig_key (VStr (header_value line)) ;;
          ret (Some ((fields, km, label) :: below))
    | None =>
        if negb ((header_key line =? "") || (header_value line =? ""))
           && negb (header_key line =? "ITEM INFORMATION")
        then emit (WarnUnknownKey (header_key line) (header_value line) label) ;;
             ret (Some ((fields, km, label) :: below))
        else ret (Some ((fields, km, label) :: below))
    end (mkState h rest lg).
Proof.
  intros H. apply header_data_inv in H as (E1 & E2 & E3 & E4).
  unfold header_iteration. rewrite run_readline_cons, E1, E2, E3, E4.
  reflexivity.
Qed.

Lemma header_loop_turn f fr stack st :
  header_loop (S f) (fr :: stack) st
  = bind (header_iteration (fr :: stack))
      (fun r => match r with
                | None => ret tt
                | Some stack' => header_loop f stack'
                end) st.
Proof. reflexivity. Qed.

Lemma startswith_cons c p s :
  startswith (String c p) s = true ->
  exists s', s = String c s' /\ startswith p s' = true.
Proof.
  destruct s as [|b s]; unfold startswith; fold startswith; [discriminate|].
  intros H. apply andb_true_iff in H as [H1 H2].
  apply Ascii.eqb_eq in H1. subst. eauto.
Qed.

Lemma startswith_head_diff c c' p p' s :
  c <> c' -> startswith (String c p) s = true -> startswith (String c' p') s = false.
Proof.
  intros Hne H. apply startswith_cons in H as (s' & -> & _).
  unfold startswith; fold startswith.
  apply Ascii.eqb_neq in Hne. rewrite Ascii.eqb_sym, Hne. reflexivity.
Qed.

Lemma strip_head_nonspace c s : isspace c = false -> strip (String c s) <> "".
Proof.
  intros H. unfold strip. simpl. rewrite H. simpl. rewrite H. simpl. discriminate.
Qed.

Lemma acceptance_line line :
  startswith "<ACCEPTANCE-DATETIME>" line = true ->
  (line =? "") || (strip line =? "") = false /\
  startswith "</SEC-HEADER>" line = false.
Proof.
  intros H. destruct (startswith_cons _ _ _ H) as (s1 & -> & H1).
  destruct (startswith_cons _ _ _ H1) as (s2 & -> & _).
  split.
  - apply orb_false_iff. split; [reflexivity|].
    apply String.eqb_neq. now apply strip_head_nonspace.
  - reflexivity.
Qed.

(** C10. A header line that starts with [<ACCEPTANCE-DATETIME>], or whose
    trimmed key is not in the table of the active scope, leaves every
    record of the store as it was: the turn ends normally on the same
    stack, the line consumed, and the log grows by at most the warning
    about the unknown key. *)
Theorem header_skips_unmapped fields km label below h line rest lg :
  startswith "<ACCEPTANCE-DATETIME>" line = true
  \/ (header_data line = true /\ km_get (header_key line) km = None) ->
  exists lg',
    header_iteration ((fields, km, label) :: below) (mkState h (line :: rest) lg)
    = Ok (Some ((fields, km, label) :: below)) (mkState h rest lg')
    /\ (lg' = lg
        \/ lg' = lg ++ [WarnUnknownKey (header_key line) (header_value line) label]).
Proof.
  intros [Ha | [Hd Hk]].
  - exists lg. split; [|now left].
    destruct (acceptance_line _ Ha) as [E1 E2].
    unfold header_iteration. rewrite run_readline_cons, E1, E2, Ha. reflexivity.
  - rewrite header_lookup_turn by exact Hd. rewrite Hk.
    destruct (negb ((header_key line =? "") || (header_value line =? ""))
              && negb (header_key line =? "ITEM INFORMATION")).
    + eexists. split; [reflexivity | now right].
    + eexists. split; [reflexivity | now left].
Qed.

Lemma header_skips_unmapped_witness :
  exists lg',
    header_iteration [(0, KEY_MAP, "")]
      (mkState [[]] [ln "STATE OF INCORPORATION: DE"; ln "</SEC-HEADER>"] [])
    = Ok (Some [(0, KEY_MAP, "")]) (mkState [[]] [ln "</SEC-HEADER>"] lg')
    /\ (lg' = []
        \/ lg' = [] ++ [WarnUnknownKey (header_key (ln "STATE OF INCORPORATION: DE"))
                          (header_value (ln "STATE OF INCORPORATION: DE")) ""]).
Proof.
  apply (header_skips_unmapped 0 KEY_MAP "" [] [[]]
           (ln "STATE OF INCORPORATION: DE") [ln "</SEC-HEADER>"] []).
  right. split; reflexivity.
Defined.

(* ================================================================== *)
(** ** Rules of partial correctness *)

Lemma wp_ret {A} (a : A) Q E st : Q a st -> wp (ret a) Q E st.
Proof. exact (fun H => H). Qed.

Lemma wp_raise {A} e (Q : A -> state -> Prop) E st : E e st -> wp (raise e) Q E st.
Proof. exact (fun H => H). Qed.

Lemma wp_out_of_fuel {A} (Q : A -> state -> Prop) E st : wp out_of_fuel Q E st.
Proof. exact I. Qed.

Lemma wp_bind {A B} (m : M A) (k : A -> M B) Q E st :
  wp m (fun a st' => wp (k a) Q E st') E st -> wp (bind m k) Q E st.
Proof. unfold wp, bind. destruct (m st); auto. Qed.

Lemma wp_conseq {A} (m : M A) (Q Q' : A -> state -> Prop) (E E' : error -> state -> Prop) st :
  wp m Q E st ->
  (forall a st', Q a st' -> Q' a st') ->
  (forall e st', E e st' -> E' e st') ->
  wp m Q' E' st.
Proof. unfold wp. destruct (m st); auto. Qed.

Lemma wp_readline Q E st :
  match reader st with
  | [] => Q "" st
  | l :: rest => Q l (mkState (heap st) rest (log st))
  end -> wp readline Q E st.
Proof. unfold wp, readline. destruct (reader st); auto. Qed.

Lemma wp_emit w Q E st :
  Q tt (mkState (heap st) (reader st) (log st ++ [w])) -> wp (emit w) Q E st.
Proof. exact (fun H => H). Qed.

Lemma wp_get_dict l Q E st :
  (forall d, nth_error (heap st) l = Some d -> Q d st) ->
  E InvalidReference st ->
  wp (get_dict l) Q E st.
Proof. unfold wp, get_dict. destruct (nth_error (heap st) l); auto. Qed.

Lemma wp_put_dict l d Q E st :
  Q tt (mkState (store_set l d (heap st)) (reader st) (log st)) ->
  wp (put_dict l d) Q E st.
Proof. exact (fun H => H). Qed.

Lemma wp_new_dict Q E st :
  Q (length (heap st)) (mkState (heap st ++ [[]]) (reader st) (log st)) ->
  wp new_dict Q E st.
Proof. exact (fun H => H). Qed.

Lemma wp_read_text r key Q E st :
  E UnterminatedRawBlock (mkState (heap st) [] (log st)) ->
  (forall content rest,
     wp (set_item r key (VStr (join content))) Q E (mkState (heap st) rest (log st))) ->
  wp (read_text r key) Q E st.
Proof.
  intros HE HQ. unfold wp at 1. unfold read_text.
  destruct (text_loop [] (reader st)) as [[content rest]|]; [apply HQ | exact HE].
Qed.

Ltac wp_step :=
  match goal with
  | |- wp (bind _ _) _ _ _ => apply wp_bind
  | |- wp (ret _) _ _ _ => apply wp_ret
  | |- wp (raise _) _ _ _ => apply wp_raise
  | |- wp out_of_fuel _ _ _ => apply wp_out_of_fuel
  | |- wp (emit _) _ _ _ => apply wp_emit
  | |- wp (put_dict _ _) _ _ _ => apply wp_put_dict
  | |- wp new_dict _ _ _ => apply wp_new_dict
  | |- wp readline _ _ _ => apply wp_readline
  | |- wp (get_dict _) _ _ _ => apply wp_get_dict; [intros ? ? |]
  | |- wp (read_text _ _) _ _ _ => apply wp_read_text; [| intros ? ?]
  | |- wp (set_item _ _ _) _ _ _ => unfold set_item
  | |- wp (ensure_list _ _) _ _ _ => unfold ensure_list
  | |- wp (list_append _ _ _) _ _ _ => unfold list_append
  | |- wp (reject_duplicate _ _) _ _ _ => unfold reject_duplicate
  | |- wp (warn_duplicate _ _) _ _ _ => unfold warn_duplicate
  | |- wp (if ?b then _ else _) _ _ _ => destruct b eqn:?
  | |- wp (match ?x with _ => _ end) _ _ _ => destruct x eqn:?
  | |- match reader ?st with _ => _ end => destruct (reader st) eqn:?
  end.

Ltac wp_walk := repeat (wp_step; cbv beta).

(** The empty line of an exhausted stream takes the first exit. *)
Ltac absurd_eof :=
  match goal with
  | H : ("" =? "") = false |- _ => vm_compute in H; discriminate H
  end.

Ltac header_loop_step f fr stack :=
  change (header_loop (S f) (fr :: stack))
    with (bind (header_iteration (fr :: stack))
            (fun r => match r with
                      | None => ret tt
                      | Some stack' => header_loop f stack'
                      end)).

Lemma parser_error_intro e :
  match e with
  | InvalidLeadingMarker | MissingColonDelimiter _ => False
  | _ => True
  end -> parser_error e.
Proof. destruct e; intros H; try contradiction; split; intros; discriminate. Qed.

Lemma split1_not_empty sep s : (length (split1 sep s) =? 0)%nat = false.
Proof. apply Nat.eqb_neq. pose proof (split1_length sep s). lia. Qed.

(** The header parser raises no error of the leading marker or of the
    missing colon. *)
Lemma header_iteration_errors stack st :
  wp (header_iteration stack) (fun _ _ => True) (fun e _ => parser_error e) st.
Proof.
  unfold header_iteration. destruct stack as [|[[fields km] label] below].
  - wp_walk. exact I.
  - wp_walk; try exact I; try (apply parser_error_intro; exact I).
    all: rewrite split1_not_empty in *; discriminate.
Qed.

Lemma header_loop_errors f stack st :
  wp (header_loop f stack) (fun _ _ => True) (fun e _ => parser_error e) st.
Proof.
  revert stack st. induction f as [|f IH]; intros [|fr stack] st;
    try exact I.
  header_loop_step f fr stack.
  apply wp_bind.
  eapply wp_conseq; [apply header_iteration_errors | | auto].
  intros [stack'|] st' _; [apply IH | exact I].
Qed.

(** So does the tag parser. *)
Lemma process_nested_fields_errors f name fields st :
  wp (process_nested_fields f name fields) (fun _ _ => True)
     (fun e _ => parser_error e) st.
Proof.
  revert name fields st. induction f as [|f IH]; intros name fields st;
    [exact I|].
  simpl process_nested_fields.
  wp_walk;
    repeat first
      [ exact I
      | apply parser_error_intro; exact I
      | apply IH
      | eapply wp_conseq; [apply IH | intros ? ? _ | auto]
      | eapply wp_conseq; [apply header_loop_errors | intros ? ? _ | auto] ].
Qed.

Lemma check_top_fields_errors nm fields expected st :
  wp (check_top_fields nm fields expected) (fun _ _ => True)
     (fun e _ => parser_error e) st.
Proof.
  revert st. induction expected as [|field more IH]; intros st; simpl.
  - exact I.
  - wp_walk;
      repeat first [ exact I | apply parser_error_intro; exact I | apply IH ].
Qed.

(** What [deserialize] runs once the first line is accepted. *)
Lemma deserialize_after_marker fuel nm st :
  wp (fields <- new_dict ;;
      process_nested_fields fuel "SUBMISSION" fields ;;
      check_top_fields nm fields ["DOCUMENT"; "FILER"] ;;
      ret fields)
     (fun _ _ => True) (fun e _ => parser_error e) st.
Proof.
  wp_walk.
  eapply wp_conseq; [apply process_nested_fields_errors | intros ? ? _ | auto].
  wp_walk.
  eapply wp_conseq; [apply check_top_fields_errors | intros ? ? _ | auto].
  wp_walk. exact I.
Qed.

(** [deserialize] on its first line. *)
Lemma deserialize_first_line fuel nm lines :
  deserialize fuel (mkIO nm lines)
  = if startswith "<SUBMISSION>" (hd "" lines)
       || startswith "<SEC-DOCUMENT>" (hd "" lines)
    then logged (fields <- new_dict ;;
                 process_nested_fields fuel "SUBMISSION" fields ;;
                 check_top_fields nm fields ["DOCUMENT"; "FILER"] ;;
                 ret fields) (mkState [] (tl lines) [])
    else Raise InvalidLeadingMarker
           (mkState [] (tl lines) [ErrorProcessing InvalidLeadingMarker]).
Proof.
  unfold deserialize, deserialize_body, logged.
  destruct lines as [|l rest]; simpl.
  - reflexivity.
  - rewrite run_readline_cons.
    destruct (startswith "<SUBMISSION>" l || startswith "<SEC-DOCUMENT>" l);
      reflexivity.
Qed.

(** C8. [deserialize] raises the error of the invalid leading marker
    exactly when the first line starts with neither [<SUBMISSION>] nor
    [<SEC-DOCUMENT>]; when it starts with one of them, a fresh record is
    created and the tag parser runs on the lines that follow. *)
Theorem leading_marker_iff fuel input :
  let first_line := hd "" (io_lines input) in
  let accepted := startswith "<SUBMISSION>" first_line
                  || startswith "<SEC-DOCUMENT>" first_line in
  ((exists st, deserialize fuel input = Raise InvalidLeadingMarker st)
   <-> accepted = false)
  /\ (accepted = true ->
      deserialize fuel input
      = logged (fields <- new_dict ;;
                process_nested_fields fuel "SUBMISSION" fields ;;
                check_top_fields (io_name input) fields ["DOCUMENT"; "FILER"] ;;
                ret fields)
          (mkState [] (tl (io_lines input)) [])).
Proof.
  destruct input as [nm lines]. simpl.
  pose proof (deserialize_first_line fuel nm lines) as Heq.
  destruct (startswith "<SUBMISSION>" (hd "" lines)
            || startswith "<SEC-DOCUMENT>" (hd "" lines)) eqn:Hacc.
  - split; [split|].
    + intros [st Hst]. rewrite Heq in Hst. exfalso.
      pose proof (deserialize_after_marker fuel nm (mkState [] (tl lines) [])) as W.
      unfold wp in W. unfold logged in Hst.
      destruct ((fields <- new_dict;;
                 process_nested_fields fuel "SUBMISSION" fields;;
                 check_top_fields nm fields ["DOCUMENT"; "FILER"];; ret fields)
                  (mkState [] (tl lines) [])); try discriminate.
      inversion Hst; subst. destruct W as [W _]. now apply W.
    + discriminate.
    + intros _. exact Heq.
  - split; [split|].
    + reflexivity.
    + intros _. eexists. exact Heq.
    + discriminate.
Qed.

Lemma leading_marker_iff_witness :
  deserialize 3 (mkIO (Some "filing.txt") [ln "<SEC-DOCUMENT>x.txt"; ln "<TYPE>10-K"])
  = logged (fields <- new_dict ;;
            process_nested_fields 3 "SUBMISSION" fields ;;
            check_top_fields (Some "filing.txt") fields ["DOCUMENT"; "FILER"] ;;
            ret fields)
      (mkState [] [ln "<TYPE>10-K"] []).
Proof.
  apply (proj2 (leading_marker_iff 3
           (mkIO (Some "filing.txt") [ln "<SEC-DOCUMENT>x.txt"; ln "<TYPE>10-K"]))).
  reflexivity.
Defined.

(* ================================================================== *)
(** ** The header parser at the end of input *)

(** At the end of input a turn pops a frame or changes nothing, and never
    empties the stack: the loop does not end. *)
Lemma header_loop_eof f stack h lg :
  stack <> [] ->
  Forall (fun fr : frame => nth_error h (fst (fst fr)) <> None) stack ->
  header_loop f stack (mkState h [] lg) = OutOfFuel.
Proof.
  revert stack. induction f as [|f IH]; intros [|[[fields km] label] below] Hne Hv;
    try congruence; [reflexivity|].
  rewrite header_loop_turn. unfold header_iteration, bind at 1.
  rewrite run_readline_nil.
  change (("" =? "") || (strip "" =? "")) with true. cbv iota.
  inversion Hv as [|? ? Hf Hb]; subst. simpl in Hf.
  destruct (nth_error h fields) as [d|] eqn:Hd; [|congruence].
  rewrite (run_get_dict _ fields d) by exact Hd.
  match goal with |- context [if ?b then _ else _] => destruct b eqn:Hpop end.
  - unfold ret. apply IH; [|exact Hb].
    apply andb_true_iff in Hpop as [_ Hlen]. apply Nat.ltb_lt in Hlen.
    destruct below; simpl in Hlen; [lia | discriminate].
  - unfold ret. apply IH; [discriminate | exact Hv].
Qed.

(** C4. On an input whose [SEC-HEADER] block is not closed before the end
    of the stream, [deserialize] has no result whatever the fuel: the loop
    of [processTxtHeader] keeps reading the exhausted stream. *)
Theorem unclosed_header_never_returns fuel nm :
  deserialize fuel
    (mkIO nm [ ln "<SUBMISSION>"; ln "<SEC-HEADER>";
               ln "ACCESSION NUMBER: 0000000000-24-000001" ])
  = OutOfFuel.
Proof.
  destruct fuel as [|[|f]]; [reflexivity | reflexivity |].
  unfold deserialize, deserialize_body, logged. cbn [io_lines io_name].
  rewrite run_readline_cons.
  change (negb (startswith "<SUBMISSION>" (ln "<SUBMISSION>")
                || startswith "<SEC-DOCUMENT>" (ln "<SUBMISSION>"))) with false.
  cbv iota. rewrite run_new_dict. simpl length. simpl app.
  unfold bind at 1.
  rewrite (pnf_header_turn (S f) "SUBMISSION" 0 (ln "<SEC-HEADER>") _ _ _ ""
             eq_refl).
  unfold bind at 1. unfold processTxtHeader.
  rewrite header_loop_turn. unfold bind at 1.
  rewrite header_lookup_turn by reflexivity.
  change (km_get (header_key (ln "ACCESSION NUMBER: 0000000000-24-000001")) KEY_MAP)
    with (Some (Plain "ACCESSION-NUMBER")).
  cbv iota. change (field_is_array "ACCESSION-NUMBER") with false. cbv iota.
  unfold warn_duplicate. rewrite bind_assoc.
  rewrite (run_get_dict _ 0 []) by reflexivity.
  change (dict_mem "ACCESSION-NUMBER" []) with false. cbv iota.
  rewrite bind_ret_l.
  rewrite (run_set_item _ 0 _ _ []) by reflexivity.
  unfold ret at 1. cbv beta iota.
  rewrite header_loop_eof; [reflexivity | discriminate |].
  repeat constructor. discriminate.
Qed.

(* ================================================================== *)
(** ** Array-valued keys hold lists *)

Lemma dict_ok_nil : dict_ok [].
Proof. intros k v H. discriminate. Qed.

Lemma dict_ok_set k v d :
  dict_ok d ->
  (field_is_array k = true -> exists xs, v = VList xs) ->
  dict_ok (dict_set k v d).
Proof.
  intros Hd Hv k' v' Hget Harr.
  destruct (String.eqb_spec k k') as [->|Hne].
  - rewrite dict_get_set_eq in Hget. inversion Hget; subst. auto.
  - rewrite dict_get_set_neq in Hget by exact Hne. eauto.
Qed.

Lemma arrays_ok_store_set l d h :
  arrays_ok h -> dict_ok d -> arrays_ok (store_set l d h).
Proof.
  unfold arrays_ok. intros Hh Hd. revert l.
  induction Hh as [|d0 h Hd0 Hh IH]; intros [|l]; unfold store_set; fold store_set;
    constructor; auto.
Qed.

Lemma arrays_ok_alloc h : arrays_ok h -> arrays_ok (h ++ [[]]).
Proof.
  intros Hh. apply Forall_app. split; [exact Hh|].
  constructor; [apply dict_ok_nil | constructor].
Qed.

Lemma arrays_ok_lookup h l d : arrays_ok h -> nth_error h l = Some d -> dict_ok d.
Proof.
  intros Hh Hl. unfold arrays_ok in Hh. rewrite Forall_forall in Hh.
  apply Hh. eapply nth_error_In; eauto.
Qed.

Ltac solve_ok :=
  simpl heap in *;
  match goal with
  | |- arrays_ok (store_set _ _ _) => apply arrays_ok_store_set; solve_ok
  | |- arrays_ok (_ ++ [[]]) => apply arrays_ok_alloc; solve_ok
  | |- arrays_ok _ => assumption
  | |- dict_ok (dict_set _ _ _) => apply dict_ok_set; solve_ok
  | |- dict_ok ?d =>
      match goal with
      | H : nth_error _ _ = Some d |- _ =>
          eapply arrays_ok_lookup; [|exact H]; solve_ok
      end
  | |- field_is_array _ = true -> _ =>
      intros ?;
      first [ congruence
            | eexists; reflexivity
            | match goal with
              | H : (?k =? "TEXT") = true |- _ =>
                  apply String.eqb_eq in H; rewrite H in *; discriminate
              end ]
  end.

Lemma header_iteration_arrays_ok stack st :
  arrays_ok (heap st) ->
  wp (header_iteration stack) (fun _ st' => arrays_ok (heap st'))
     (fun _ st' => arrays_ok (heap st')) st.
Proof.
  intros Hok. unfold header_iteration.
  destruct stack as [|[[fields km] label] below].
  - wp_walk. exact Hok.
  - wp_walk; solve_ok.
Qed.

Lemma header_loop_arrays_ok f stack st :
  arrays_ok (heap st) ->
  wp (header_loop f stack) (fun _ st' => arrays_ok (heap st'))
     (fun _ st' => arrays_ok (heap st')) st.
Proof.
  revert stack st. induction f as [|f IH]; intros [|fr stack] st Hok;
    try exact I; try exact Hok.
  header_loop_step f fr stack.
  apply wp_bind.
  eapply wp_conseq; [apply header_iteration_arrays_ok; exact Hok | | auto].
  intros [stack'|] st' Hok'; [apply IH | ]; exact Hok'.
Qed.

Lemma process_nested_fields_arrays_ok f name fields st :
  arrays_ok (heap st) ->
  wp (process_nested_fields f name fields) (fun _ st' => arrays_ok (heap st'))
     (fun _ st' => arrays_ok (heap st')) st.
Proof.
  revert name fields st. induction f as [|f IH]; intros name fields st Hok;
    [exact I|].
  simpl process_nested_fields.
  wp_walk;
    repeat first
      [ solve_ok
      | apply IH
      | eapply wp_conseq; [apply IH | cbv beta; intros ? ? ? | auto]
      | eapply wp_conseq; [apply header_loop_arrays_ok | cbv beta; intros ? ? ? | auto]
      | absurd_eof ].
Qed.

(* ================================================================== *)
(** ** A parser writes to its own record and to fresh ones only *)

Lemma touches_only_refl r h : touches_only r h h.
Proof. split; auto. Qed.

Lemma touches_only_store_set r h0 h l d :
  touches_only r h0 h -> l = r \/ length h0 <= l ->
  touches_only r h0 (store_set l d h).
Proof.
  intros [Hlen Hsame] Hl. split.
  - now rewrite length_store_set.
  - intros l' Hl' Hne. rewrite nth_error_store_set_neq; [auto|].
    destruct Hl; [congruence | lia].
Qed.

Lemma touches_only_alloc r h0 h :
  touches_only r h0 h -> touches_only r h0 (h ++ [[]]).
Proof.
  intros [Hlen Hsame]. split.
  - rewrite length_app. lia.
  - intros l Hl Hne. rewrite nth_error_app1 by lia. auto.
Qed.

Lemma touches_only_child r c h0 h1 h2 :
  touches_only r h0 h1 -> touches_only c h1 h2 -> c = r \/ length h0 <= c ->
  touches_only r h0 h2.
Proof.
  intros [Hlen1 Hsame1] [Hlen2 Hsame2] Hc. split; [lia|].
  intros l Hl Hne. rewrite Hsame2; [auto | lia |].
  destruct Hc; [congruence | lia].
Qed.

Lemma touches_only_length r h0 h : touches_only r h0 h -> length h0 <= length h.
Proof. now intros [H _]. Qed.

Ltac solve_touch :=
  simpl heap in *;
  match goal with
  | |- touches_only _ _ (store_set _ _ _) =>
      apply touches_only_store_set; [solve_touch | solve [auto]]
  | |- touches_only _ _ (_ ++ [[]]) => apply touches_only_alloc; solve_touch
  | |- touches_only _ _ _ => assumption
  end.

Lemma frames_in_push r n l km label stack :
  frames_in r n stack -> n <= l -> frames_in r n ((l, km, label) :: stack).
Proof. intros H Hl. constructor; [right; exact Hl | exact H]. Qed.

Lemma header_iteration_touches r h0 stack st :
  frames_in r (length h0) stack ->
  touches_only r h0 (heap st) ->
  wp (header_iteration stack)
     (fun res st' =>
        touches_only r h0 (heap st') /\
        forall stack', res = Some stack' -> frames_in r (length h0) stack')
     (fun _ st' => touches_only r h0 (heap st')) st.
Proof.
  intros Hfr Ht. unfold header_iteration.
  destruct stack as [|[[fields km] label] below].
  - wp_walk. split; [exact Ht | discriminate].
  - assert (fields = r \/ length h0 <= fields) as Hf
      by (inversion Hfr; subst; assumption).
    assert (frames_in r (length h0) below) as Hb
      by (inversion Hfr; subst; assumption).
    wp_walk; try solve_touch;
      (split; [solve_touch |]);
      intros stack' Hs; inversion Hs; subst; try assumption;
      apply frames_in_push; try assumption;
      simpl heap in *;
      repeat rewrite length_store_set;
      eapply touches_only_length; eassumption.
Qed.

Lemma header_loop_touches f r h0 stack st :
  frames_in r (length h0) stack ->
  touches_only r h0 (heap st) ->
  wp (header_loop f stack)
     (fun _ st' => touches_only r h0 (heap st'))
     (fun _ st' => touches_only r h0 (heap st')) st.
Proof.
  revert stack st. induction f as [|f IH]; intros [|fr stack] st Hfr Ht;
    try exact I; try exact Ht.
  header_loop_step f fr stack.
  apply wp_bind.
  eapply wp_conseq;
    [apply (header_iteration_touches r h0); [exact Hfr | exact Ht] | | auto].
  cbv beta. intros [stack'|] st' [Ht' Hfr']; [apply IH; auto | exact Ht'].
Qed.

Lemma process_nested_fields_touches f name fields h0 st :
  touches_only fields h0 (heap st) ->
  wp (process_nested_fields f name fields)
     (fun _ st' => touches_only fields h0 (heap st'))
     (fun _ st' => touches_only fields h0 (heap st')) st.
Proof.
  revert name fields h0 st. induction f as [|f IH]; intros name fields h0 st Ht;
    [exact I|].
  simpl process_nested_fields.
  wp_walk;
    repeat first
      [ absurd_eof
      | solve_touch
      | apply IH
      | eapply wp_conseq;
          [ apply (header_loop_touches f fields h0);
              [repeat constructor; left; reflexivity | solve_touch]
          | cbv beta; intros ? ? ? | auto ]
      | match goal with
        | |- wp (process_nested_fields f ?key (length ?h)) _ _ ?s =>
            eapply wp_conseq;
              [ apply (IH key (length h) (heap s)); apply touches_only_refl
              | cbv beta; intros ? ? ?
              | cbv beta; intros ? ? ? ];
              match goal with
              | Hc : touches_only (length h) _ _ |- _ =>
                  simpl heap in Hc;
                  eapply (touches_only_child fields (length h) h0) in Hc;
                    [ | solve_touch
                      | right; simpl heap in *; repeat rewrite length_store_set;
                        eapply touches_only_length; eassumption ]
              end
        end ].
Qed.

Lemma process_nested_fields_frame f name fields st st' :
  process_nested_fields f name fields st = Ok tt st' ->
  touches_only fields (heap st) (heap st').
Proof.
  intros H.
  pose proof (process_nested_fields_touches f name fields (heap st) st
                (touches_only_refl _ _)) as W.
  unfold wp in W. rewrite H in W. exact W.
Qed.

(* ================================================================== *)
(** ** Appending to an array-valued key *)

Lemma dict_set_twice k v v' d : dict_set k v (dict_set k v' d) = dict_set k v d.
Proof.
  induction d as [|[k0 v0] d IH]; unfold dict_set; fold dict_set.
  - now rewrite String.eqb_refl.
  - destruct (k0 =? k) eqn:E; unfold dict_set; fold dict_set.
    + now rewrite String.eqb_refl.
    + now rewrite E, IH.
Qed.

Lemma store_set_twice l d d' h : store_set l d (store_set l d' h) = store_set l d h.
Proof.
  revert l. induction h as [|d0 h IH]; intros [|l]; unfold store_set; fold store_set;
    try reflexivity.
  now rewrite IH.
Qed.

Lemma store_set_app l d h h' :
  l < length h -> store_set l d (h ++ h') = store_set l d h ++ h'.
Proof.
  revert l. induction h as [|d0 h IH]; intros [|l] Hl; simpl in Hl; try lia;
    unfold store_set; fold store_set; simpl app; unfold store_set; fold store_set.
  - reflexivity.
  - rewrite IH by lia. reflexivity.
Qed.

Lemma items_of_set key xs d : items_of key (dict_set key (VList xs) d) = xs.
Proof. unfold items_of. now rewrite dict_get_set_eq. Qed.

Lemma items_of_set_other key key' v d :
  key' <> key -> items_of key (dict_set key' v d) = items_of key d.
Proof. intros H. unfold items_of. now rewrite dict_get_set_neq. Qed.

(** [if key not in fields: fields[key] = []] followed by
    [fields[key].append(x)] on a record whose array-valued keys hold
    lists: one element more at the end of the list under [key]. *)
Lemma ensure_then_append fields key x d h :
  nth_error h fields = Some d -> dict_ok d -> field_is_array key = true ->
  forall rd lg,
  (ensure_list fields key ;; list_append fields key x) (mkState h rd lg)
  = Ok tt (mkState (store_set fields (dict_set key (VList (items_of key d ++ [x])) d) h)
             rd lg).
Proof.
  intros Hd Hok Harr rd lg.
  pose proof (nth_error_valid _ _ _ Hd) as Hlt.
  unfold ensure_list. rewrite bind_assoc.
  rewrite (run_get_dict _ fields d) by exact Hd.
  unfold dict_mem, items_of.
  destruct (dict_get key d) as [v|] eqn:Hget.
  - destruct (Hok key v Hget Harr) as [xs ->].
    rewrite bind_ret_l. unfold list_append.
    rewrite (run_get_dict _ fields d) by exact Hd. rewrite Hget. reflexivity.
  - unfold bind at 1. unfold put_dict. cbn [heap reader log].
    unfold list_append.
    rewrite (run_get_dict _ fields (dict_set key (VList []) d))
      by (cbn [heap]; now apply nth_error_store_set_eq).
    rewrite dict_get_set_eq. unfold put_dict. cbn [heap reader log].
    rewrite store_set_twice, dict_set_twice. reflexivity.
Qed.

(** The same with [new_parent = {}] in between. *)
Lemma ensure_new_append {A} (k : loc -> M A) fields key d h :
  nth_error h fields = Some d -> dict_ok d -> field_is_array key = true ->
  forall rd lg,
  (ensure_list fields key ;;
   new_parent <- new_dict ;;
   list_append fields key (ERef new_parent) ;;
   k new_parent) (mkState h rd lg)
  = k (length h)
      (mkState (store_set fields
                  (dict_set key (VList (items_of key d ++ [ERef (length h)])) d) h
                ++ [[]]) rd lg).
Proof.
  intros Hd Hok Harr rd lg.
  pose proof (nth_error_valid _ _ _ Hd) as Hlt.
  unfold ensure_list. rewrite bind_assoc.
  rewrite (run_get_dict _ fields d) by exact Hd.
  unfold dict_mem, items_of.
  destruct (dict_get key d) as [v|] eqn:Hget.
  - destruct (Hok key v Hget Harr) as [xs ->].
    rewrite bind_ret_l, run_new_dict. unfold list_append. rewrite bind_assoc.
    rewrite (run_get_dict _ fields d)
      by (cbn [heap]; rewrite nth_error_app1 by exact Hlt; exact Hd).
    rewrite Hget. unfold bind at 1. unfold put_dict. cbn [heap reader log].
    rewrite store_set_app by exact Hlt. reflexivity.
  - unfold bind at 1. unfold put_dict. cbn [heap reader log].
    rewrite run_new_dict, length_store_set.
    unfold list_append. rewrite bind_assoc.
    rewrite (run_get_dict _ fields (dict_set key (VList []) d))
      by (cbn [heap]; rewrite nth_error_app1 by (now rewrite length_store_set);
          now apply nth_error_store_set_eq).
    rewrite dict_get_set_eq. unfold bind at 1. unfold put_dict.
    cbn [heap reader log].
    rewrite store_set_app by (now rewrite length_store_set).
    rewrite store_set_twice, dict_set_twice. reflexivity.
Qed.

(** An array-valued key is none of the keys the tag parser singles out. *)
Lemma array_key_plain key :
  field_is_array key = true ->
  key <> "TEXT" /\ key <> "SEC-HEADER" /\ str_in key scalar_flags = false.
Proof.
  unfold field_is_array. unfold str_in at 1. cbn [existsb]. intros H.
  repeat (apply orb_true_iff in H as [H|H];
          [apply String.eqb_eq in H; subst key;
           split; [discriminate | split; [discriminate | reflexivity]] |]).
  discriminate.
Qed.

Lemma store_set_same l d h : nth_error h l = Some d -> store_set l d h = h.
Proof.
  revert l. induction h as [|d0 h IH]; intros [|l] H; unfold store_set; fold store_set;
    try reflexivity.
  - unfold nth_error in H. inversion H. reflexivity.
  - rewrite IH; [reflexivity | exact H].
Qed.

(** A scalar occurrence of an array-valued key in the tag parser. *)
Lemma array_scalar_turn f name fields key value line rest h lg d :
  field_is_array key = true ->
  open_tag name line = Some (key, value) -> value <> "" ->
  nth_error h fields = Some d -> dict_ok d ->
  process_nested_fields (S f) name fields (mkState h (line :: rest) lg)
  = process_nested_fields f name fields
      (mkState (store_set fields
                  (dict_set key (VList (items_of key d ++ [EStr value])) d) h)
         rest lg).
Proof.
  intros Harr Ho Hv Hd Hok.
  destruct (array_key_plain key Harr) as (Ht & Hh & Hf).
  rewrite (pnf_scalar_turn _ _ _ _ _ _ _ _ _ Ho Ht Hh).
  - rewrite Harr. unfold bind at 1.
    rewrite (ensure_then_append fields key (EStr value) d h Hd Hok Harr).
    reflexivity.
  - apply String.eqb_neq in Hv. now rewrite Hv.
Qed.

(** A nested occurrence of an array-valued key in the tag parser. *)
Lemma array_nested_turn f name fields key line rest h lg d :
  field_is_array key = true ->
  open_tag name line = Some (key, "") ->
  nth_error h fields = Some d -> dict_ok d ->
  process_nested_fields (S f) name fields (mkState h (line :: rest) lg)
  = bind (process_nested_fields f key (length h))
      (fun _ => process_nested_fields f name fields)
      (mkState (store_set fields
                  (dict_set key (VList (items_of key d ++ [ERef (length h)])) d) h
                ++ [[]]) rest lg).
Proof.
  intros Harr Ho Hd Hok.
  destruct (array_key_plain key Harr) as (Ht & Hh & Hf).
  rewrite (pnf_nested_turn _ _ _ _ _ _ _ _ Ho Ht Hh Hf).
  rewrite Harr. unfold bind at 1.
  rewrite (ensure_new_append _ fields key d h Hd Hok Harr).
  reflexivity.
Qed.

(** [n] scalar occurrences in a row. *)
Lemma array_scalar_run f name fields key lines vs :
  field_is_array key = true ->
  Forall2 (fun line v => open_tag name line = Some (key, v) /\ v <> "") lines vs ->
  forall h lg d rest,
  nth_error h fields = Some d -> dict_ok d ->
  exists d',
    process_nested_fields (length lines + f) name fields (mkState h (lines ++ rest) lg)
    = process_nested_fields f name fields (mkState (store_set fields d' h) rest lg)
    /\ dict_ok d'
    /\ items_of key d' = items_of key d ++ map EStr vs
    /\ forall k, k <> key -> dict_get k d' = dict_get k d.
Proof.
  intros Harr Hall.
  induction Hall as [|line v lines vs [Ho Hv] _ IH]; intros h lg d rest Hd Hok.
  - exists d. simpl. rewrite (store_set_same _ _ _ Hd), app_nil_r. auto.
  - simpl length. simpl app. simpl plus.
    rewrite (array_scalar_turn _ _ _ _ _ _ _ _ _ _ Harr Ho Hv Hd Hok).
    set (d1 := dict_set key (VList (items_of key d ++ [EStr v])) d).
    assert (dict_ok d1) as Hok1 by (apply dict_ok_set; eauto).
    destruct (IH (store_set fields d1 h) lg d1 rest) as (d' & Hrun & Hok' & Hit & Hoth).
    { apply nth_error_store_set_eq. eapply nth_error_valid; eauto. }
    { exact Hok1. }
    exists d'. rewrite Hrun, store_set_twice.
    repeat split; auto.
    + rewrite Hit. unfold d1. rewrite items_of_set, <- app_assoc. reflexivity.
    + intros k Hk. rewrite Hoth by exact Hk. unfold d1.
      apply dict_get_set_neq. congruence.
Qed.

(** An occurrence of an array-valued canonical key in the header parser. *)
Lemma header_array_turn fields km label below h line rest lg d key :
  header_data line = true -> field_is_array key = true ->
  nth_error h fields = Some d -> dict_ok d ->
  (km_get (header_key line) km = Some (Plain key) ->
   header_iteration ((fields, km, label) :: below) (mkState h (line :: rest) lg)
   = Ok (Some ((fields, km, label) :: below))
       (mkState (store_set fields
                   (dict_set key
                      (VList (items_of key d ++ [EStr (header_value line)])) d) h)
          rest lg))
  /\
  (forall sub,
   km_get (header_key line) km = Some (Nested key sub) ->
   header_iteration ((fields, km, label) :: below) (mkState h (line :: rest) lg)
   = Ok (Some ((length h, sub, header_key line) :: (fields, km, label) :: below))
       (mkState (store_set fields
                   (dict_set key (VList (items_of key d ++ [ERef (length h)])) d) h
                 ++ [[]])
          rest lg)).
Proof.
  intros Hhd Harr Hd Hok. split.
  - intros Hk. rewrite header_lookup_turn by exact Hhd. rewrite Hk, Harr.
    rewrite <- bind_assoc. unfold bind at 1.
    rewrite (ensure_then_append fields key _ d h Hd Hok Harr). reflexivity.
  - intros sub Hk. rewrite header_lookup_turn by exact Hhd. rewrite Hk, Harr.
    rewrite (ensure_new_append _ fields key d h Hd Hok Harr). reflexivity.
Qed.

Lemma check_top_fields_heap nm fields expected (P : store -> Prop) st :
  P (heap st) ->
  wp (check_top_fields nm fields expected) (fun _ st' => P (heap st'))
     (fun _ st' => P (heap st')) st.
Proof.
  revert st. induction expected as [|field more IH]; intros st HP; simpl.
  - exact HP.
  - wp_walk; try exact HP; apply IH; exact HP.
Qed.

Lemma deserialize_body_arrays_ok fuel nm st :
  arrays_ok (heap st) ->
  wp (deserialize_body fuel nm) (fun _ st' => arrays_ok (heap st'))
     (fun _ st' => arrays_ok (heap st')) st.
Proof.
  intros Hok. unfold deserialize_body.
  wp_walk; try solve_ok.
  all: eapply wp_conseq;
         [apply process_nested_fields_arrays_ok; solve_ok
         | cbv beta; intros ? ? ? | auto].
  all: wp_walk.
  all: eapply wp_conseq;
         [apply (check_top_fields_heap _ _ _ arrays_ok); eassumption
         | cbv beta; intros ? ? ? | auto].
  all: wp_walk; assumption.
Qed.

(** Every record of the tree [deserialize] returns has lists under its
    array-valued keys. *)
Lemma deserialize_arrays_ok fuel input r st :
  deserialize fuel input = Ok r st -> arrays_ok (heap st).
Proof.
  unfold deserialize, logged. intros H.
  pose proof (deserialize_body_arrays_ok fuel (io_name input)
                (mkState [] (io_lines input) []) (Forall_nil _)) as W.
  unfold wp in W.
  destruct (deserialize_body fuel (io_name input) (mkState [] (io_lines input) []));
    inversion H; subst. exact W.
Qed.

(* ================================================================== *)
(** ** Keys that are not array-valued *)

Lemma run_reject_present {A} (k : unit -> M A) fields key d st :
  nth_error (heap st) fields = Some d -> dict_mem key d = true ->
  bind (reject_duplicate fields key) k st = Raise (DuplicateKey key) st.
Proof.
  intros Hd Hm. unfold reject_duplicate. rewrite bind_assoc.
  rewrite (run_get_dict _ fields d) by exact Hd. rewrite Hm. reflexivity.
Qed.

Lemma run_reject_absent {A} (k : unit -> M A) fields key d st :
  nth_error (heap st) fields = Some d -> dict_mem key d = false ->
  bind (reject_duplicate fields key) k st = k tt st.
Proof.
  intros Hd Hm. unfold reject_duplicate. rewrite bind_assoc.
  rewrite (run_get_dict _ fields d) by exact Hd. rewrite Hm. reflexivity.
Qed.

(** A key already in the record is rejected by the tag parser. *)
Lemma duplicate_rejected f name fields key value line rest h lg d :
  field_is_array key = false -> key <> "TEXT" -> key <> "SEC-HEADER" ->
  open_tag name line = Some (key, value) ->
  nth_error h fields = Some d -> dict_mem key d = true ->
  process_nested_fields (S f) name fields (mkState h (line :: rest) lg)
  = Raise (DuplicateKey key) (mkState h rest lg).
Proof.
  intros Harr Ht Hh Ho Hd Hm.
  destruct ((value =? "") && negb (str_in key scalar_flags)) eqn:Hn.
  - apply andb_true_iff in Hn as [Hv Hf].
    apply String.eqb_eq in Hv. subst value. apply negb_true_iff in Hf.
    rewrite (pnf_nested_turn _ _ _ _ _ _ _ _ Ho Ht Hh Hf), Harr.
    unfold bind at 1.
    rewrite (run_reject_present _ fields key d) by assumption. reflexivity.
  - rewrite (pnf_scalar_turn _ _ _ _ _ _ _ _ _ Ho Ht Hh Hn), Harr.
    unfold bind at 1.
    rewrite (run_reject_present _ fields key d) by assumption. reflexivity.
Qed.

(** The first scalar occurrence of such a key stores it. *)
Lemma single_scalar_turn f name fields key value line rest h lg d :
  field_is_array key = false -> key <> "TEXT" -> key <> "SEC-HEADER" ->
  open_tag name line = Some (key, value) ->
  (value =? "") && negb (str_in key scalar_flags) = false ->
  nth_error h fields = Some d -> dict_mem key d = false ->
  process_nested_fields (S f) name fields (mkState h (line :: rest) lg)
  = process_nested_fields f name fields
      (mkState (store_set fields (dict_set key (VStr value) d) h) rest lg).
Proof.
  intros Harr Ht Hh Ho Hn Hd Hm.
  rewrite (pnf_scalar_turn _ _ _ _ _ _ _ _ _ Ho Ht Hh Hn), Harr.
  unfold bind at 1.
  rewrite (run_reject_absent _ fields key d) by assumption.
  pose proof (run_set_item (fun _ => ret tt) fields key (VStr value) d h rest lg Hd) as R.
  unfold bind in R. unfold ret in R.
  destruct (set_item fields key (VStr value) (mkState h rest lg)); inversion R; subst.
  reflexivity.
Qed.

(** The first nested occurrence of such a key attaches a new record and
    parses the block into it. *)
Lemma single_nested_turn f name fields key line rest h lg d :
  field_is_array key = false -> key <> "TEXT" -> key <> "SEC-HEADER" ->
  open_tag name line = Some (key, "") -> str_in key scalar_flags = false ->
  nth_error h fields = Some d -> dict_mem key d = false ->
  process_nested_fields (S f) name fields (mkState h (line :: rest) lg)
  = bind (process_nested_fields f key (length h))
      (fun _ => process_nested_fields f name fields)
      (mkState (store_set fields (dict_set key (VRef (length h)) d) h ++ [[]]) rest lg).
Proof.
  intros Harr Ht Hh Ho Hf Hd Hm.
  pose proof (nth_error_valid _ _ _ Hd) as Hlt.
  rewrite (pnf_nested_turn _ _ _ _ _ _ _ _ Ho Ht Hh Hf), Harr.
  unfold bind at 1.
  rewrite (run_reject_absent _ fields key d) by assumption.
  rewrite run_new_dict.
  rewrite (run_set_item _ fields key _ d)
    by (rewrite nth_error_app1 by exact Hlt; exact Hd).
  rewrite store_set_app by exact Hlt. reflexivity.
Qed.

(** The header parser warns and overwrites. *)
Lemma header_single_turn fields km label below h line rest lg d key :
  header_data line = true -> field_is_array key = false ->
  nth_error h fields = Some d ->
  let lg' := if dict_mem key d then lg ++ [WarnDuplicateKey key] else lg in
  (km_get (header_key line) km = Some (Plain key) ->
   header_iteration ((fields, km, label) :: below) (mkState h (line :: rest) lg)
   = Ok (Some ((fields, km, label) :: below))
       (mkState (store_set fields (dict_set key (VStr (header_value line)) d) h)
          rest lg'))
  /\
  (forall sub,
   km_get (header_key line) km = Some (Nested key sub) ->
   header_iteration ((fields, km, label) :: below) (mkState h (line :: rest) lg)
   = Ok (Some ((length h, sub, header_key line) :: (fields, km, label) :: below))
       (mkState (store_set fields (dict_set key (VRef (length h)) d) h ++ [[]])
          rest lg')).
Proof.
  intros Hhd Harr Hd lg'.
  pose proof (nth_error_valid _ _ _ Hd) as Hlt.
  split.
  - intros Hk. rewrite header_lookup_turn by exact Hhd. rewrite Hk, Harr.
    unfold warn_duplicate. rewrite bind_assoc.
    rewrite (run_get_dict _ fields d) by exact Hd.
    unfold lg'. destruct (dict_mem key d).
    + rewrite run_emit. rewrite (run_set_item _ fields _ _ d) by exact Hd.
      reflexivity.
    + rewrite bind_ret_l. rewrite (run_set_item _ fields _ _ d) by exact Hd.
      reflexivity.
  - intros sub Hk. rewrite header_lookup_turn by exact Hhd. rewrite Hk, Harr.
    unfold warn_duplicate. rewrite bind_assoc.
    rewrite (run_get_dict _ fields d) by exact Hd.
    unfold lg'. destruct (dict_mem key d).
    + rewrite run_emit, run_new_dict.
      rewrite (run_set_item _ fields _ _ d)
        by (rewrite nth_error_app1 by exact Hlt; exact Hd).
      rewrite store_set_app by exact Hlt. reflexivity.
    + rewrite bind_ret_l, run_new_dict.
      rewrite (run_set_item _ fields _ _ d)
        by (rewrite nth_error_app1 by exact Hlt; exact Hd).
      rewrite store_set_app by exact Hlt. reflexivity.
Qed.

(** C3, on the code.  The claim fails for the keys [TEXT] and [SEC-HEADER],
    which are not array-valued: a second [TEXT] block replaces the first
    without an error, a second [SEC-HEADER] block is parsed like the
    first. *)
Lemma special_keys_repeat_without_error :
  field_is_array "TEXT" = false /\ field_is_array "SEC-HEADER" = false /\
  deserialize 8
    (mkIO (Some "filing.txt")
       [ ln "<SUBMISSION>"; ln "<TEXT>"; ln "first"; ln "</TEXT>";
         ln "<TEXT>"; ln "second"; ln "</TEXT>"; ln "</SUBMISSION>" ])
  = Ok 0 (mkState [[("TEXT", VStr (ln "second"))]] []
            [ WarnMissingTopField "DOCUMENT" "filing.txt";
              WarnMissingTopField "FILER" "filing.txt" ]) /\
  deserialize 8
    (mkIO (Some "filing.txt")
       [ ln "<SUBMISSION>"; ln "<SEC-HEADER>"; ln "</SEC-HEADER>";
         ln "<SEC-HEADER>"; ln "</SEC-HEADER>"; ln "</SUBMISSION>" ])
  = Ok 0 (mkState [[]] []
            [ WarnMissingTopField "DOCUMENT" "filing.txt";
              WarnMissingTopField "FILER" "filing.txt" ]).
Proof. repeat split; vm_compute; reflexivity. Qed.

(** C3, for the keys the attachment policy handles.  For a key that is not
    array-valued:
    - in the tag parser, when the key is neither [TEXT] nor [SEC-HEADER],
      a line with that key is rejected as a duplicate when the record
      already has the key; so is the second of two lines in a row of which
      the first stores a scalar, and so is the line met after the block of a
      first, nested occurrence;
    - in the header parser a line whose canonical key is already in the
      record logs a warning and the new value replaces the old one. *)
Theorem duplicate_key_policy key :
  field_is_array key = false ->
  (key <> "TEXT" -> key <> "SEC-HEADER" ->
   (forall f name fields value line rest h lg d,
      open_tag name line = Some (key, value) ->
      nth_error h fields = Some d -> dict_mem key d = true ->
      process_nested_fields (S f) name fields (mkState h (line :: rest) lg)
      = Raise (DuplicateKey key) (mkState h rest lg))
   /\
   (forall f name fields v1 v2 l1 l2 rest h lg d,
      open_tag name l1 = Some (key, v1) ->
      (v1 =? "") && negb (str_in key scalar_flags) = false ->
      open_tag name l2 = Some (key, v2) ->
      nth_error h fields = Some d -> dict_mem key d = false ->
      process_nested_fields (S (S f)) name fields (mkState h (l1 :: l2 :: rest) lg)
      = Raise (DuplicateKey key)
          (mkState (store_set fields (dict_set key (VStr v1) d) h) rest lg))
   /\
   (forall f name fields l1 l2 v2 rest rest2 h lg d st2,
      open_tag name l1 = Some (key, "") -> str_in key scalar_flags = false ->
      nth_error h fields = Some d -> dict_mem key d = false ->
      process_nested_fields (S f) key (length h)
        (mkState (store_set fields (dict_set key (VRef (length h)) d) h ++ [[]])
           rest lg) = Ok tt st2 ->
      reader st2 = l2 :: rest2 ->
      open_tag name l2 = Some (key, v2) ->
      process_nested_fields (S (S f)) name fields (mkState h (l1 :: rest) lg)
      = Raise (DuplicateKey key) (mkState (heap st2) rest2 (log st2))))
  /\
  (forall fields km label below h line rest lg d,
     header_data line = true ->
     nth_error h fields = Some d -> dict_mem key d = true ->
     (km_get (header_key line) km = Some (Plain key) ->
      let d' := dict_set key (VStr (header_value line)) d in
      header_iteration ((fields, km, label) :: below) (mkState h (line :: rest) lg)
      = Ok (Some ((fields, km, label) :: below))
          (mkState (store_set fields d' h) rest (lg ++ [WarnDuplicateKey key]))
      /\ dict_get key d' = Some (VStr (header_value line)))
     /\
     (forall sub,
      km_get (header_key line) km = Some (Nested key sub) ->
      let d' := dict_set key (VRef (length h)) d in
      header_iteration ((fields, km, label) :: below) (mkState h (line :: rest) lg)
      = Ok (Some ((length h, sub, header_key line) :: (fields, km, label) :: below))
          (mkState (store_set fields d' h ++ [[]]) rest
             (lg ++ [WarnDuplicateKey key]))
      /\ dict_get key d' = Some (VRef (length h)))).
Proof.
  intros Harr. split.
  - intros Ht Hh. repeat apply conj.
    + intros. eapply duplicate_rejected; eauto.
    + intros f name fields v1 v2 l1 l2 rest h lg d Ho1 Hn Ho2 Hd Hm.
      rewrite (single_scalar_turn _ _ _ _ _ _ _ _ _ _ Harr Ht Hh Ho1 Hn Hd Hm).
      eapply duplicate_rejected; eauto.
      * apply nth_error_store_set_eq. eapply nth_error_valid; eauto.
      * rewrite dict_mem_set, String.eqb_refl. reflexivity.
    + intros f name fields l1 l2 v2 rest rest2 h lg d st2 Ho1 Hf Hd Hm Hchild Hrd Ho2.
      pose proof (nth_error_valid _ _ _ Hd) as Hlt.
      rewrite (single_nested_turn _ _ _ _ _ _ _ _ _ Harr Ht Hh Ho1 Hf Hd Hm).
      unfold bind. rewrite Hchild.
      destruct st2 as [h2 rd2 lg2]. cbn [heap reader log] in *. subst rd2.
      eapply duplicate_rejected; eauto.
      * destruct (process_nested_fields_frame _ _ _ _ _ Hchild) as [_ Hsame].
        cbn [heap] in Hsame. rewrite Hsame.
        -- rewrite nth_error_app1 by (now rewrite length_store_set).
           now apply nth_error_store_set_eq.
        -- rewrite length_app, length_store_set. lia.
        -- lia.
      * rewrite dict_mem_set, String.eqb_refl. reflexivity.
  - intros fields km label below h line rest lg d Hhd Hd Hm.
    destruct (header_single_turn fields km label below h line rest lg d key
                Hhd Harr Hd) as [Hp Hn].
    rewrite Hm in Hp, Hn. split.
    + intros Hk d'. split; [exact (Hp Hk) | apply dict_get_set_eq].
    + intros sub Hk d'. split; [exact (Hn sub Hk) | apply dict_get_set_eq].
Qed.

Lemma duplicate_key_policy_witness :
  process_nested_fields 2 "SUBMISSION" 0
    (mkState [[]] [ln "<TYPE>10-K"; ln "<TYPE>8-K"; ln "</SUBMISSION>"] [])
  = Raise (DuplicateKey "TYPE")
      (mkState [[("TYPE", VStr "10-K")]] [ln "</SUBMISSION>"] []).
Proof.
  refine (proj1 (proj2 (proj1 (duplicate_key_policy "TYPE" eq_refl) _ _))
            0 "SUBMISSION" 0 "10-K" "8-K" (ln "<TYPE>10-K") (ln "<TYPE>8-K")
            [ln "</SUBMISSION>"] [[]] [] [] eq_refl eq_refl eq_refl eq_refl eq_refl);
    discriminate.
Defined.

(* ================================================================== *)
(** ** Header lines without a colon *)

(** [line.split(':', 1)] has at least one part, so the test
    [len(parts) == 0] never holds: a line without a colon is the key, its
    value is empty, and when the key is not in the table the line is
    dropped without a warning. *)
Lemma line_without_colon fields km label below h line rest lg :
  header_data line = true -> has_char ":" line = false ->
  header_key line = strip line /\ header_value line = "" /\
  (km_get (strip line) km = None ->
   header_iteration ((fields, km, label) :: below) (mkState h (line :: rest) lg)
   = Ok (Some ((fields, km, label) :: below)) (mkState h rest lg)).
Proof.
  intros Hhd Hc.
  assert (header_key line = strip line) as Hk
    by (unfold header_key; now rewrite (split1_no_sep _ _ Hc)).
  assert (header_value line = "") as Hv
    by (unfold header_value; now rewrite (split1_no_sep _ _ Hc)).
  repeat split; try assumption.
  intros Hn. rewrite header_lookup_turn by exact Hhd.
  rewrite Hk, Hn, Hv. change ("" =? "") with true.
  rewrite orb_true_r. reflexivity.
Qed.

(** No run of [deserialize] raises the error of the missing colon. *)
Lemma missing_colon_never_raised fuel input l st :
  deserialize fuel input <> Raise (MissingColonDelimiter l) st.
Proof.
  destruct input as [nm lines]. rewrite deserialize_first_line.
  destruct (startswith "<SUBMISSION>" (hd "" lines)
            || startswith "<SEC-DOCUMENT>" (hd "" lines)); [|discriminate].
  pose proof (deserialize_after_marker fuel nm (mkState [] (tl lines) [])) as W.
  unfold wp in W. unfold logged.
  destruct ((fields <- new_dict;;
             process_nested_fields fuel "SUBMISSION" fields;;
             check_top_fields nm fields ["DOCUMENT"; "FILER"];; ret fields)
              (mkState [] (tl lines) [])); try discriminate.
  intros H. inversion H; subst. destruct W as [_ W]. now apply (W l).
Qed.

(** C5, on the code.  A header line that is not blank, is not the
    terminator, does not start with [<ACCEPTANCE-DATETIME>] and has no
    colon is accepted: the submission below is parsed to the end and
    nothing is stored for that line. *)
Theorem colonless_header_line_accepted :
  let line := ln "CONFORMED SUBMISSION TYPE 10-K" in
  has_char ":" line = false /\ header_data line = true /\
  deserialize 5
    (mkIO (Some "filing.txt")
       [ ln "<SUBMISSION>"; ln "<SEC-HEADER>"; line; ln "</SEC-HEADER>";
         ln "</SUBMISSION>" ])
  = Ok 0 (mkState [[]] []
            [ WarnMissingTopField "DOCUMENT" "filing.txt";
              WarnMissingTopField "FILER" "filing.txt" ]).
Proof. repeat split; vm_compute; reflexivity. Qed.

(* ================================================================== *)
(** ** Scenario A *)

(** Scenario A read from a stream that has a name: the record of the
    scenario, and the warning that [DOCUMENT] is missing. *)
Lemma scenario_A_named_stream nm k :
  deserialize (7 + k) (mkIO (Some nm) scenario_A)
  = Ok 0 (mkState
            [ [ ("ACCESSION-NUMBER", VStr "0000000000-24-000001");
                ("TYPE", VStr "10-K");
                ("FILER", VList [ERef 1]) ];
              [ ("COMPANY-DATA", VRef 2) ];
              [ ("CONFORMED-NAME", VStr "ACME CORP");
                ("CIK", VStr "0000000001") ] ]
            [] [WarnMissingTopField "DOCUMENT" nm])
  /\ view 3
       [ [ ("ACCESSION-NUMBER", VStr "0000000000-24-000001");
           ("TYPE", VStr "10-K");
           ("FILER", VList [ERef 1]) ];
         [ ("COMPANY-DATA", VRef 2) ];
         [ ("CONFORMED-NAME", VStr "ACME CORP");
           ("CIK", VStr "0000000001") ] ] 0
     = scenario_A_record.
Proof. split; vm_compute; reflexivity. Qed.

(** C1, on the code.  Scenario A read from an in-memory stream, which has
    no [name]: the record is built, then the warning about the missing
    [DOCUMENT] field evaluates [input.name] and [deserialize] raises. *)
Theorem scenario_A_nameless_stream k :
  deserialize (7 + k) (mkIO None scenario_A)
  = Raise (AttributeError "name")
      (mkState
         [ [ ("ACCESSION-NUMBER", VStr "0000000000-24-000001");
             ("TYPE", VStr "10-K");
             ("FILER", VList [ERef 1]) ];
           [ ("COMPANY-DATA", VRef 2) ];
           [ ("CONFORMED-NAME", VStr "ACME CORP");
             ("CIK", VStr "0000000001") ] ]
         [] [ErrorProcessing (AttributeError "name")]).
Proof. vm_compute. reflexivity. Qed.

Lemma scenario_A_lines :
  splitlines
    (ln "<SUBMISSION>" ++ ln "<ACCESSION-NUMBER>0000000000-24-000001"
     ++ ln "<TYPE>10-K" ++ ln "<FILER>" ++ ln "<COMPANY-DATA>"
     ++ ln "<CONFORMED-NAME>ACME CORP" ++ ln "<CIK>0000000001"
     ++ ln "</COMPANY-DATA>" ++ ln "</FILER>" ++ ln "</SUBMISSION>")%string
  = scenario_A.
Proof. vm_compute. reflexivity. Qed.

(* ================================================================== *)
(** ** Fuel *)

Lemma refines_refl {A} (m : M A) : refines m m.
Proof. intros st. now right. Qed.

Lemma refines_bind {A B} (m m' : M A) (k k' : A -> M B) :
  refines m m' -> (forall a, refines (k a) (k' a)) ->
  refines (bind m k) (bind m' k').
Proof.
  intros Hm Hk st. unfold bind.
  destruct (Hm st) as [-> | ->]; [now left|].
  destruct (m' st) as [a st'| |]; [apply Hk | now right | now right].
Qed.

Ltac refines_walk IH :=
  repeat first
    [ apply refines_refl
    | apply IH
    | apply refines_bind; [| intros ?]
    | match goal with
      | |- refines (if ?b then _ else _) (if ?b then _ else _) => destruct b
      | |- refines (match ?x with _ => _ end) (match ?x with _ => _ end) =>
          destruct x
      end ].

(** More fuel does not change a result. *)
Lemma header_loop_fuel f stack : refines (header_loop f stack) (header_loop (S f) stack).
Proof.
  revert stack. induction f as [|f IH]; intros [|fr stack].
  - apply refines_refl.
  - intros st. now left.
  - apply refines_refl.
  - change (refines
              (bind (header_iteration (fr :: stack))
                 (fun r => match r with
                           | None => ret tt
                           | Some stack' => header_loop f stack'
                           end))
              (bind (header_iteration (fr :: stack))
                 (fun r => match r with
                           | None => ret tt
                           | Some stack' => header_loop (S f) stack'
                           end))).
    refines_walk IH.
Qed.

Lemma process_nested_fields_fuel f name fields :
  refines (process_nested_fields f name fields)
          (process_nested_fields (S f) name fields).
Proof.
  revert name fields. induction f as [|f IH]; intros name fields.
  - intros st. now left.
  - remember (S f) as f1 eqn:Hf1.
    simpl process_nested_fields. subst f1.
    simpl process_nested_fields at 1.
    pose proof header_loop_fuel as HL.
    unfold processTxtHeader.
    refines_walk IH; apply HL.
Qed.

Lemma process_nested_fields_more_fuel f k name fields st :
  process_nested_fields f name fields st <> OutOfFuel ->
  process_nested_fields (k + f) name fields st
  = process_nested_fields f name fields st.
Proof.
  intros H. induction k as [|k IH]; [reflexivity|].
  simpl plus. destruct (process_nested_fields_fuel (k + f) name fields st) as [E|E].
  - rewrite IH in E. contradiction.
  - rewrite <- E. exact IH.
Qed.

(* ================================================================== *)
(** ** The header parser before the end of input *)

Lemma terminator_line line :
  startswith "</SEC-HEADER>" line = true ->
  (line =? "") || (strip line =? "") = false.
Proof.
  intros H. destruct (startswith_cons _ _ _ H) as (s1 & -> & _).
  apply orb_false_iff. split; [reflexivity|].
  apply String.eqb_neq. now apply strip_head_nonspace.
Qed.

Lemma total_bind {A B} (m : M A) (k : A -> M B) :
  total m -> (forall a, total (k a)) -> total (bind m k).
Proof.
  intros Hm Hk st. unfold bind. specialize (Hm st).
  destruct (m st); [apply Hk | discriminate | congruence].
Qed.

Lemma total_get_dict l : total (get_dict l).
Proof. intros st. unfold get_dict. destruct (nth_error (heap st) l); discriminate. Qed.

Lemma total_readline : total readline.
Proof. intros st. unfold readline. destruct (reader st); discriminate. Qed.

Ltac total_walk :=
  repeat first
    [ apply total_bind; [| intros ?]
    | apply total_get_dict
    | apply total_readline
    | match goal with
      | |- total (if ?b then _ else _) => destruct b
      | |- total (match ?x with _ => _ end) => destruct x
      | |- total (set_item _ _ _) => unfold set_item
      | |- total (ensure_list _ _) => unfold ensure_list
      | |- total (list_append _ _ _) => unfold list_append
      | |- total (warn_duplicate _ _) => unfold warn_duplicate
      | |- total _ => intros ?; discriminate
      end ].

(** A turn has a result or raises: it has no loop of its own. *)
Lemma header_iteration_total stack : total (header_iteration stack).
Proof.
  unfold header_iteration.
  destruct stack as [|[[fields km] label] below]; total_walk.
Qed.

(** A turn on a line consumes it; when the loop goes on, the stack is not
    empty and the line was not the terminator. *)
Lemma header_iteration_advance stack line rest h lg :
  stack <> [] ->
  wp (header_iteration stack)
     (fun res st' =>
        reader st' = rest /\
        forall stack', res = Some stack' ->
                       stack' <> [] /\ startswith "</SEC-HEADER>" line = false)
     (fun _ _ => True) (mkState h (line :: rest) lg).
Proof.
  intros Hne. unfold header_iteration.
  destruct stack as [|[[fields km] label] below]; [congruence|].
  apply wp_bind, wp_readline. cbn [reader heap log].
  destruct ((line =? "") || (strip line =? "")) eqn:Hblank; cbv iota.
  - assert (startswith "</SEC-HEADER>" line = false) as Hterm.
    { destruct (startswith "</SEC-HEADER>" line) eqn:E; [|reflexivity].
      apply terminator_line in E. congruence. }
    wp_walk; try exact I; (split; [reflexivity|]);
      intros stack' Hs; inversion Hs; subst; (split; [|exact Hterm]);
      try discriminate.
    match goal with
    | H : _ && _ = true |- _ => apply andb_true_iff in H as [_ H];
                                apply Nat.ltb_lt in H; simpl in H
    end.
    destruct stack'; simpl in *; [lia | discriminate].
  - wp_walk; try exact I; (split; [reflexivity|]);
      intros stack' Hs; inversion Hs; subst; (split; [discriminate | reflexivity]).
Qed.

(** The terminator ends the loop and is consumed. *)
Lemma header_loop_at_terminator f fr stack h line rest lg :
  startswith "</SEC-HEADER>" line = true ->
  header_loop (S f) (fr :: stack) (mkState h (line :: rest) lg)
  = Ok tt (mkState h rest lg).
Proof.
  intros Ht. rewrite header_loop_turn. unfold header_iteration.
  destruct fr as [[fields km] label]. unfold bind at 1.
  rewrite run_readline_cons, (terminator_line _ Ht), Ht. reflexivity.
Qed.

(** When a line that starts with [</SEC-HEADER>] is still to come, the
    loop ends, with as many turns as there are lines left at most. *)
Lemma header_loop_terminates lines :
  forall f stack h lg,
  Exists (fun l => startswith "</SEC-HEADER>" l = true) lines ->
  length lines <= f ->
  header_loop f stack (mkState h lines lg) <> OutOfFuel.
Proof.
  induction lines as [|line rest IH]; intros f stack h lg Hex Hf.
  - inversion Hex.
  - destruct stack as [|fr stack]; [destruct f; discriminate|].
    destruct f as [|f]; [simpl in Hf; lia|].
    rewrite header_loop_turn. unfold bind.
    pose proof (header_iteration_total (fr :: stack)
                  (mkState h (line :: rest) lg)) as Htot.
    unfold total in Htot.
    pose proof (header_iteration_advance (fr :: stack) line rest h lg
                  ltac:(discriminate)) as Hadv.
    unfold wp in Hadv.
    destruct (header_iteration (fr :: stack) (mkState h (line :: rest) lg))
      as [[stack'|] [h' rd' lg'] | |]; try discriminate; [|congruence].
    destruct Hadv as [Hrd Hs]. cbn [reader] in Hrd. subst rd'.
    destruct (Hs stack' eq_refl) as [_ Hterm].
    apply IH; [|simpl in Hf; lia].
    inversion Hex; subst; [congruence | assumption].
Qed.

(* ================================================================== *)
(** ** References stay in the store, [append] meets lists *)

Lemma wp_get_dict_valid l Q E st :
  l < length (heap st) ->
  (forall d, nth_error (heap st) l = Some d -> Q d st) ->
  wp (get_dict l) Q E st.
Proof.
  intros Hl HQ. unfold wp, get_dict.
  destruct (nth_error (heap st) l) eqn:Hd; [auto|].
  apply nth_error_None in Hd. lia.
Qed.

Lemma frames_valid_mono h h' stack :
  frames_valid h stack -> length h <= length h' -> frames_valid h' stack.
Proof.
  unfold frames_valid. intros H Hle. eapply Forall_impl; [|exact H].
  cbv beta. intros fr Hfr. lia.
Qed.

Create Rewrite HintDb store_len.
#[local] Hint Rewrite length_store_set length_app : store_len.

Ltac len :=
  simpl heap in *; autorewrite with store_len in *; simpl length in *; try lia.

Ltac wp_step_valid :=
  match goal with
  | |- wp (get_dict _) _ _ _ => apply wp_get_dict_valid; [len | intros ? ?]
  | _ => wp_step
  end.

Ltac wp_walk_valid := repeat (wp_step_valid; cbv beta).










(* ================================================================== *)
(** ** Malformed tag lines *)

Lemma startswith_first c p s :
  startswith (String c p) s = true -> startswith (String c "") s = true.
Proof.
  intros H. apply startswith_cons in H as (s' & -> & _).
  unfold startswith. now rewrite Ascii.eqb_refl.
Qed.

Lemma has_char_app c s t : has_char c (s ++ t) = has_char c s || has_char c t.
Proof.
  induction s as [|a s IH]; [reflexivity|].
  change ((String a s ++ t)%string) with (String a (s ++ t)%string).
  cbn [has_char]. now rewrite IH, orb_assoc.
Qed.

Lemma startswith_has_char c p s :
  startswith p s = true -> has_char c p = true -> has_char c s = true.
Proof.
  revert s. induction p as [|a p IH]; intros s Hs Hc; [discriminate|].
  apply startswith_cons in Hs as (s' & -> & Hs). cbn [has_char] in *.
  apply orb_true_iff in Hc as [Hc|Hc]; [now rewrite Hc|].
  rewrite (IH _ Hs Hc). apply orb_true_r.
Qed.

Lemma split1_with_sep sep s :
  has_char sep s = true -> exists a b, split1 sep s = [a; b].
Proof.
  unfold split1. intros H.
  assert (cut sep s <> None) as Hc.
  { induction s as [|c s IH]; [discriminate|]. cbn [has_char cut] in *.
    destruct (Ascii.eqb c sep); [discriminate|].
    cbn [orb] in H. specialize (IH H).
    destruct (cut sep s) as [[a b]|]; [discriminate | congruence]. }
  destruct (cut sep s) as [[a b]|]; [eauto | congruence].
Qed.

(** X1. A line that does not start with [<] is rejected by the tag parser
    with the error of the missing open bracket; the line is consumed and
    neither the store nor the log changes. *)
Theorem missing_open_bracket f name fields h line rest lg :
  line <> "" -> startswith "<" line = false ->
  process_nested_fields (S f) name fields (mkState h (line :: rest) lg)
  = Raise (MissingOpenBracket line) (mkState h rest lg).
Proof.
  intros Hne Hlt. apply String.eqb_neq in Hne.
  assert (startswith ("</" ++ name ++ ">")%string line = false) as H1.
  { destruct (startswith ("</" ++ name ++ ">")%string line) eqn:E; [|reflexivity].
    apply startswith_first in E. congruence. }
  assert (startswith "</SEC-DOCUMENT>" line = false) as H2.
  { destruct (startswith "</SEC-DOCUMENT>" line) eqn:E; [|reflexivity].
    apply startswith_first in E. congruence. }
  simpl. rewrite run_readline_cons, Hne, H1, H2, Hlt. reflexivity.
Qed.

Lemma missing_open_bracket_witness :
  process_nested_fields 1 "SUBMISSION" 0
    (mkState [[]] [ln "TYPE>10-K"; ln "</SUBMISSION>"] [])
  = Raise (MissingOpenBracket (ln "TYPE>10-K")) (mkState [[]] [ln "</SUBMISSION>"] []).
Proof.
  apply (missing_open_bracket 0 "SUBMISSION" 0 [[]] (ln "TYPE>10-K")
           [ln "</SUBMISSION>"] []).
  - discriminate.
  - reflexivity.
Defined.

(** X2. A line that starts with [<] and has no [>] is rejected by the tag
    parser with the error of the missing close bracket; the line is
    consumed and neither the store nor the log changes. *)
Theorem missing_close_bracket f name fields h line rest lg :
  startswith "<" line = true -> has_char ">" line = false ->
  process_nested_fields (S f) name fields (mkState h (line :: rest) lg)
  = Raise (MissingCloseBracket line) (mkState h rest lg).
Proof.
  intros Hlt Hgt.
  assert ((line =? "") = false) as Hne.
  { apply String.eqb_neq. eapply startswith_nonempty; eauto. discriminate. }
  assert (startswith ("</" ++ name ++ ">")%string line = false) as H1.
  { destruct (startswith ("</" ++ name ++ ">")%string line) eqn:E; [|reflexivity].
    apply (startswith_has_char ">") in E; [congruence|].
    rewrite !has_char_app. cbn. apply orb_true_r. }
  assert (startswith "</SEC-DOCUMENT>" line = false) as H2.
  { destruct (startswith "</SEC-DOCUMENT>" line) eqn:E; [|reflexivity].
    apply (startswith_has_char ">") in E; [congruence | reflexivity]. }
  simpl. rewrite run_readline_cons, Hne, H1, H2, Hlt, (split1_no_sep _ _ Hgt).
  reflexivity.
Qed.

Lemma missing_close_bracket_witness :
  process_nested_fields 1 "SUBMISSION" 0
    (mkState [[]] [ln "<TYPE 10-K"; ln "</SUBMISSION>"] [])
  = Raise (MissingCloseBracket (ln "<TYPE 10-K")) (mkState [[]] [ln "</SUBMISSION>"] []).
Proof.
  apply (missing_close_bracket 0 "SUBMISSION" 0 [[]] (ln "<TYPE 10-K")
           [ln "</SUBMISSION>"] []); reflexivity.
Defined.

(* ================================================================== *)
(** ** Blocks, flags and stray close tags *)

(** A line that starts with the close tag of the block, or with
    [</SEC-DOCUMENT>], ends the block. *)
Lemma pnf_close_turn f name fields h line rest lg :
  startswith ("</" ++ name ++ ">")%string line || startswith "</SEC-DOCUMENT>" line = true ->
  process_nested_fields (S f) name fields (mkState h (line :: rest) lg)
  = Ok tt (mkState h rest lg).
Proof.
  intros Hc.
  assert ((line =? "") = false) as Hne.
  { apply String.eqb_neq. apply orb_true_iff in Hc as [Hc|Hc];
      (eapply startswith_nonempty; [|exact Hc]); discriminate. }
  simpl. rewrite run_readline_cons, Hne, Hc. reflexivity.
Qed.

Lemma flag_key_plain key :
  str_in key scalar_flags = true ->
  field_is_array key = false /\ key <> "TEXT" /\ key <> "SEC-HEADER".
Proof.
  unfold scalar_flags. unfold str_in at 1. cbn [existsb]. intros H.
  repeat (apply orb_true_iff in H as [H|H];
          [apply String.eqb_eq in H; subst key;
           split; [reflexivity | split; discriminate] |]).
  discriminate.
Qed.

(** X4. A flag key ([ORGANIZATION-NAME], [CONFIRMING-COPY],
    [PRIVATE-TO-PUBLIC], [CORRECTION], [DELETION]) with an empty inline
    value opens no block: the empty string is stored under it, and a
    record that has the key already rejects the line as a duplicate. *)
Theorem empty_flag_is_scalar f name fields key line rest h lg d :
  str_in key scalar_flags = true ->
  open_tag name line = Some (key, "") ->
  nth_error h fields = Some d ->
  process_nested_fields (S f) name fields (mkState h (line :: rest) lg)
  = if dict_mem key d
    then Raise (DuplicateKey key) (mkState h rest lg)
    else process_nested_fields f name fields
           (mkState (store_set fields (dict_set key (VStr "") d) h) rest lg).
Proof.
  intros Hf Ho Hd. destruct (flag_key_plain key Hf) as (Harr & Ht & Hh).
  destruct (dict_mem key d) eqn:Hm.
  - eapply duplicate_rejected; eauto.
  - apply single_scalar_turn; auto. rewrite Hf. apply andb_false_r.
Qed.

Lemma empty_flag_is_scalar_witness :
  process_nested_fields 1 "SUBMISSION" 0
    (mkState [[]] [ln "<CORRECTION>"; ln "</SUBMISSION>"] [])
  = process_nested_fields 0 "SUBMISSION" 0
      (mkState [[("CORRECTION", VStr "")]] [ln "</SUBMISSION>"] []).
Proof.
  exact (empty_flag_is_scalar 0 "SUBMISSION" 0 "CORRECTION" (ln "<CORRECTION>")
           [ln "</SUBMISSION>"] [[]] [] [] eq_refl eq_refl eq_refl).
Defined.

Lemma strip_head c s :
  isspace c = false -> strip (String c s) = String c (rstrip s).
Proof. intros H. unfold strip. simpl. rewrite H. simpl. now rewrite H. Qed.

Lemma cut_after sep c s :
  Ascii.eqb c sep = false ->
  cut sep (String c s)
  = match cut sep s with Some (a, b) => Some (String c a, b) | None => None end.
Proof. intros H. simpl. now rewrite H. Qed.

Lemma slash_key_plain key :
  startswith "/" key = true ->
  field_is_array key = false /\ key <> "TEXT" /\ key <> "SEC-HEADER"
  /\ str_in key scalar_flags = false.
Proof.
  intros Hs. repeat split.
  - destruct (field_is_array key) eqn:E; [|reflexivity].
    unfold field_is_array in E. unfold str_in in E. cbn [existsb] in E.
    repeat (apply orb_true_iff in E as [E|E];
            [apply String.eqb_eq in E; subst key; discriminate Hs |]).
    discriminate.
  - intros ->. discriminate.
  - intros ->. discriminate.
  - destruct (str_in key scalar_flags) eqn:E; [|reflexivity].
    unfold scalar_flags in E. unfold str_in in E. cbn [existsb] in E.
    repeat (apply orb_true_iff in E as [E|E];
            [apply String.eqb_eq in E; subst key; discriminate Hs |]).
    discriminate.
Qed.

(* ================================================================== *)
(** ** The check of the expected top-level fields *)

Lemma check_top_fields_named nm fields expected h rd lg d :
  nth_error h fields = Some d ->
  check_top_fields (Some nm) fields expected (mkState h rd lg)
  = Ok tt (mkState h rd
             (lg ++ map (fun field => WarnMissingTopField field nm)
                      (filter (fun field => negb (dict_mem field d)) expected))).
Proof.
  intros Hd. revert lg. induction expected as [|field more IH]; intros lg.
  - simpl. now rewrite app_nil_r.
  - cbn [check_top_fields filter].
    rewrite (run_get_dict _ fields d) by exact Hd.
    destruct (dict_mem field d); cbn [negb map].
    + rewrite bind_ret_l. apply IH.
    + rewrite run_emit, IH, <- app_assoc. reflexivity.
Qed.

Lemma check_top_fields_nameless fields expected h rd lg d :
  nth_error h fields = Some d ->
  check_top_fields None fields expected (mkState h rd lg)
  = if forallb (fun field => dict_mem field d) expected
    then Ok tt (mkState h rd lg)
    else Raise (AttributeError "name") (mkState h rd lg).
Proof.
  intros Hd. induction expected as [|field more IH].
  - reflexivity.
  - cbn [check_top_fields forallb].
    rewrite (run_get_dict _ fields d) by exact Hd.
    destruct (dict_mem field d); cbn [andb].
    + rewrite bind_ret_l. apply IH.
    + reflexivity.
Qed.

(** [deserialize] once the tag parser has returned. *)
Lemma deserialize_after_parse fuel nm lines st1 :
  startswith "<SUBMISSION>" (hd "" lines)
  || startswith "<SEC-DOCUMENT>" (hd "" lines) = true ->
  process_nested_fields fuel "SUBMISSION" 0 (mkState [[]] (tl lines) []) = Ok tt st1 ->
  exists d,
    nth_error (heap st1) 0 = Some d /\
    deserialize fuel (mkIO nm lines)
    = logged (check_top_fields nm 0 ["DOCUMENT"; "FILER"] ;; ret 0) st1.
Proof.
  intros Hacc Hrun.
  destruct (process_nested_fields_frame _ _ _ _ _ Hrun) as [Hlen _].
  cbn [heap length] in Hlen.
  destruct (nth_error (heap st1) 0) as [d|] eqn:Hd;
    [|apply nth_error_None in Hd; lia].
  exists d. split; [reflexivity|].
  rewrite deserialize_first_line, Hacc. unfold logged.
  rewrite run_new_dict. cbn [length app]. unfold bind at 1. rewrite Hrun.
  reflexivity.
Qed.

(** X5. On a stream that has a name, when [deserialize] returns it
    returns the record the tag parser filled (the first one of the store,
    unchanged by the check), and the log of the parse is followed by one
    warning for each of [DOCUMENT], [FILER] that the record lacks, in that
    order, and by nothing else. *)
Theorem missing_top_fields_warned fuel nm lines r st :
  deserialize fuel (mkIO (Some nm) lines) = Ok r st ->
  exists st1 d,
    process_nested_fields fuel "SUBMISSION" 0 (mkState [[]] (tl lines) []) = Ok tt st1
    /\ r = 0 /\ heap st = heap st1 /\ reader st = reader st1
    /\ nth_error (heap st) 0 = Some d
    /\ log st = log st1
                ++ map (fun field => WarnMissingTopField field nm)
                     (filter (fun field => negb (dict_mem field d))
                        ["DOCUMENT"; "FILER"]).
Proof.
  intros H.
  destruct (startswith "<SUBMISSION>" (hd "" lines)
            || startswith "<SEC-DOCUMENT>" (hd "" lines)) eqn:Hacc.
  2:{ rewrite deserialize_first_line, Hacc in H. discriminate. }
  destruct (process_nested_fields fuel "SUBMISSION" 0 (mkState [[]] (tl lines) []))
    as [[] st1| |] eqn:Hrun.
  - destruct (deserialize_after_parse fuel (Some nm) lines st1 Hacc Hrun)
      as (d & Hd & Heq).
    rewrite Heq in H. unfold logged, bind in H.
    destruct st1 as [h1 rd1 lg1]. cbn [heap] in Hd.
    rewrite (check_top_fields_named nm 0 _ h1 rd1 lg1 d Hd) in H.
    unfold ret in H. inversion H; subst.
    exists (mkState h1 rd1 lg1), d. repeat split; assumption.
  - rewrite deserialize_first_line, Hacc in H. unfold logged in H.
    rewrite run_new_dict in H. cbn [length app] in H. unfold bind in H.
    rewrite Hrun in H. discriminate.
  - rewrite deserialize_first_line, Hacc in H. unfold logged in H.
    rewrite run_new_dict in H. cbn [length app] in H. unfold bind in H.
    rewrite Hrun in H. discriminate.
Qed.

Lemma missing_top_fields_warned_witness :
  exists st1 d,
    process_nested_fields 3 "SUBMISSION" 0
      (mkState [[]] (tl [ln "<SUBMISSION>"; ln "<TYPE>10-K"; ln "</SUBMISSION>"]) [])
    = Ok tt st1
    /\ 0 = 0 /\ [[("TYPE", VStr "10-K")]] = heap st1 /\ [] = reader st1
    /\ nth_error [[("TYPE", VStr "10-K")]] 0 = Some d
    /\ [ WarnMissingTopField "DOCUMENT" "filing.txt";
         WarnMissingTopField "FILER" "filing.txt" ]
       = log st1
         ++ map (fun field => WarnMissingTopField field "filing.txt")
              (filter (fun field => negb (dict_mem field d)) ["DOCUMENT"; "FILER"]).
Proof.
  exact (missing_top_fields_warned 3 "filing.txt"
           [ln "<SUBMISSION>"; ln "<TYPE>10-K"; ln "</SUBMISSION>"] 0
           (mkState [[("TYPE", VStr "10-K")]] []
              [ WarnMissingTopField "DOCUMENT" "filing.txt";
                WarnMissingTopField "FILER" "filing.txt" ])
           eq_refl).
Defined.

(** X6. On a stream that has no [name], [deserialize] returns only a
    record that has both [DOCUMENT] and [FILER]: when the tag parser
    returns a record that lacks one of them, the warning cannot be
    formatted and [deserialize] raises [AttributeError], logged like any
    other error. *)
Theorem nameless_stream_needs_both_fields fuel lines st1 :
  startswith "<SUBMISSION>" (hd "" lines)
  || startswith "<SEC-DOCUMENT>" (hd "" lines) = true ->
  process_nested_fields fuel "SUBMISSION" 0 (mkState [[]] (tl lines) []) = Ok tt st1 ->
  exists d,
    nth_error (heap st1) 0 = Some d /\
    deserialize fuel (mkIO None lines)
    = if dict_mem "DOCUMENT" d && dict_mem "FILER" d
      then Ok 0 st1
      else Raise (AttributeError "name")
             (mkState (heap st1) (reader st1)
                (log st1 ++ [ErrorProcessing (AttributeError "name")])).
Proof.
  intros Hacc Hrun.
  destruct (deserialize_after_parse fuel None lines st1 Hacc Hrun) as (d & Hd & Heq).
  exists d. split; [exact Hd|]. rewrite Heq. unfold logged, bind.
  destruct st1 as [h1 rd1 lg1]. cbn [heap reader log] in *.
  rewrite (check_top_fields_nameless 0 _ h1 rd1 lg1 d Hd).
  cbn [forallb]. rewrite andb_true_r.
  destruct (dict_mem "DOCUMENT" d && dict_mem "FILER" d); reflexivity.
Qed.

Lemma nameless_stream_needs_both_fields_witness :
  exists d,
    nth_error [[("DOCUMENT", VList [EStr "a"]); ("FILER", VList [EStr "b"])]] 0 = Some d /\
    deserialize 4
      (mkIO None [ln "<SUBMISSION>"; ln "<DOCUMENT>a"; ln "<FILER>b"; ln "</SUBMISSION>"])
    = if dict_mem "DOCUMENT" d && dict_mem "FILER" d
      then Ok 0 (mkState [[("DOCUMENT", VList [EStr "a"]); ("FILER", VList [EStr "b"])]]
                   [] [])
      else Raise (AttributeError "name")
             (mkState [[("DOCUMENT", VList [EStr "a"]); ("FILER", VList [EStr "b"])]] []
                ([] ++ [ErrorProcessing (AttributeError "name")])).
Proof.
  exact (nameless_stream_needs_both_fields 4
           [ln "<SUBMISSION>"; ln "<DOCUMENT>a"; ln "<FILER>b"; ln "</SUBMISSION>"]
           (mkState [[("DOCUMENT", VList [EStr "a"]); ("FILER", VList [EStr "b"])]] [] [])
           eq_refl eq_refl).
Defined.

(* ================================================================== *)
(** ** What a run leaves alone *)

(** X9. Ownership: whether it returns or raises, a run of the tag parser,
    and a run of the header parser, on the record [fields] leaves every
    other record that was in the store as it was; all it changes is
    [fields] and the records it creates. *)
Theorem parsers_write_own_record f name fields st :
  (forall st', process_nested_fields f name fields st = Ok tt st'
               \/ (exists e, process_nested_fields f name fields st = Raise e st') ->
               touches_only fields (heap st) (heap st'))
  /\
  (forall st', processTxtHeader f fields st = Ok tt st'
               \/ (exists e, processTxtHeader f fields st = Raise e st') ->
               touches_only fields (heap st) (heap st')).
Proof.
  split; intros st' H.
  - pose proof (process_nested_fields_touches f name fields (heap st) st
                  (touches_only_refl _ _)) as W.
    unfold wp in W. destruct H as [H | [e H]]; rewrite H in W; exact W.
  - pose proof (header_loop_touches f fields (heap st) [(fields, KEY_MAP, "")] st) as W.
    unfold processTxtHeader in H. unfold wp in W.
    assert (frames_in fields (length (heap st)) [(fields, KEY_MAP, "")]) as Hfr
      by (repeat constructor).
    specialize (W Hfr (touches_only_refl _ _)).
    destruct H as [H | [e H]]; rewrite H in W; exact W.
Qed.

Lemma parsers_write_own_record_witness :
  touches_only 1 [[("TYPE", VStr "10-K")]; []]
    [[("TYPE", VStr "10-K")]; [("CIK", VStr "0000000001")]].
Proof.
  apply (proj1 (parsers_write_own_record 2 "FILER" 1
                  (mkState [[("TYPE", VStr "10-K")]; []]
                     [ln "<CIK>0000000001"; ln "</FILER>"] []))
           (mkState [[("TYPE", VStr "10-K")]; [("CIK", VStr "0000000001")]] [] [])).
  left. reflexivity.
Defined.


(* ================================================================== *)
(** ** The stream is read forward, the log is added to *)

Lemma advances_refl st : advances st st.
Proof.
  split; [exists []; reflexivity | exists []; now rewrite app_nil_r].
Qed.

Lemma advances_trans st0 st1 st2 :
  advances st0 st1 -> advances st1 st2 -> advances st0 st2.
Proof.
  intros [[r1 Hr1] [a1 Ha1]] [[r2 Hr2] [a2 Ha2]]. split.
  - exists (r1 ++ r2). now rewrite Hr1, Hr2, app_assoc.
  - exists (a1 ++ a2). now rewrite Ha2, Ha1, app_assoc.
Qed.

Lemma advances_mk st0 st h rd lg :
  advances st0 st ->
  (exists r, reader st = r ++ rd) -> (exists a, lg = log st ++ a) ->
  advances st0 (mkState h rd lg).
Proof.
  intros Hadv Hr Ha. eapply advances_trans; [exact Hadv|].
  split; cbn [reader log]; assumption.
Qed.

Lemma text_loop_suffix content lines content' rest :
  text_loop content lines = Some (content', rest) ->
  exists read, lines = read ++ rest.
Proof.
  revert content. induction lines as [|l lines IH]; intros content H;
    [discriminate|].
  cbn [text_loop] in H.
  destruct (l =? ""); [discriminate|].
  destruct (startswith "</TEXT>" l).
  - inversion H; subst. now exists [l].
  - destruct (IH _ H) as [read ->]. now exists (l :: read).
Qed.

Lemma wp_read_text_suffix r key Q E st :
  E UnterminatedRawBlock (mkState (heap st) [] (log st)) ->
  (forall content read rest,
     reader st = read ++ rest ->
     wp (set_item r key (VStr (join content))) Q E (mkState (heap st) rest (log st))) ->
  wp (read_text r key) Q E st.
Proof.
  intros HE HQ. unfold wp at 1. unfold read_text.
  destruct (text_loop [] (reader st)) as [[content rest]|] eqn:Ht; [|exact HE].
  destruct (text_loop_suffix _ _ _ _ Ht) as [read Hread].
  exact (HQ content read rest Hread).
Qed.

Ltac wp_step_adv :=
  match goal with
  | |- wp (read_text _ _) _ _ _ => apply wp_read_text_suffix; [| intros ? ? ? ?]
  | _ => wp_step
  end.

Ltac wp_walk_adv := repeat (wp_step_adv; cbv beta).

Ltac solve_read :=
  cbn [heap reader log] in *;
  first
    [ exists []; reflexivity
    | match goal with
      | H : reader ?st = ?s :: ?l |- exists r, reader ?st = r ++ ?l =>
          exists [s]; exact H
      | H : reader ?st = ?s :: ?l, H' : ?l = ?read ++ ?rest
        |- exists r, reader ?st = r ++ ?rest =>
          exists (s :: read); rewrite H, H'; reflexivity
      | H : reader ?st = [] |- exists r, reader ?st = r ++ [] =>
          exists []; exact H
      | |- exists r, reader ?st = r ++ [] =>
          exists (reader st); now rewrite app_nil_r
      end ].

Ltac solve_logged :=
  cbn [heap reader log] in *;
  first [ exists []; now rewrite app_nil_r | eexists; reflexivity ].

Ltac solve_adv :=
  cbn [heap reader log] in *;
  match goal with
  | H : advances ?a ?x |- advances ?a (mkState _ _ _) =>
      apply (advances_mk a x); [exact H | solve_read | solve_logged]
  | H : advances ?a ?x |- advances ?a ?x => exact H
  end.

Lemma header_iteration_advances st0 stack st :
  advances st0 st ->
  wp (header_iteration stack) (fun _ st' => advances st0 st')
     (fun _ st' => advances st0 st') st.
Proof.
  intros Hadv. unfold header_iteration.
  destruct stack as [|[[fields km] label] below].
  - wp_walk. exact Hadv.
  - wp_walk_adv; solve_adv.
Qed.

Lemma header_loop_advances f st0 stack st :
  advances st0 st ->
  wp (header_loop f stack) (fun _ st' => advances st0 st')
     (fun _ st' => advances st0 st') st.
Proof.
  revert stack st. induction f as [|f IH]; intros [|fr stack] st Hadv;
    try exact I; try exact Hadv.
  header_loop_step f fr stack.
  apply wp_bind.
  eapply wp_conseq; [apply header_iteration_advances; exact Hadv | | auto].
  cbv beta. intros [stack'|] st' Hadv'; [apply IH | ]; exact Hadv'.
Qed.

Lemma process_nested_fields_advances f st0 name fields st :
  advances st0 st ->
  wp (process_nested_fields f name fields) (fun _ st' => advances st0 st')
     (fun _ st' => advances st0 st') st.
Proof.
  revert name fields st. induction f as [|f IH]; intros name fields st Hadv;
    [exact I|].
  simpl process_nested_fields.
  wp_walk_adv;
    repeat first
      [ absurd_eof
      | solve_adv
      | apply IH
      | eapply wp_conseq;
          [apply (header_loop_advances f st0) | cbv beta; intros ? ? ? | auto]
      | eapply wp_conseq; [apply (IH) | cbv beta; intros ? ? ? | auto] ].
Qed.

(** X12. Whether it returns or raises, a run of the tag parser, and a run
    of the header parser, reads the stream forward and only adds to the
    log: the lines left are a suffix of the lines it was given, and the
    log it was given is a prefix of the log it leaves. *)
Theorem parsers_advance f name fields st :
  (forall st', process_nested_fields f name fields st = Ok tt st'
               \/ (exists e, process_nested_fields f name fields st = Raise e st') ->
               advances st st')
  /\
  (forall st', processTxtHeader f fields st = Ok tt st'
               \/ (exists e, processTxtHeader f fields st = Raise e st') ->
               advances st st').
Proof.
  split; intros st' H.
  - pose proof (process_nested_fields_advances f st name fields st
                  (advances_refl _)) as W.
    unfold wp in W. destruct H as [H | [e H]]; rewrite H in W; exact W.
  - pose proof (header_loop_advances f st [(fields, KEY_MAP, "")] st
                  (advances_refl _)) as W.
    unfold processTxtHeader in H. unfold wp in W.
    destruct H as [H | [e H]]; rewrite H in W; exact W.
Qed.

Lemma parsers_advance_witness :
  advances
    (mkState [[]] [ln "<TYPE>10-K"; ln "<TYPE>8-K"; ln "</SUBMISSION>"] [])
    (mkState [[("TYPE", VStr "10-K")]] [ln "</SUBMISSION>"] []).
Proof.
  apply (proj1 (parsers_advance 2 "SUBMISSION" 0
                  (mkState [[]] [ln "<TYPE>10-K"; ln "<TYPE>8-K"; ln "</SUBMISSION>"] []))
           (mkState [[("TYPE", VStr "10-K")]] [ln "</SUBMISSION>"] [])).
  right. exists (DuplicateKey "TYPE"). reflexivity.
Defined.

(* ================================================================== *)
(** ** Termination *)

Lemma twp_ret {A} (a : A) (Q : A -> state -> Prop) st : Q a st -> twp (ret a) Q st.
Proof. exact (fun H => H). Qed.

Lemma twp_raise {A} e (Q : A -> state -> Prop) st : twp (raise e) Q st.
Proof. exact I. Qed.

Lemma twp_bind {A B} (m : M A) (k : A -> M B) Q st :
  twp m (fun a st' => twp (k a) Q st') st -> twp (bind m k) Q st.
Proof. unfold twp, bind. destruct (m st); auto. Qed.

Lemma twp_conseq {A} (m : M A) (Q Q' : A -> state -> Prop) st :
  twp m Q st -> (forall a st', Q a st' -> Q' a st') -> twp m Q' st.
Proof. unfold twp. destruct (m st); auto. Qed.

Lemma twp_of_wp {A} (m : M A) (Q : A -> state -> Prop) E st :
  m st <> OutOfFuel -> wp m Q E st -> twp m Q st.
Proof. unfold twp, wp. destruct (m st); auto. Qed.

Lemma twp_readline Q st :
  match reader st with
  | [] => Q "" st
  | l :: rest => Q l (mkState (heap st) rest (log st))
  end -> twp readline Q st.
Proof. unfold twp, readline. destruct (reader st); auto. Qed.

Lemma twp_emit w Q st :
  Q tt (mkState (heap st) (reader st) (log st ++ [w])) -> twp (emit w) Q st.
Proof. exact (fun H => H). Qed.

Lemma twp_get_dict l Q st :
  (forall d, nth_error (heap st) l = Some d -> Q d st) -> twp (get_dict l) Q st.
Proof. unfold twp, get_dict. destruct (nth_error (heap st) l); auto. Qed.

Lemma twp_put_dict l d Q st :
  Q tt (mkState (store_set l d (heap st)) (reader st) (log st)) ->
  twp (put_dict l d) Q st.
Proof. exact (fun H => H). Qed.

Lemma twp_new_dict Q st :
  Q (length (heap st)) (mkState (heap st ++ [[]]) (reader st) (log st)) ->
  twp new_dict Q st.
Proof. exact (fun H => H). Qed.

Lemma twp_read_text r key Q st :
  (forall content read rest,
     reader st = read ++ rest ->
     twp (set_item r key (VStr (join content))) Q (mkState (heap st) rest (log st))) ->
  twp (read_text r key) Q st.
Proof.
  intros HQ. unfold twp at 1. unfold read_text.
  destruct (text_loop [] (reader st)) as [[content rest]|] eqn:Ht; [|exact I].
  destruct (text_loop_suffix _ _ _ _ Ht) as [read Hread].
  exact (HQ content read rest Hread).
Qed.

Ltac twp_step :=
  match goal with
  | |- twp (bind _ _) _ _ => apply twp_bind
  | |- twp (ret _) _ _ => apply twp_ret
  | |- twp (raise _) _ _ => apply twp_raise
  | |- twp (emit _) _ _ => apply twp_emit
  | |- twp (put_dict _ _) _ _ => apply twp_put_dict
  | |- twp new_dict _ _ => apply twp_new_dict
  | |- twp readline _ _ => apply twp_readline
  | |- twp (get_dict _) _ _ => apply twp_get_dict; intros ? ?
  | |- twp (read_text _ _) _ _ => apply twp_read_text; intros ? ? ? ?
  | |- twp (set_item _ _ _) _ _ => unfold set_item
  | |- twp (ensure_list _ _) _ _ => unfold ensure_list
  | |- twp (list_append _ _ _) _ _ => unfold list_append
  | |- twp (reject_duplicate _ _) _ _ => unfold reject_duplicate
  | |- twp (warn_duplicate _ _) _ _ => unfold warn_duplicate
  | |- twp (if ?b then _ else _) _ _ => destruct b eqn:?
  | |- twp (match ?x with _ => _ end) _ _ => destruct x eqn:?
  | |- match reader ?st with _ => _ end => destruct (reader st) eqn:?
  end.

Ltac twp_walk := repeat (twp_step; cbv beta).

Lemma headers_closed_app read rest :
  headers_closed (read ++ rest) = true -> headers_closed rest = true.
Proof.
  induction read as [|l read IH]; [auto|].
  cbn [app headers_closed]. intros H. apply andb_true_iff in H as [_ H]. auto.
Qed.

Lemma headers_closed_after line rest :
  headers_closed (line :: rest) = true -> (tag_key line =? "SEC-HEADER") = true ->
  Exists (fun l => startswith "</SEC-HEADER>" l = true) rest.
Proof.
  cbn [headers_closed]. intros H Hk. rewrite Hk in H.
  apply andb_true_iff in H as [H _]. apply existsb_exists in H as (l & Hin & Hl).
  apply Exists_exists. eauto.
Qed.

(** The header parser returns or raises when the terminator is ahead, and
    has then read a part of the stream. *)
Lemma header_loop_total f stack h lines lg :
  Exists (fun l => startswith "</SEC-HEADER>" l = true) lines ->
  length lines <= f ->
  twp (header_loop f stack) (fun _ st' => exists read, lines = read ++ reader st')
    (mkState h lines lg).
Proof.
  intros Hex Hlen.
  eapply twp_of_wp; [now apply header_loop_terminates|].
  eapply wp_conseq;
    [apply (header_loop_advances f (mkState h lines lg)); apply advances_refl
    | cbv beta | intros ? ? H; exact H].
  intros _ st' [Hr _]. exact Hr.
Qed.

Lemma process_nested_fields_total f :
  forall name fields st lines,
  (exists read, lines = read ++ reader st) ->
  length lines < f -> headers_closed lines = true ->
  twp (process_nested_fields f name fields)
      (fun _ st' => exists read, lines = read ++ reader st') st.
Proof.
  induction f as [|f IH]; intros name fields st lines [read0 Hsuf] Hlen Hcl; [lia|].
  simpl process_nested_fields.
  apply twp_bind, twp_readline.
  destruct st as [h rd lg]. cbn [heap reader log] in *.
  destruct rd as [|line rest].
  - change ("" =? "") with true. cbv iota. apply twp_ret. now exists read0.
  - assert (length rest < f) as Hlen'
      by (subst lines; rewrite length_app in Hlen; cbn [length] in Hlen; lia).
    assert (headers_closed (line :: rest) = true) as Hcl1
      by (subst lines; now apply headers_closed_app in Hcl).
    assert (headers_closed rest = true) as Hcl'
      by (apply (headers_closed_app [line]); exact Hcl1).
    assert (forall X, (exists r, rest = r ++ X) -> exists r, lines = r ++ X) as Hout.
    { intros X [r ->]. exists (read0 ++ line :: r). subst lines.
      now rewrite <- app_assoc. }
    twp_walk;
      repeat first
        [ apply Hout
        | solve [cbn [heap reader log] in *;
                 first [exists []; reflexivity | eexists; eassumption | assumption]]
        | match goal with
          | |- twp (process_nested_fields f _ _) _ _ =>
              eapply twp_conseq;
                [ apply (IH _ _ _ rest); [ | exact Hlen' | exact Hcl']
                | cbv beta; intros ? ? ? ]
          | |- twp (processTxtHeader f _) _ _ =>
              eapply twp_conseq;
                [ apply header_loop_total;
                    [eapply headers_closed_after; eassumption | lia]
                | cbv beta; intros ? ? ? ]
          end ].
Qed.

Lemma check_top_fields_total nm fields expected st :
  twp (check_top_fields nm fields expected) (fun _ _ => True) st.
Proof.
  revert st. induction expected as [|field more IH]; intros st; simpl.
  - exact I.
  - twp_walk; apply IH.
Qed.

(** X13. [deserialize] returns or raises on every stream in which each
    line with the key [SEC-HEADER] has a line that starts with
    [</SEC-HEADER>] somewhere after it: one turn of a loop for each line of
    the stream is enough. *)
Theorem deserialize_terminates input :
  headers_closed (io_lines input) = true ->
  deserialize (length (io_lines input)) input <> OutOfFuel.
Proof.
  destruct input as [nm lines]. cbn [io_lines]. intros Hcl.
  rewrite deserialize_first_line.
  destruct (startswith "<SUBMISSION>" (hd "" lines)
            || startswith "<SEC-DOCUMENT>" (hd "" lines)) eqn:Hacc; [|discriminate].
  destruct lines as [|first rest]; [discriminate Hacc|].
  cbn [tl length].
  assert (twp (fields <- new_dict ;;
               process_nested_fields (S (length rest)) "SUBMISSION" fields ;;
               check_top_fields nm fields ["DOCUMENT"; "FILER"] ;;
               ret fields)
              (fun _ _ => True) (mkState [] rest [])) as W.
  { twp_walk.
    eapply twp_conseq;
      [ apply (process_nested_fields_total _ _ _ _ rest);
          [ now exists [] | lia | apply (headers_closed_app [first]); exact Hcl ]
      | cbv beta; intros ? ? _ ].
    twp_walk.
    eapply twp_conseq; [apply check_top_fields_total | cbv beta; intros ? ? _].
    twp_walk. exact I. }
  unfold twp in W. unfold logged.
  destruct ((fields <- new_dict;;
             process_nested_fields (S (length rest)) "SUBMISSION" fields;;
             check_top_fields nm fields ["DOCUMENT"; "FILER"];; ret fields)
              (mkState [] rest [])); [discriminate | discriminate | contradiction].
Qed.

Lemma deserialize_terminates_witness :
  deserialize 5
    (mkIO (Some "filing.txt")
       [ ln "<SUBMISSION>"; ln "<SEC-HEADER>"; ln "FILER:"; ln "</SEC-HEADER>";
         ln "</SUBMISSION>" ])
  <> OutOfFuel.
Proof.
  apply (deserialize_terminates
           (mkIO (Some "filing.txt")
              [ ln "<SUBMISSION>"; ln "<SEC-HEADER>"; ln "FILER:"; ln "</SEC-HEADER>";
                ln "</SUBMISSION>" ])).
  reflexivity.
Defined.

(* ================================================================== *)
(** ** Where the header parser stops *)

Lemma header_iteration_reads stack st :
  stack <> [] ->
  wp (header_iteration stack)
     (fun res st' =>
        match reader st with
        | [] => reader st' = [] /\ res <> None
        | line :: rest =>
            reader st' = rest /\
            (if startswith "</SEC-HEADER>" line then res = None else res <> None)
        end /\
        forall stack', res = Some stack' -> stack' <> [])
     (fun _ _ => True) st.
Proof.
  intros Hne. unfold header_iteration.
  destruct stack as [|[[fields km] label] below]; [congruence|].
  apply wp_bind, wp_readline.
  destruct st as [h rd lg]. cbn [heap reader log].
  assert (forall (d : dict) (stack' : list frame),
            (0 <? length d)%nat && (1 <? length ((fields, km, label) :: below))%nat = true ->
            Some below = Some stack' -> stack' <> []) as Hpop.
  { intros d stack' Hc Hs. inversion Hs; subst.
    apply andb_true_iff in Hc as [_ Hc]. apply Nat.ltb_lt in Hc.
    destruct stack'; simpl in Hc; [lia | discriminate]. }
  destruct rd as [|line rest].
  - change (("" =? "") || (strip "" =? "")) with true. cbv iota.
    wp_walk; try exact I;
      (split; [split; [reflexivity | discriminate] |]);
      try (intros stack' Hs; inversion Hs; subst; discriminate).
    intros stack' Hs. eapply Hpop; eassumption.
  - destruct ((line =? "") || (strip line =? "")) eqn:Hblank; cbv iota.
    + assert (startswith "</SEC-HEADER>" line = false) as Hterm.
      { destruct (startswith "</SEC-HEADER>" line) eqn:E; [|reflexivity].
        apply terminator_line in E. congruence. }
      rewrite Hterm.
      wp_walk; try exact I;
        (split; [split; [reflexivity | discriminate] |]);
        try (intros stack' Hs; inversion Hs; subst; discriminate).
      intros stack' Hs. eapply Hpop; eassumption.
    + destruct (startswith "</SEC-HEADER>" line) eqn:Hterm; cbv iota.
      * wp_walk. split; [split; reflexivity | discriminate].
      * wp_walk; try exact I;
          (split; [split; [reflexivity | discriminate] |]);
          intros stack' Hs; inversion Hs; subst; discriminate.
Qed.

Lemma header_loop_stops f :
  forall stack st st',
  stack <> [] -> header_loop f stack st = Ok tt st' ->
  exists read term,
    reader st = read ++ term :: reader st' /\
    startswith "</SEC-HEADER>" term = true /\
    Forall (fun l => startswith "</SEC-HEADER>" l = false) read.
Proof.
  induction f as [|f IH]; intros [|fr stack] st st' Hne H; try congruence;
    [discriminate|].
  rewrite header_loop_turn in H. unfold bind in H.
  pose proof (header_iteration_reads (fr :: stack) st Hne) as W. unfold wp in W.
  destruct (header_iteration (fr :: stack) st) as [res st1| |]; try discriminate.
  destruct W as [Hrd Hs].
  destruct res as [stack'|].
  - destruct (IH stack' st1 st' (Hs _ eq_refl) H) as (read & term & Hr & Ht & Hall).
    destruct (reader st) as [|line rest].
    + destruct Hrd as [Hrd _]. rewrite Hrd in Hr. destruct read; discriminate.
    + destruct Hrd as [Hrd Hterm].
      destruct (startswith "</SEC-HEADER>" line) eqn:E; [discriminate|].
      exists (line :: read), term. rewrite <- Hrd, Hr.
      repeat split; auto.
  - unfold ret in H. inversion H; subst st1.
    destruct (reader st) as [|line rest].
    + destruct Hrd as [_ Hrd]. congruence.
    + destruct Hrd as [Hrd Hterm].
      destruct (startswith "</SEC-HEADER>" line) eqn:E; [|congruence].
      exists [], line. rewrite Hrd. repeat split; auto.
Qed.

(** X7. When [processTxtHeader] returns, it has read the stream up to and
    including the first line that starts with [</SEC-HEADER>], and no
    further: it never returns at the end of input or on an empty stack. *)
Theorem header_stops_at_terminator f fields st st' :
  processTxtHeader f fields st = Ok tt st' ->
  exists read term,
    reader st = read ++ term :: reader st' /\
    startswith "</SEC-HEADER>" term = true /\
    Forall (fun l => startswith "</SEC-HEADER>" l = false) read.
Proof.
  unfold processTxtHeader. apply header_loop_stops. discriminate.
Qed.

Lemma header_stops_at_terminator_witness :
  exists read term,
    [ln "FILER:"; ln "</SEC-HEADER>"; ln "<TYPE>10-K"]
    = read ++ term :: [ln "<TYPE>10-K"] /\
    startswith "</SEC-HEADER>" term = true /\
    Forall (fun l => startswith "</SEC-HEADER>" l = false) read.
Proof.
  exact (header_stops_at_terminator 2 0
           (mkState [[]] [ln "FILER:"; ln "</SEC-HEADER>"; ln "<TYPE>10-K"] [])
           (mkState [[("FILER", VList [ERef 1])]; []] [ln "<TYPE>10-K"] [])
           eq_refl).
Defined.

(** X8. When a line that starts with [</SEC-HEADER>] is still to come,
    [processTxtHeader] returns or raises within one turn of its loop for
    each line left in the stream. *)
Theorem header_returns_when_closed fields st :
  Exists (fun l => startswith "</SEC-HEADER>" l = true) (reader st) ->
  processTxtHeader (length (reader st)) fields st <> OutOfFuel.
Proof.
  destruct st as [h rd lg]. cbn [reader]. intros Hex.
  unfold processTxtHeader. apply header_loop_terminates; [exact Hex | lia].
Qed.

Lemma header_returns_when_closed_witness :
  processTxtHeader 2 0 (mkState [[]] [ln "FILER:"; ln "</SEC-HEADER>"] []) <> OutOfFuel.
Proof.
  apply (header_returns_when_closed 0
           (mkState [[]] [ln "FILER:"; ln "</SEC-HEADER>"] [])).
  apply Exists_cons_tl, Exists_cons_hd. reflexivity.
Defined.

(* ================================================================== *)
(** ** What a run keeps *)

Lemma grows_refl h : lists_grow h h /\ keys_kept h h.
Proof.
  split.
  - intros l d k xs _ Hd Hg. exists d, []. now rewrite app_nil_r.
  - intros l d k Hd Hm. eauto.
Qed.

Lemma grows_trans h0 h1 h2 :
  lists_grow h0 h1 /\ keys_kept h0 h1 ->
  lists_grow h1 h2 /\ keys_kept h1 h2 ->
  lists_grow h0 h2 /\ keys_kept h0 h2.
Proof.
  intros [G1 K1] [G2 K2]. split.
  - intros l d k xs Ha Hd Hg.
    destruct (G1 l d k xs Ha Hd Hg) as (d1 & ys1 & Hd1 & Hg1).
    destruct (G2 l d1 k _ Ha Hd1 Hg1) as (d2 & ys2 & Hd2 & Hg2).
    exists d2, (ys1 ++ ys2). now rewrite app_assoc.
  - intros l d k Hd Hm.
    destruct (K1 l d k Hd Hm) as (d1 & Hd1 & Hm1). eauto.
Qed.

Lemma grows_alloc h : lists_grow h (h ++ [[]]) /\ keys_kept h (h ++ [[]]).
Proof.
  split.
  - intros l d k xs _ Hd Hg. exists d, [].
    rewrite nth_error_app1 by (eapply nth_error_valid; eauto).
    now rewrite app_nil_r.
  - intros l d k Hd Hm. exists d.
    rewrite nth_error_app1 by (eapply nth_error_valid; eauto). auto.
Qed.

Lemma grows_write h l d k v :
  nth_error h l = Some d ->
  (forall xs, field_is_array k = true -> dict_get k d = Some (VList xs) ->
              exists ys, v = VList (xs ++ ys)) ->
  lists_grow h (store_set l (dict_set k v d) h)
  /\ keys_kept h (store_set l (dict_set k v d) h).
Proof.
  intros Hd Hv. pose proof (nth_error_valid _ _ _ Hd) as Hlt. split.
  - intros l' d' k' xs Ha Hd' Hg.
    destruct (Nat.eq_dec l l') as [<-|Hne].
    + rewrite Hd in Hd'. inversion Hd'; subst d'.
      exists (dict_set k v d). rewrite nth_error_store_set_eq by exact Hlt.
      destruct (String.eqb_spec k k') as [<-|Hk].
      * destruct (Hv xs Ha Hg) as [ys ->]. exists ys.
        now rewrite dict_get_set_eq.
      * exists []. rewrite dict_get_set_neq by exact Hk.
        now rewrite app_nil_r.
    + exists d', []. rewrite nth_error_store_set_neq by exact Hne.
      now rewrite app_nil_r.
  - intros l' d' k' Hd' Hm.
    destruct (Nat.eq_dec l l') as [<-|Hne].
    + rewrite Hd in Hd'. inversion Hd'; subst d'.
      exists (dict_set k v d). rewrite nth_error_store_set_eq by exact Hlt.
      rewrite dict_mem_set, Hm. split; [reflexivity | apply orb_true_r].
    + exists d'. rewrite nth_error_store_set_neq by exact Hne. auto.
Qed.

Ltac solve_grows :=
  cbn [heap reader log] in *;
  match goal with
  | H : lists_grow ?h0 ?h /\ keys_kept ?h0 ?h
    |- lists_grow ?h0 ?h /\ keys_kept ?h0 ?h => exact H
  | |- lists_grow ?h0 (store_set ?l (dict_set ?k ?v ?d) ?h)
       /\ keys_kept ?h0 (store_set ?l (dict_set ?k ?v ?d) ?h) =>
      apply (grows_trans h0 h); [solve_grows |];
      apply grows_write; [assumption |];
      let xs := fresh "xs" in
      let Ha := fresh "Ha" in
      let Hg := fresh "Hg" in
      intros xs Ha Hg;
      first
        [ congruence
        | match goal with
          | Hm : dict_mem k d = false |- _ =>
              unfold dict_mem in Hm; rewrite Hg in Hm; discriminate
          | Hg' : dict_get k d = Some (VList ?xs') |- _ =>
              rewrite Hg in Hg'; inversion Hg'; subst; eexists; reflexivity
          | Ht : (k =? "TEXT") = true |- _ =>
              apply String.eqb_eq in Ht; rewrite Ht in Ha; discriminate
          end ]
  | |- lists_grow ?h0 (?h ++ [[]]) /\ keys_kept ?h0 (?h ++ [[]]) =>
      apply (grows_trans h0 h); [solve_grows | apply grows_alloc]
  end.

Lemma header_iteration_grows h0 stack st :
  lists_grow h0 (heap st) /\ keys_kept h0 (heap st) ->
  wp (header_iteration stack)
     (fun _ st' => lists_grow h0 (heap st') /\ keys_kept h0 (heap st'))
     (fun _ st' => lists_grow h0 (heap st') /\ keys_kept h0 (heap st')) st.
Proof.
  intros Hg. unfold header_iteration.
  destruct stack as [|[[fields km] label] below].
  - wp_walk. exact Hg.
  - wp_walk; solve_grows.
Qed.

Lemma header_loop_grows f h0 stack st :
  lists_grow h0 (heap st) /\ keys_kept h0 (heap st) ->
  wp (header_loop f stack)
     (fun _ st' => lists_grow h0 (heap st') /\ keys_kept h0 (heap st'))
     (fun _ st' => lists_grow h0 (heap st') /\ keys_kept h0 (heap st')) st.
Proof.
  revert stack st. induction f as [|f IH]; intros [|fr stack] st Hg;
    try exact I; try exact Hg.
  header_loop_step f fr stack.
  apply wp_bind.
  eapply wp_conseq; [apply header_iteration_grows; exact Hg | | auto].
  cbv beta. intros [stack'|] st' Hg'; [apply IH | ]; exact Hg'.
Qed.

Lemma process_nested_fields_grows f h0 name fields st :
  lists_grow h0 (heap st) /\ keys_kept h0 (heap st) ->
  wp (process_nested_fields f name fields)
     (fun _ st' => lists_grow h0 (heap st') /\ keys_kept h0 (heap st'))
     (fun _ st' => lists_grow h0 (heap st') /\ keys_kept h0 (heap st')) st.
Proof.
  revert name fields st. induction f as [|f IH]; intros name fields st Hg;
    [exact I|].
  simpl process_nested_fields.
  wp_walk;
    repeat first
      [ absurd_eof
      | solve_grows
      | apply IH
      | eapply wp_conseq;
          [apply (header_loop_grows f h0) | cbv beta; intros ? ? ? | auto]
      | eapply wp_conseq; [apply IH | cbv beta; intros ? ? ? | auto] ].
Qed.

(** X11. Whether it returns or raises, a run of the tag parser, and a run
    of the header parser, removes nothing: every record keeps its keys,
    and every list under an array-valued key keeps its elements in their
    order, with the new ones after them. *)
Theorem parsers_only_add f name fields st :
  (forall st', process_nested_fields f name fields st = Ok tt st'
               \/ (exists e, process_nested_fields f name fields st = Raise e st') ->
               lists_grow (heap st) (heap st') /\ keys_kept (heap st) (heap st'))
  /\
  (forall st', processTxtHeader f fields st = Ok tt st'
               \/ (exists e, processTxtHeader f fields st = Raise e st') ->
               lists_grow (heap st) (heap st') /\ keys_kept (heap st) (heap st')).
Proof.
  split; intros st' H.
  - pose proof (process_nested_fields_grows f (heap st) name fields st
                  (grows_refl _)) as W.
    unfold wp in W. destruct H as [H | [e H]]; rewrite H in W; exact W.
  - pose proof (header_loop_grows f (heap st) [(fields, KEY_MAP, "")] st
                  (grows_refl _)) as W.
    unfold processTxtHeader in H. unfold wp in W.
    destruct H as [H | [e H]]; rewrite H in W; exact W.
Qed.

Lemma parsers_only_add_witness :
  lists_grow [[("ITEMS", VList [EStr "1.01"])]]
    [[("ITEMS", VList [EStr "1.01"; EStr "9.01"])]]
  /\ keys_kept [[("ITEMS", VList [EStr "1.01"])]]
       [[("ITEMS", VList [EStr "1.01"; EStr "9.01"])]].
Proof.
  apply (proj1 (parsers_only_add 2 "SUBMISSION" 0
                  (mkState [[("ITEMS", VList [EStr "1.01"])]]
                     [ln "<ITEMS>9.01"; ln "</SUBMISSION>"] []))
           (mkState [[("ITEMS", VList [EStr "1.01"; EStr "9.01"])]] [] [])).
  left. reflexivity.
Defined.

(* ================================================================== *)
(** ** Trimmed keys and values *)

Lemma rstrip_idem s : rstrip (rstrip s) = rstrip s.
Proof.
  induction s as [|c s IH]; [reflexivity|].
  cbn [rstrip]. destruct (isspace c && (rstrip s =? "")) eqn:E; [reflexivity|].
  cbn [rstrip]. rewrite IH, E. reflexivity.
Qed.

Lemma lstrip_head s :
  lstrip s = "" \/ exists c r, lstrip s = String c r /\ isspace c = false.
Proof.
  induction s as [|c s IH]; [now left|].
  cbn [lstrip]. destruct (isspace c) eqn:E; [exact IH | right; eauto].
Qed.

Lemma strip_idem s : strip (strip s) = strip s.
Proof.
  unfold strip. destruct (lstrip_head s) as [-> | (c & r & -> & Hc)];
    [reflexivity|].
  cbn [rstrip]. rewrite Hc. cbn [andb lstrip]. rewrite Hc.
  change (rstrip (String c (rstrip r)) = String c (rstrip r)).
  cbn [rstrip]. rewrite Hc, rstrip_idem. reflexivity.
Qed.

(** X15. The key and the inline value the tag parser reads from a line,
    and the key and the value the header parser reads, are trimmed:
    trimming them again changes nothing, so no stored key or scalar (the
    [TEXT] payload apart) has white space at either end. *)
Theorem keys_and_values_are_trimmed name line :
  (forall key value, open_tag name line = Some (key, value) ->
                     strip key = key /\ strip value = value)
  /\ strip (header_key line) = header_key line
  /\ strip (header_value line) = header_value line.
Proof.
  repeat split.
  - apply open_tag_inv in H as (_ & _ & _ & p0 & p1 & _ & -> & _). apply strip_idem.
  - apply open_tag_inv in H as (_ & _ & _ & p0 & p1 & _ & _ & ->). apply strip_idem.
  - unfold header_key. apply strip_idem.
  - unfold header_value. destruct (length (split1 ":" line) =? 1)%nat;
      [reflexivity | apply strip_idem].
Qed.

Lemma keys_and_values_are_trimmed_witness :
  strip "CIK" = "CIK" /\ strip "0000000001" = "0000000001".
Proof.
  apply (proj1 (keys_and_values_are_trimmed "FILER" (ln "< CIK >  0000000001 "))
           "CIK" "0000000001").
  reflexivity.
Defined.

(* ================================================================== *)
(** ** Sections of the header *)

Lemma bind_ok {A B} (m : M A) (k : A -> M B) st a st' :
  m st = Ok a st' -> bind m k st = k a st'.
Proof. intros H. unfold bind. now rewrite H. Qed.

Lemma store_set_last h d d' : store_set (length h) d' (h ++ [d]) = h ++ [d'].
Proof.
  induction h as [|d0 h IH]; [reflexivity|].
  cbn [length app]. unfold store_set; fold store_set. now rewrite IH.
Qed.

Lemma nth_error_last {A} (h : list A) d : nth_error (h ++ [d]) (length h) = Some d.
Proof. rewrite nth_error_app2 by lia. now rewrite Nat.sub_diag. Qed.

(* ================================================================== *)
(** ** The store is a forest *)

Lemma tree_shaped_count h :
  tree_shaped h <->
  forall x, refs_count h x <= 1 /\ (length h <= x -> refs_count h x = 0).
Proof.
  unfold tree_shaped, refs_count. split.
  - intros [Hnd Hb] x. split.
    + now apply NoDup_count_occ.
    + intros Hx. apply count_occ_not_In. intros Hin.
      rewrite Forall_forall in Hb. specialize (Hb x Hin). lia.
  - intros H. split.
    + apply (NoDup_count_occ Nat.eq_dec). intros x. apply H.
    + apply Forall_forall. intros x Hin.
      destruct (Nat.lt_ge_cases x (length h)) as [Hlt|Hge]; [exact Hlt|].
      destruct (H x) as [_ H0]. specialize (H0 Hge).
      apply (count_occ_not_In Nat.eq_dec) in H0. contradiction.
Qed.

Lemma count_dict_set k v d x :
  count_occ Nat.eq_dec (refs_dict (dict_set k v d)) x
  + count_occ Nat.eq_dec
      (match dict_get k d with Some v0 => refs_value v0 | None => [] end) x
  = count_occ Nat.eq_dec (refs_dict d) x + count_occ Nat.eq_dec (refs_value v) x.
Proof.
  induction d as [|[k0 v0] d IH].
  - unfold dict_set, dict_get, refs_dict. cbn [flat_map snd].
    rewrite app_nil_r. cbn [count_occ]. lia.
  - unfold dict_set, dict_get; fold dict_set; fold dict_get.
    destruct (k0 =? k).
    + unfold refs_dict. cbn [flat_map snd]. rewrite !count_occ_app. lia.
    + unfold refs_dict in *. cbn [flat_map snd]. rewrite !count_occ_app. lia.
Qed.

Lemma count_store_set l d d' h x :
  nth_error h l = Some d ->
  refs_count (store_set l d' h) x + count_occ Nat.eq_dec (refs_dict d) x
  = refs_count h x + count_occ Nat.eq_dec (refs_dict d') x.
Proof.
  unfold refs_count, refs_store. revert l.
  induction h as [|d0 h IH]; intros [|l] H; try discriminate.
  - unfold nth_error in H. inversion H; subst.
    unfold store_set. cbn [flat_map]. rewrite !count_occ_app. lia.
  - unfold store_set; fold store_set. cbn [flat_map]. rewrite !count_occ_app.
    specialize (IH l H). lia.
Qed.

Lemma count_alloc h x : refs_count (h ++ [[]]) x = refs_count h x.
Proof.
  unfold refs_count, refs_store. rewrite flat_map_app. cbn [flat_map refs_dict].
  now rewrite !app_nil_r.
Qed.

Lemma count_write h l d k v x :
  nth_error h l = Some d ->
  refs_count (store_set l (dict_set k v d) h) x
  + count_occ Nat.eq_dec
      (match dict_get k d with Some v0 => refs_value v0 | None => [] end) x
  = refs_count h x + count_occ Nat.eq_dec (refs_value v) x.
Proof.
  intros Hd. pose proof (count_store_set l d (dict_set k v d) h x Hd).
  pose proof (count_dict_set k v d x). lia.
Qed.

Lemma count_refs_snoc xs e x :
  count_occ Nat.eq_dec (refs_value (VList (xs ++ [e]))) x
  = count_occ Nat.eq_dec (refs_value (VList xs)) x
    + count_occ Nat.eq_dec (refs_elem e) x.
Proof.
  cbn [refs_value]. rewrite flat_map_app, count_occ_app. cbn [flat_map].
  now rewrite app_nil_r.
Qed.

Lemma tree_alloc h : tree_shaped h -> tree_shaped (h ++ [[]]).
Proof.
  rewrite !tree_shaped_count. intros H x. rewrite count_alloc, length_app.
  destruct (H x) as [H1 H2]. split; [exact H1|]. cbn [length]. intros Hx.
  apply H2. lia.
Qed.

(** A write that adds no reference. *)
Lemma tree_write_plain h l d k v :
  tree_shaped h -> nth_error h l = Some d ->
  (forall x, count_occ Nat.eq_dec (refs_value v) x
             <= count_occ Nat.eq_dec
                  (match dict_get k d with Some v0 => refs_value v0 | None => [] end) x) ->
  tree_shaped (store_set l (dict_set k v d) h).
Proof.
  rewrite !tree_shaped_count. intros H Hd Hv x.
  pose proof (count_write h l d k v x Hd) as E. specialize (Hv x).
  destruct (H x) as [H1 H2]. rewrite length_store_set. split; [lia|].
  intros Hx. specialize (H2 Hx). lia.
Qed.

(** A write that adds a reference to the record just created. *)
Lemma tree_write_new h l d k v :
  tree_shaped h -> nth_error (h ++ [[]]) l = Some d ->
  (forall x, count_occ Nat.eq_dec (refs_value v) x
             <= count_occ Nat.eq_dec
                  (match dict_get k d with Some v0 => refs_value v0 | None => [] end) x
                + (if Nat.eq_dec (length h) x then 1 else 0)) ->
  tree_shaped (store_set l (dict_set k v d) (h ++ [[]])).
Proof.
  rewrite !tree_shaped_count. intros H Hd Hv x.
  pose proof (count_write (h ++ [[]]) l d k v x Hd) as E. specialize (Hv x).
  rewrite count_alloc in E.
  destruct (H x) as [H1 H2]. rewrite length_store_set, length_app. cbn [length].
  destruct (Nat.eq_dec (length h) x) as [<-|Hne].
  - specialize (H2 (Nat.le_refl _)). split; [lia|]. intros Hx. lia.
  - split; [lia|]. intros Hx. assert (length h <= x) as Hx' by lia.
    specialize (H2 Hx'). lia.
Qed.

Ltac solve_count :=
  let x := fresh "x" in
  intros x;
  repeat match goal with
         | Hg : dict_get ?k ?d = Some _ |- context [dict_get ?k ?d] => rewrite Hg
         end;
  try rewrite count_refs_snoc;
  cbn [refs_value refs_elem flat_map app count_occ];
  try destruct (Nat.eq_dec _ x);
  lia.

Ltac solve_tree :=
  cbn [heap reader log] in *;
  match goal with
  | H : tree_shaped ?h |- tree_shaped ?h => exact H
  | |- tree_shaped (store_set ?l (dict_set ?k ?v ?d) (?h ++ [[]])) =>
      apply tree_write_new; [solve_tree | assumption | solve_count]
  | |- tree_shaped (store_set ?l (dict_set ?k ?v ?d) ?h) =>
      apply tree_write_plain; [solve_tree | assumption | solve_count]
  | |- tree_shaped (?h ++ [[]]) => apply tree_alloc; solve_tree
  end.

Lemma header_iteration_tree stack st :
  tree_shaped (heap st) ->
  wp (header_iteration stack) (fun _ st' => tree_shaped (heap st'))
     (fun _ st' => tree_shaped (heap st')) st.
Proof.
  intros Ht. unfold header_iteration.
  destruct stack as [|[[fields km] label] below].
  - wp_walk. exact Ht.
  - wp_walk; solve_tree.
Qed.

Lemma header_loop_tree f stack st :
  tree_shaped (heap st) ->
  wp (header_loop f stack) (fun _ st' => tree_shaped (heap st'))
     (fun _ st' => tree_shaped (heap st')) st.
Proof.
  revert stack st. induction f as [|f IH]; intros [|fr stack] st Ht;
    try exact I; try exact Ht.
  header_loop_step f fr stack.
  apply wp_bind.
  eapply wp_conseq; [apply header_iteration_tree; exact Ht | | auto].
  cbv beta. intros [stack'|] st' Ht'; [apply IH | ]; exact Ht'.
Qed.

Lemma process_nested_fields_tree f name fields st :
  tree_shaped (heap st) ->
  wp (process_nested_fields f name fields) (fun _ st' => tree_shaped (heap st'))
     (fun _ st' => tree_shaped (heap st')) st.
Proof.
  revert name fields st. induction f as [|f IH]; intros name fields st Ht;
    [exact I|].
  simpl process_nested_fields.
  wp_walk;
    repeat first
      [ absurd_eof
      | solve_tree
      | apply IH
      | eapply wp_conseq;
          [apply (header_loop_tree f) | cbv beta; intros ? ? ? | auto]
      | eapply wp_conseq; [apply IH | cbv beta; intros ? ? ? | auto] ].
Qed.

Lemma in_refs_dict_set k v d x :
  In x (refs_dict (dict_set k v d)) -> In x (refs_dict d) \/ In x (refs_value v).
Proof.
  intros H. apply (count_occ_In Nat.eq_dec) in H.
  pose proof (count_dict_set k v d x) as E.
  destruct (Nat.eq_dec (count_occ Nat.eq_dec (refs_dict d) x) 0) as [Hz|Hnz].
  - right. apply (count_occ_In Nat.eq_dec). lia.
  - left. apply (count_occ_In Nat.eq_dec). lia.
Qed.

Lemma in_refs_dict_get k d v x :
  dict_get k d = Some v -> In x (refs_value v) -> In x (refs_dict d).
Proof.
  induction d as [|[k0 v0] d IH]; [discriminate|].
  unfold dict_get; fold dict_get. unfold refs_dict in *. cbn [flat_map snd].
  intros Hg Hin. apply in_or_app. destruct (k0 =? k).
  - inversion Hg; subst. now left.
  - right. now apply IH.
Qed.

Lemma forward_alloc h : refs_forward h -> refs_forward (h ++ [[]]).
Proof.
  intros H l d x Hd Hin.
  destruct (Nat.lt_ge_cases l (length h)) as [Hlt|Hge].
  - rewrite nth_error_app1 in Hd by exact Hlt. eapply H; eauto.
  - rewrite nth_error_app2 in Hd by exact Hge.
    destruct (l - length h) as [|n]; [|destruct n; discriminate].
    inversion Hd; subst. contradiction.
Qed.

Lemma forward_write h l d k v :
  refs_forward h -> nth_error h l = Some d ->
  (forall x, In x (refs_value v) -> In x (refs_dict d) \/ l < x) ->
  refs_forward (store_set l (dict_set k v d) h).
Proof.
  intros H Hd Hv l' d' x Hd' Hin.
  pose proof (nth_error_valid _ _ _ Hd) as Hlt.
  destruct (Nat.eq_dec l l') as [<-|Hne].
  - rewrite nth_error_store_set_eq in Hd' by exact Hlt. inversion Hd'; subst d'.
    apply in_refs_dict_set in Hin as [Hin|Hin].
    + eapply H; eauto.
    + destruct (Hv x Hin) as [Hin'|Hlx]; [eapply H; eauto | exact Hlx].
  - rewrite nth_error_store_set_neq in Hd' by exact Hne. eapply H; eauto.
Qed.

Ltac solve_in :=
  let x := fresh "x" in
  let Hin := fresh "Hin" in
  intros x Hin; cbn [refs_value] in Hin;
  first
    [ contradiction
    | rewrite flat_map_app in Hin; apply in_app_or in Hin as [Hin|Hin];
      [ left; eapply in_refs_dict_get; [eassumption | exact Hin]
      | cbn [flat_map refs_elem app] in Hin;
        first [ contradiction
              | destruct Hin as [<-|[]]; right; len ] ]
    | destruct Hin as [<-|[]]; right; len ].

Ltac solve_fwd :=
  cbn [heap reader log] in *;
  match goal with
  | H : refs_forward ?h |- refs_forward ?h => exact H
  | |- refs_forward (store_set ?l (dict_set ?k ?v ?d) ?h) =>
      apply forward_write; [solve_fwd | assumption | solve_in]
  | |- refs_forward (?h ++ [[]]) => apply forward_alloc; solve_fwd
  end.

Lemma header_iteration_forward stack st :
  refs_forward (heap st) -> frames_valid (heap st) stack ->
  wp (header_iteration stack)
     (fun res st' =>
        refs_forward (heap st') /\ length (heap st) <= length (heap st') /\
        forall stack', res = Some stack' -> frames_valid (heap st') stack')
     (fun _ st' => refs_forward (heap st')) st.
Proof.
  intros Hfw Hv. unfold header_iteration.
  destruct stack as [|[[fields km] label] below].
  - wp_walk. repeat split; auto. discriminate.
  - assert (fields < length (heap st)) as Hf by (inversion Hv; subst; assumption).
    assert (frames_valid (heap st) below) as Hb by (inversion Hv; subst; assumption).
    wp_walk_valid;
      try solve_fwd;
      try (split; [solve_fwd | split; [len |]];
           intros stack' Hs; inversion Hs; subst;
           repeat (apply Forall_cons; [cbn [fst]; len |]);
           first [ eapply frames_valid_mono; [exact Hv | len]
                 | eapply frames_valid_mono; [exact Hb | len]
                 | apply Forall_cons; [cbn [fst]; len |];
                   eapply frames_valid_mono; [exact Hb | len] ]).
Qed.

Lemma header_loop_forward f stack st :
  refs_forward (heap st) -> frames_valid (heap st) stack ->
  wp (header_loop f stack)
     (fun _ st' => refs_forward (heap st') /\ length (heap st) <= length (heap st'))
     (fun _ st' => refs_forward (heap st')) st.
Proof.
  revert stack st. induction f as [|f IH]; intros [|fr stack] st Hfw Hv;
    try exact I; try (split; [exact Hfw | lia]).
  header_loop_step f fr stack.
  apply wp_bind.
  eapply wp_conseq; [apply header_iteration_forward; assumption | | auto].
  cbv beta. intros [stack'|] st' (Hfw' & Hlen & Hv').
  - eapply wp_conseq;
      [apply IH; auto | cbv beta; intros ? ? [? ?]; split; [assumption | lia] | auto].
  - split; assumption.
Qed.

Lemma process_nested_fields_forward f name fields st :
  refs_forward (heap st) -> fields < length (heap st) ->
  wp (process_nested_fields f name fields)
     (fun _ st' => refs_forward (heap st') /\ length (heap st) <= length (heap st'))
     (fun _ st' => refs_forward (heap st')) st.
Proof.
  revert name fields st. induction f as [|f IH]; intros name fields st Hfw Hf;
    [exact I|].
  simpl process_nested_fields.
  wp_walk_valid;
    try absurd_eof;
    try solve_fwd;
    try (split; [solve_fwd | len]).
  all: repeat first
         [ match goal with
           | |- wp (process_nested_fields _ _ _) _ _ _ =>
               eapply wp_conseq;
                 [apply IH; [solve_fwd | len] | cbv beta; intros ? ? [? ?] | auto]
           | |- wp (processTxtHeader _ _) _ _ _ =>
               eapply wp_conseq;
                 [ apply header_loop_forward;
                     [solve_fwd | repeat constructor; cbn [fst]; len]
                 | cbv beta; intros ? ? [? ?] | auto ]
           end
         | split; [solve_fwd | len] ].
Qed.

Lemma forward_root_free h :
  refs_forward h -> ~ In 0 (refs_store h).
Proof.
  intros Hfw Hin. unfold refs_store in Hin. apply in_flat_map in Hin as (d & Hd & Hin).
  apply In_nth_error in Hd as [l Hd]. specialize (Hfw l d 0 Hd Hin). lia.
Qed.

Lemma tree_shaped_nil : tree_shaped [] /\ refs_forward [].
Proof.
  split; [split; constructor|]. intros [|l] d x H; discriminate.
Qed.

Lemma wp_and {A} (m : M A) Q1 Q2 E1 E2 st :
  wp m Q1 E1 st -> wp m Q2 E2 st ->
  wp m (fun a s => Q1 a s /\ Q2 a s) (fun e s => E1 e s /\ E2 e s) st.
Proof. unfold wp. destruct (m st); auto. Qed.

Lemma deserialize_body_tree fuel nm lines :
  wp (deserialize_body fuel nm) (fun _ st' => tree_shaped (heap st'))
     (fun _ st' => tree_shaped (heap st')) (mkState [] lines []).
Proof.
  pose proof (proj1 tree_shaped_nil) as H0.
  unfold deserialize_body. wp_walk; try solve_tree.
  all: eapply wp_conseq;
         [ apply process_nested_fields_tree; solve_tree
         | cbv beta; intros ? ? ? | auto ].
  all: wp_walk.
  all: eapply wp_conseq;
         [ apply (check_top_fields_heap _ _ _ tree_shaped); assumption
         | cbv beta; intros ? ? ? | auto ].
  all: wp_walk; assumption.
Qed.

Lemma deserialize_body_forward fuel nm lines :
  wp (deserialize_body fuel nm) (fun r st' => r = 0 /\ refs_forward (heap st'))
     (fun _ st' => refs_forward (heap st')) (mkState [] lines []).
Proof.
  pose proof (proj2 tree_shaped_nil) as H0.
  unfold deserialize_body. wp_walk; try solve_fwd.
  all: eapply wp_conseq;
         [ apply process_nested_fields_forward; [solve_fwd | len]
         | cbv beta; intros ? ? [? ?] | auto ].
  all: wp_walk.
  all: eapply wp_conseq;
         [ apply (check_top_fields_heap _ _ _ refs_forward); assumption
         | cbv beta; intros ? ? ? | auto ].
  all: wp_walk; split; [reflexivity | assumption].
Qed.

(** X16. The store [deserialize] leaves, whether it returns or raises, is
    a forest: no record is referred to from two places, every reference is
    to a record of the store, and every reference a record holds is to a
    record created after it, so no record reaches itself.  The record
    returned is the first one, and no record refers to it. *)
Theorem deserialize_builds_a_forest fuel input :
  (forall r st, deserialize fuel input = Ok r st ->
                r = 0 /\ ~ In r (refs_store (heap st))
                /\ tree_shaped (heap st) /\ refs_forward (heap st))
  /\
  (forall e st, deserialize fuel input = Raise e st ->
                tree_shaped (heap st) /\ refs_forward (heap st)).
Proof.
  pose proof (wp_and _ _ _ _ _ _
                (deserialize_body_tree fuel (io_name input) (io_lines input))
                (deserialize_body_forward fuel (io_name input) (io_lines input))) as W.
  unfold wp in W. unfold deserialize, logged.
  destruct (deserialize_body fuel (io_name input) (mkState [] (io_lines input) []))
    as [r0 st0 | e0 st0 |]; split; intros ? st H; inversion H; subst.
  - destruct W as [Ht [-> Hf]].
    split; [reflexivity | split; [apply forward_root_free; exact Hf | split; assumption]].
  - exact W.
Qed.

Lemma deserialize_builds_a_forest_witness :
  0 = 0
  /\ ~ In 0 (refs_store
    [[("FILER", VList [ERef 1]); ("DOCUMENT", VList [ERef 3])];
     [("COMPANY-DATA", VRef 2)]; [("CIK", VStr "0000000001")];
     [("TYPE", VStr "10-K")]])
  /\ tree_shaped
    [[("FILER", VList [ERef 1]); ("DOCUMENT", VList [ERef 3])];
     [("COMPANY-DATA", VRef 2)]; [("CIK", VStr "0000000001")];
     [("TYPE", VStr "10-K")]]
  /\ refs_forward
    [[("FILER", VList [ERef 1]); ("DOCUMENT", VList [ERef 3])];
     [("COMPANY-DATA", VRef 2)]; [("CIK", VStr "0000000001")];
     [("TYPE", VStr "10-K")]].
Proof.
  apply (proj1 (deserialize_builds_a_forest 6
                  (mkIO (Some "f.txt")
                     [ln "<SUBMISSION>"; ln "<FILER>"; ln "<COMPANY-DATA>";
                      ln "<CIK>0000000001"; ln "</COMPANY-DATA>"; ln "</FILER>";
                      ln "<DOCUMENT>"; ln "<TYPE>10-K"; ln "</DOCUMENT>";
                      ln "</SUBMISSION>"]))
           0
           (mkState [[("FILER", VList [ERef 1]); ("DOCUMENT", VList [ERef 3])];
                     [("COMPANY-DATA", VRef 2)]; [("CIK", VStr "0000000001")];
                     [("TYPE", VStr "10-K")]] [] [])).
  vm_compute. reflexivity.
Defined.

(* ================================================================== *)
(** ** Blank lines of the header *)

Lemma header_blank_turn f fields km label below h line rest lg d :
  strip line = "" -> nth_error h fields = Some d ->
  header_loop (S f) ((fields, km, label) :: below) (mkState h (line :: rest) lg)
  = header_loop f
      (if (0 <? length d)%nat && (0 <? length below)%nat
       then below else (fields, km, label) :: below)
      (mkState h rest lg).
Proof.
  intros Hs Hd. rewrite header_loop_turn. unfold header_iteration.
  unfold bind at 1. rewrite run_readline_cons. rewrite Hs.
  change ("" =? "") with true. rewrite orb_true_r. cbv iota.
  rewrite (run_get_dict _ fields d) by exact Hd.
  cbn [length]. change (1 <? S (length below))%nat with (0 <? length below)%nat.
  destruct ((0 <? length d)%nat && (0 <? length below)%nat); reflexivity.
Qed.

(* ================================================================== *)
(** ** Blocks that end their parent *)

Lemma pnf_block_end f name fields h tail rest lg :
  block_end name tail = Some rest ->
  process_nested_fields (S f) name fields (mkState h tail lg) = Ok tt (mkState h rest lg).
Proof.
  destruct tail as [|line tail]; cbn [block_end]; intros H.
  - inversion H. reflexivity.
  - destruct (startswith ("</" ++ name ++ ">")%string line
              || startswith "</SEC-DOCUMENT>" line) eqn:Hc; [|discriminate].
    inversion H; subst.
    assert ((line =? "") = false) as Hne.
    { apply String.eqb_neq. apply orb_true_iff in Hc as [Hc|Hc];
        (eapply startswith_nonempty; [|exact Hc]); discriminate. }
    simpl. rewrite run_readline_cons, Hne, Hc. reflexivity.
Qed.

Lemma text_block_turn f name fields h lg d line value body close rest :
  open_tag name line = Some ("TEXT", value) ->
  Forall (fun l => l <> "" /\ startswith "</TEXT>" l = false) body ->
  startswith "</TEXT>" close = true ->
  nth_error h fields = Some d ->
  process_nested_fields (S f) name fields
    (mkState h (line :: body ++ close :: rest) lg)
  = process_nested_fields f name fields
      (mkState (store_set fields
                  (dict_set "TEXT" (VStr (fold_right String.append "" body)) d) h)
         rest lg).
Proof.
  intros Ho Hb Hc Hd.
  rewrite (pnf_text_turn _ _ _ _ _ _ _ _ Ho).
  unfold bind at 1. unfold read_text. simpl.
  rewrite (text_loop_closed [] body close rest Hb Hc). simpl.
  pose proof (run_set_item (fun _ => ret tt) fields "TEXT"
                (VStr (join body)) d h rest lg Hd) as R.
  unfold bind in R. unfold ret in R.
  destruct (set_item fields "TEXT" (VStr (join body)) (mkState h rest lg));
    inversion R; subst.
  rewrite <- join_fold. reflexivity.
Qed.

(** C6. A [TEXT] block closed by a line that starts with [</TEXT>]: the
    parser stores under [TEXT] the concatenation of the raw lines between
    the opening and the closing line, nothing trimmed and the closing line
    left out.  When the block is the last thing of its parent (the parent's
    close line or the end of input follows), the parser returns with the
    text stored and nothing else changed; when other lines follow, it goes
    on with them from that store. *)
Theorem text_block_verbatim f name fields h lg d line value body close :
  open_tag name line = Some ("TEXT", value) ->
  Forall (fun l => l <> "" /\ startswith "</TEXT>" l = false) body ->
  startswith "</TEXT>" close = true ->
  nth_error h fields = Some d ->
  let text := fold_right String.append "" body in
  let d' := dict_set "TEXT" (VStr text) d in
  (forall tail rest,
     block_end name tail = Some rest ->
     process_nested_fields (S (S f)) name fields
       (mkState h (line :: body ++ close :: tail) lg)
     = Ok tt (mkState (store_set fields d' h) rest lg))
  /\ (forall rest,
        process_nested_fields (S f) name fields
          (mkState h (line :: body ++ close :: rest) lg)
        = process_nested_fields f name fields
            (mkState (store_set fields d' h) rest lg))
  /\ nth_error (store_set fields d' h) fields = Some d'
  /\ dict_get "TEXT" d' = Some (VStr text).
Proof.
  intros Ho Hb Hc Hd text d'. split; [|split; [|split]].
  - intros tail rest He.
    rewrite (text_block_turn _ _ _ _ _ d _ _ _ _ _ Ho Hb Hc Hd).
    apply pnf_block_end. exact He.
  - intros rest. exact (text_block_turn _ _ _ _ _ d _ _ _ _ _ Ho Hb Hc Hd).
  - apply nth_error_store_set_eq. eapply nth_error_valid; eauto.
  - apply dict_get_set_eq.
Qed.

Lemma text_block_verbatim_witness :
  process_nested_fields 2 "DOCUMENT" 0
    (mkState [[]]
       [ln "<TEXT>"; ln " first line "; ln "second"; ln "</TEXT>"; ln "</DOCUMENT>";
        ln "<DOCUMENT>"] [])
  = Ok tt (mkState [[("TEXT", VStr (ln " first line " ++ ln "second"))]]
             [ln "<DOCUMENT>"] []).
Proof.
  refine (proj1 (text_block_verbatim 0 "DOCUMENT" 0 [[]] [] [] (ln "<TEXT>") ""
                   [ln " first line "; ln "second"] (ln "</TEXT>") _ _ _ _)
            [ln "</DOCUMENT>"; ln "<DOCUMENT>"] [ln "<DOCUMENT>"] _).
  - reflexivity.
  - repeat constructor; discriminate.
  - reflexivity.
  - reflexivity.
  - reflexivity.
Defined.

(* ================================================================== *)
(** ** Lines of the root scope of the header *)

(** The plain entries of the root table are not array-valued, and only
    [FILED AS OF DATE] is renamed to [FILING-DATE]. *)
Lemma KEY_MAP_plain k c :
  km_get k KEY_MAP = Some (Plain c) ->
  field_is_array c = false /\ (c = "FILING-DATE" -> k = "FILED AS OF DATE").
Proof.
  intros H. cbv [km_get KEY_MAP] in H.
  repeat match type of H with
         | (if ?b then _ else _) = _ =>
             let E := fresh "E" in
             destruct b eqn:E;
             [ first
                 [ discriminate H
                 | inversion H; subst; split;
                   [ reflexivity
                   | first [ intros _; symmetry; apply String.eqb_eq; exact E
                           | intros Hc; discriminate Hc ] ] ]
             | ]
         end.
  discriminate.
Qed.

(** One turn on a line of the root scope: the stack stays, and all that
    may change in the store is the key the line is renamed to. *)
Lemma top_level_turn fields h line lg d :
  top_level_line line = true ->
  nth_error h fields = Some d ->
  exists d' lg',
    (forall rest,
       header_iteration [(fields, KEY_MAP, "")] (mkState h (line :: rest) lg)
       = Ok (Some [(fields, KEY_MAP, "")]) (mkState (store_set fields d' h) rest lg'))
    /\ forall k, km_get (header_key line) KEY_MAP <> Some (Plain k) ->
                 dict_get k d' = dict_get k d.
Proof.
  intros Ht Hd. unfold top_level_line in Ht.
  apply andb_true_iff in Ht as [Hterm Hkm]. apply negb_true_iff in Hterm.
  destruct (header_data line) eqn:Hhd.
  - destruct (km_get (header_key line) KEY_MAP) as [[c | c sub]|] eqn:Hk;
      [| discriminate |].
    + destruct (KEY_MAP_plain _ _ Hk) as [Harr _].
      eexists. eexists. split.
      * intros rest.
        pose proof (header_single_turn fields KEY_MAP "" [] h line rest lg d c
                      Hhd Harr Hd) as T.
        cbn zeta in T. destruct T as [T _]. exact (T Hk).
      * intros k Hne. apply dict_get_set_neq. congruence.
    + exists d.
      exists (if negb ((header_key line =? "") || (header_value line =? ""))
                 && negb (header_key line =? "ITEM INFORMATION")
              then lg ++ [WarnUnknownKey (header_key line) (header_value line) ""]
              else lg).
      split; [|reflexivity]. intros rest.
      rewrite header_lookup_turn by exact Hhd. rewrite Hk.
      rewrite (store_set_same _ _ _ Hd).
      destruct (negb ((header_key line =? "") || (header_value line =? ""))
                && negb (header_key line =? "ITEM INFORMATION")); reflexivity.
  - exists d, lg. split; [|reflexivity]. intros rest.
    rewrite (store_set_same _ _ _ Hd).
    unfold header_iteration. rewrite run_readline_cons.
    unfold header_data in Hhd. rewrite Hterm in Hhd. cbn [negb] in Hhd.
    rewrite andb_true_r in Hhd.
    destruct ((line =? "") || (strip line =? "")) eqn:Hb; cbv iota.
    + rewrite (run_get_dict _ fields d) by exact Hd.
      cbn [length]. change (1 <? 1)%nat with false. rewrite andb_false_r. reflexivity.
    + cbn [negb andb] in Hhd. apply negb_false_iff in Hhd.
      rewrite Hterm, Hhd. reflexivity.
Qed.

(** A run of lines of the root scope. *)
Lemma top_level_run fields lines :
  Forall (fun l => top_level_line l = true) lines ->
  forall h lg d,
  nth_error h fields = Some d ->
  exists d' lg',
    (forall f tail,
       header_loop (length lines + f) [(fields, KEY_MAP, "")]
         (mkState h (lines ++ tail) lg)
       = header_loop f [(fields, KEY_MAP, "")]
           (mkState (store_set fields d' h) tail lg'))
    /\ forall k,
         Forall (fun l => km_get (header_key l) KEY_MAP <> Some (Plain k)) lines ->
         dict_get k d' = dict_get k d.
Proof.
  induction 1 as [|line lines Hl _ IH]; intros h lg d Hd.
  - exists d, lg. split; [|reflexivity].
    intros f tail. rewrite (store_set_same _ _ _ Hd). reflexivity.
  - destruct (top_level_turn fields h line lg d Hl Hd) as (d1 & lg1 & T1 & K1).
    assert (nth_error (store_set fields d1 h) fields = Some d1) as Hd1
      by (apply nth_error_store_set_eq; eapply nth_error_valid; eauto).
    destruct (IH (store_set fields d1 h) lg1 d1 Hd1) as (d2 & lg2 & T2 & K2).
    exists d2, lg2. split.
    + intros f tail. cbn [length app Nat.add].
      rewrite header_loop_turn.
      etransitivity; [apply bind_ok; apply T1 |].
      cbv beta iota. rewrite T2, store_set_twice. reflexivity.
    + intros k Hall. inversion Hall; subst.
      rewrite K2 by assumption. apply K1. assumption.
Qed.

(** C9. The line [FILED AS OF DATE:20240101] in the root scope of the
    header:
    - the turn that reads it stores ["20240101"] under [FILING-DATE] on the
      record the header parser was given (with a warning when the key was
      already there), touches nothing else and keeps the scope;
    - in a header made of lines of the root scope, with no later line of
      the key [FILED AS OF DATE], the header parser returns at the
      terminator with ["20240101"] under [FILING-DATE] on that record;
    - so does the tag parser on the [SEC-HEADER] block that holds these
      lines, when the block is the last thing of its parent: the value is
      on the record of the enclosing block. *)
Theorem filed_as_of_date fields h line lg d :
  line = "FILED AS OF DATE:20240101" \/ line = ln "FILED AS OF DATE:20240101" ->
  nth_error h fields = Some d ->
  let d' := dict_set "FILING-DATE" (VStr "20240101") d in
  let lg' := if dict_mem "FILING-DATE" d
             then lg ++ [WarnDuplicateKey "FILING-DATE"] else lg in
  (forall label below rest,
     header_iteration ((fields, KEY_MAP, label) :: below) (mkState h (line :: rest) lg)
     = Ok (Some ((fields, KEY_MAP, label) :: below))
         (mkState (store_set fields d' h) rest lg')
     /\ nth_error (store_set fields d' h) fields = Some d'
     /\ dict_get "FILING-DATE" d' = Some (VStr "20240101"))
  /\
  (forall f pre post term,
     Forall (fun l => top_level_line l = true) pre ->
     Forall (fun l => top_level_line l = true
                      /\ header_key l <> "FILED AS OF DATE") post ->
     startswith "</SEC-HEADER>" term = true ->
     exists h' lg'' d'',
       nth_error h' fields = Some d''
       /\ dict_get "FILING-DATE" d'' = Some (VStr "20240101")
       /\ (forall rest,
             processTxtHeader (length pre + S (length post + S f)) fields
               (mkState h (pre ++ line :: post ++ term :: rest) lg)
             = Ok tt (mkState h' rest lg''))
       /\ (forall name open v tail rest,
             open_tag name open = Some ("SEC-HEADER", v) ->
             block_end name tail = Some rest ->
             process_nested_fields (S (length pre + S (length post + S f))) name fields
               (mkState h (open :: pre ++ line :: post ++ term :: tail) lg)
             = Ok tt (mkState h' rest lg''))).
Proof.
  intros Hl Hd d' lg'.
  assert (header_data line = true /\
          km_get (header_key line) KEY_MAP = Some (Plain "FILING-DATE") /\
          header_value line = "20240101") as (Hhd & Hk & Hv)
    by (destruct Hl; subst line; repeat split; reflexivity).
  assert (forall fields h lg d label below rest,
            nth_error h fields = Some d ->
            header_iteration ((fields, KEY_MAP, label) :: below)
              (mkState h (line :: rest) lg)
            = Ok (Some ((fields, KEY_MAP, label) :: below))
                (mkState (store_set fields
                            (dict_set "FILING-DATE" (VStr "20240101") d) h) rest
                   (if dict_mem "FILING-DATE" d
                    then lg ++ [WarnDuplicateKey "FILING-DATE"] else lg))) as Hturn.
  { intros fields0 h0 lg0 d0 label below rest Hd0.
    pose proof (header_single_turn fields0 KEY_MAP label below h0 line rest lg0 d0
                  "FILING-DATE" Hhd eq_refl Hd0) as T.
    cbn zeta in T. destruct T as [T _]. rewrite Hv in T. exact (T Hk). }
  split.
  - intros label below rest. split; [apply Hturn; exact Hd | split].
    + apply nth_error_store_set_eq. eapply nth_error_valid; eauto.
    + apply dict_get_set_eq.
  - intros f pre post term Hpre Hpost Hterm.
    destruct (top_level_run fields pre Hpre h lg d Hd) as (d1 & lg1 & R1 & _).
    assert (nth_error (store_set fields d1 h) fields = Some d1) as Hd1
      by (apply nth_error_store_set_eq; eapply nth_error_valid; eauto).
    set (d2 := dict_set "FILING-DATE" (VStr "20240101") d1).
    set (lg2 := if dict_mem "FILING-DATE" d1
                then lg1 ++ [WarnDuplicateKey "FILING-DATE"] else lg1).
    assert (nth_error (store_set fields d2 h) fields = Some d2) as Hd2
      by (apply nth_error_store_set_eq; eapply nth_error_valid; eauto).
    assert (Forall (fun l => top_level_line l = true) post) as Hpost1
      by (eapply Forall_impl; [|exact Hpost]; cbv beta; intros ? [? _]; assumption).
    destruct (top_level_run fields post Hpost1 (store_set fields d2 h) lg2 d2 Hd2)
      as (d3 & lg3 & R3 & K3).
    assert (forall rest,
              processTxtHeader (length pre + S (length post + S f)) fields
                (mkState h (pre ++ line :: post ++ term :: rest) lg)
              = Ok tt (mkState (store_set fields d3 h) rest lg3)) as Hrun.
    { intros rest. unfold processTxtHeader. rewrite R1.
      rewrite header_loop_turn.
      etransitivity; [apply bind_ok; apply (Hturn _ _ _ _ _ _ _ Hd1) |].
      cbv beta iota. rewrite store_set_twice. fold d2 lg2.
      rewrite R3, store_set_twice.
      apply header_loop_at_terminator. exact Hterm. }
    exists (store_set fields d3 h), lg3, d3. split; [|split; [|split]].
    + apply nth_error_store_set_eq. eapply nth_error_valid; eauto.
    + rewrite K3; [apply dict_get_set_eq |].
      eapply Forall_impl; [|exact Hpost]. cbv beta. intros l [_ Hne] Hkl.
      apply KEY_MAP_plain in Hkl as [_ Hkl]. apply Hne, Hkl. reflexivity.
    + exact Hrun.
    + intros name open v tail rest Ho He.
      rewrite (pnf_header_turn _ _ _ _ _ _ _ _ Ho).
      etransitivity; [apply bind_ok; apply Hrun |].
      rewrite Nat.add_succ_r. apply pnf_block_end. exact He.
Qed.

Lemma filed_as_of_date_witness :
  header_iteration [(0, KEY_MAP, "")]
    (mkState [[]] [ln "FILED AS OF DATE:20240101"; ln "</SEC-HEADER>"] [])
  = Ok (Some [(0, KEY_MAP, "")])
      (mkState [[("FILING-DATE", VStr "20240101")]] [ln "</SEC-HEADER>"] [])
  /\ nth_error [[("FILING-DATE", VStr "20240101")]] 0
     = Some [("FILING-DATE", VStr "20240101")]
  /\ dict_get "FILING-DATE" [("FILING-DATE", VStr "20240101")]
     = Some (VStr "20240101").
Proof.
  refine (proj1 (filed_as_of_date 0 [[]] (ln "FILED AS OF DATE:20240101") [] [] _ _)
            "" [] [ln "</SEC-HEADER>"]).
  - right. reflexivity.
  - reflexivity.
Defined.

(** Scenario B and Scenario C, through [deserialize]. *)
Example scenario_B_text :
  deserialize 4
    (mkIO (Some "filing.txt")
       [ln "<SUBMISSION>"; ln "<DOCUMENT>"; ln "<TEXT>"; ln "Line one"; ln "  line two";
        ln "</TEXT>"; ln "</DOCUMENT>"; ln "</SUBMISSION>"])
  = Ok 0 (mkState [[("DOCUMENT", VList [ERef 1])];
                   [("TEXT", VStr (ln "Line one" ++ ln "  line two"))]] []
            [WarnMissingTopField "FILER" "filing.txt"]).
Proof. vm_compute. reflexivity. Qed.

Example scenario_C_filing_date :
  deserialize 4
    (mkIO (Some "filing.txt")
       [ln "<SUBMISSION>"; ln "<SEC-HEADER>"; ln "FILED AS OF DATE:20240101";
        ln "</SEC-HEADER>"; ln "</SUBMISSION>"])
  = Ok 0 (mkState [[("FILING-DATE", VStr "20240101")]] []
            [WarnMissingTopField "DOCUMENT" "filing.txt";
             WarnMissingTopField "FILER" "filing.txt"]).
Proof. vm_compute. reflexivity. Qed.

(* ================================================================== *)
(** ** Empty blocks and stray close tags, to the end of the parent *)

(** X3. An opening line with no inline value followed at once by a line
    that starts with its close tag, or with [</SEC-DOCUMENT>], when the
    parent ends right after (its close line, or the end of input): the
    parser returns, an empty record attached (appended to the list of an
    array-valued key, set directly otherwise) and nothing else changed.
    [</SEC-DOCUMENT>] closes the innermost block only: the parent still
    reads its own end. *)
Theorem empty_block f name fields key l1 l2 tail rest h lg d :
  open_tag name l1 = Some (key, "") ->
  key <> "TEXT" -> key <> "SEC-HEADER" -> str_in key scalar_flags = false ->
  startswith ("</" ++ key ++ ">")%string l2 || startswith "</SEC-DOCUMENT>" l2 = true ->
  block_end name tail = Some rest ->
  nth_error h fields = Some d ->
  (if field_is_array key then dict_ok d else dict_mem key d = false) ->
  let v := if field_is_array key
           then VList (items_of key d ++ [ERef (length h)])
           else VRef (length h) in
  process_nested_fields (S (S f)) name fields (mkState h (l1 :: l2 :: tail) lg)
  = Ok tt (mkState (store_set fields (dict_set key v d) h ++ [[]]) rest lg).
Proof.
  intros Ho Ht Hh Hf Hc He Hd Hpre v. unfold v.
  destruct (field_is_array key) eqn:Harr.
  - rewrite (array_nested_turn _ _ _ _ _ _ _ _ _ Harr Ho Hd Hpre).
    unfold bind. rewrite (pnf_close_turn _ _ _ _ _ _ _ Hc).
    apply pnf_block_end. exact He.
  - rewrite (single_nested_turn _ _ _ _ _ _ _ _ _ Harr Ht Hh Ho Hf Hd Hpre).
    unfold bind. rewrite (pnf_close_turn _ _ _ _ _ _ _ Hc).
    apply pnf_block_end. exact He.
Qed.

Lemma empty_block_witness :
  process_nested_fields 2 "SUBMISSION" 0
    (mkState [[]] [ln "<FILER>"; ln "</SEC-DOCUMENT>"; ln "</SUBMISSION>"; ln "<TYPE>10-K"] [])
  = Ok tt (mkState [[("FILER", VList [ERef 1])]; []] [ln "<TYPE>10-K"] []).
Proof.
  refine (empty_block 0 "SUBMISSION" 0 "FILER" (ln "<FILER>") (ln "</SEC-DOCUMENT>")
            [ln "</SUBMISSION>"; ln "<TYPE>10-K"] [ln "<TYPE>10-K"]
            [[]] [] [] eq_refl _ _ eq_refl eq_refl eq_refl eq_refl dict_ok_nil);
    discriminate.
Defined.

(** X14. A close tag that is neither the block's own nor
    [</SEC-DOCUMENT>] is not rejected: it is read as a tag whose key starts
    with [/].  With nothing after its [>] and a record that does not have
    that key yet, it opens a nested block under that key: when that block
    and then the parent end right after, the parser returns with a new
    empty record set under the key. *)
Theorem stray_close_tag f name fields line h lg d :
  startswith "</" line = true -> has_char ">" line = true ->
  startswith ("</" ++ name ++ ">")%string line || startswith "</SEC-DOCUMENT>" line = false ->
  (exists key value,
     open_tag name line = Some (key, value) /\ startswith "/" key = true)
  /\
  (forall key tail rest1 rest,
     open_tag name line = Some (key, "") ->
     nth_error h fields = Some d -> dict_mem key d = false ->
     block_end key tail = Some rest1 -> block_end name rest1 = Some rest ->
     process_nested_fields (S (S f)) name fields (mkState h (line :: tail) lg)
     = Ok tt (mkState (store_set fields (dict_set key (VRef (length h)) d) h ++ [[]])
                rest lg)).
Proof.
  intros Hs Hgt Hc.
  destruct (startswith_cons _ _ _ Hs) as (s1 & -> & Hs1).
  destruct (startswith_cons _ _ _ Hs1) as (s2 & -> & _).
  assert (has_char ">" s2 = true) as Hgt2 by exact Hgt.
  destruct (split1_with_sep _ _ Hgt2) as (a & b & Hab).
  assert (split1 ">" (String "<" (String "/" s2)) = [String "<" (String "/" a); b])
    as Hsplit.
  { unfold split1 in *. rewrite !cut_after by reflexivity.
    destruct (cut ">" s2) as [[a' b']|]; inversion Hab; subst. reflexivity. }
  assert (open_tag name (String "<" (String "/" s2))
          = Some (strip (String "/" a), strip b)) as Ho.
  { unfold open_tag. rewrite Hc, Hsplit. reflexivity. }
  assert (startswith "/" (strip (String "/" a)) = true) as Hk
    by (rewrite strip_head by reflexivity; reflexivity).
  split.
  - exists (strip (String "/" a)), (strip b). split; assumption.
  - intros key tail rest1 rest Ho' Hd Hm He1 He.
    assert (key = strip (String "/" a)) as -> by congruence.
    destruct (slash_key_plain _ Hk) as (Harr & Ht & Hh & Hf).
    rewrite (single_nested_turn _ _ _ _ _ _ _ _ _ Harr Ht Hh Ho' Hf Hd Hm).
    unfold bind. rewrite (pnf_block_end _ _ _ _ _ _ _ He1).
    apply pnf_block_end. exact He.
Qed.

Lemma stray_close_tag_witness :
  process_nested_fields 2 "FILER" 0
    (mkState [[]] [ln "</COMPANY-DATA>"; ln "</SEC-DOCUMENT>"; ln "</FILER>"; ln "<TYPE>10-K"] [])
  = Ok tt (mkState [[("/COMPANY-DATA", VRef 1)]; []] [ln "<TYPE>10-K"] []).
Proof.
  refine (proj2 (stray_close_tag 0 "FILER" 0 (ln "</COMPANY-DATA>") [[]] [] []
                   eq_refl eq_refl eq_refl)
            "/COMPANY-DATA" [ln "</SEC-DOCUMENT>"; ln "</FILER>"; ln "<TYPE>10-K"]
            [ln "</FILER>"; ln "<TYPE>10-K"] [ln "<TYPE>10-K"]
            eq_refl eq_refl eq_refl eq_refl eq_refl).
Defined.

(* ================================================================== *)
(** ** Sections and blank lines of the header, to the terminator *)

(** A line of a plain, not array-valued name of the active table, then
    the terminator. *)
Lemma header_field_then_end f fields km label below h line term rest lg d c :
  header_data line = true -> km_get (header_key line) km = Some (Plain c) ->
  field_is_array c = false ->
  startswith "</SEC-HEADER>" term = true ->
  nth_error h fields = Some d ->
  header_loop (S (S f)) ((fields, km, label) :: below)
    (mkState h (line :: term :: rest) lg)
  = Ok tt (mkState (store_set fields (dict_set c (VStr (header_value line)) d) h) rest
             (if dict_mem c d then lg ++ [WarnDuplicateKey c] else lg)).
Proof.
  intros Hhd Hk Harr Hterm Hd. rewrite header_loop_turn.
  pose proof (header_single_turn fields km label below h line (term :: rest) lg d c
                Hhd Harr Hd) as T.
  cbn zeta in T. destruct T as [T _]. specialize (T Hk).
  etransitivity; [apply bind_ok; exact T |].
  apply header_loop_at_terminator. exact Hterm.
Qed.

(** X17. A section line of the header, a line of that section's table and
    the terminator: the header parser returns; the first line attached a
    new record to the active one (appended for an array-valued name, set
    with a warning on a duplicate otherwise) and the second stored its value
    in the new record, not in the enclosing one. *)
Theorem section_line_then_field f fields km label below h l1 l2 term rest lg d c sub c2 :
  header_data l1 = true -> km_get (header_key l1) km = Some (Nested c sub) ->
  header_data l2 = true -> km_get (header_key l2) sub = Some (Plain c2) ->
  field_is_array c2 = false ->
  startswith "</SEC-HEADER>" term = true ->
  nth_error h fields = Some d ->
  (field_is_array c = true -> dict_ok d) ->
  let v := if field_is_array c
           then VList (items_of c d ++ [ERef (length h)])
           else VRef (length h) in
  let lg' := if negb (field_is_array c) && dict_mem c d
             then lg ++ [WarnDuplicateKey c] else lg in
  header_loop (S (S (S f))) ((fields, km, label) :: below)
    (mkState h (l1 :: l2 :: term :: rest) lg)
  = Ok tt (mkState (store_set fields (dict_set c v d) h
                    ++ [[(c2, VStr (header_value l2))]])
             rest lg').
Proof.
  intros Hd1 Hk1 Hd2 Hk2 Harr2 Hterm Hd Hok v lg'.
  rewrite header_loop_turn.
  assert (forall h1 lg1,
            length h1 = length h ->
            header_loop (S (S f))
              ((length h, sub, header_key l1) :: (fields, km, label) :: below)
              (mkState (h1 ++ [[]]) (l2 :: term :: rest) lg1)
            = Ok tt (mkState (h1 ++ [[(c2, VStr (header_value l2))]]) rest lg1)) as Hnext.
  { intros h1 lg1 Hlen. rewrite <- Hlen.
    rewrite (header_field_then_end f (length h1) sub (header_key l1) _ (h1 ++ [[]])
               l2 term rest lg1 [] c2 Hd2 Hk2 Harr2 Hterm (nth_error_last h1 [])).
    change (dict_mem c2 []) with false. cbv iota.
    rewrite store_set_last. reflexivity. }
  unfold v, lg'. destruct (field_is_array c) eqn:Harr; cbn [negb andb].
  - etransitivity;
      [ apply bind_ok;
        exact (proj2 (header_array_turn fields km label below h l1 (l2 :: term :: rest)
                        lg d c Hd1 Harr Hd (Hok eq_refl)) sub Hk1) |].
    apply Hnext, length_store_set.
  - etransitivity;
      [ apply bind_ok;
        exact (proj2 (header_single_turn fields km label below h l1 (l2 :: term :: rest)
                        lg d c Hd1 Harr Hd) sub Hk1) |].
    apply Hnext, length_store_set.
Qed.

Lemma section_line_then_field_witness :
  header_loop 3 [(1, FILER_MAP, "FILER"); (0, KEY_MAP, "")]
    (mkState [[("FILER", VList [ERef 1])]; []]
       [ln "COMPANY DATA:"; ln "CENTRAL INDEX KEY: 0000000001"; ln "</SEC-HEADER>";
        ln "</SUBMISSION>"] [])
  = Ok tt (mkState [[("FILER", VList [ERef 1])]; [("COMPANY-DATA", VRef 2)];
                    [("CIK", VStr "0000000001")]] [ln "</SUBMISSION>"] []).
Proof.
  refine (section_line_then_field 0 1 FILER_MAP "FILER" [(0, KEY_MAP, "")]
            [[("FILER", VList [ERef 1])]; []]
            (ln "COMPANY DATA:") (ln "CENTRAL INDEX KEY: 0000000001") (ln "</SEC-HEADER>")
            [ln "</SUBMISSION>"] [] [] "COMPANY-DATA" COMPANY_DATA_MAP "CIK"
            eq_refl eq_refl eq_refl eq_refl eq_refl eq_refl eq_refl _).
  discriminate.
Defined.

(** X18. Blank lines of the header, followed by a line of a plain name and
    the terminator.
    - A run of blank lines neither closes a section whose record is still
      empty nor the outermost scope, and changes nothing: the line after
      them is looked up in the same table and its value stored in the same
      record.
    - A blank line met by a section whose record has a key closes that
      section: the line after it is looked up in the table of the enclosing
      scope and its value stored in the enclosing record. *)
Theorem blank_lines_in_header f fields km label below h blanks line term rest lg d c :
  Forall (fun l => strip l = "") blanks ->
  header_data line = true -> field_is_array c = false ->
  startswith "</SEC-HEADER>" term = true ->
  nth_error h fields = Some d ->
  (d = [] \/ below = [] ->
   km_get (header_key line) km = Some (Plain c) ->
   header_loop (length blanks + S (S f)) ((fields, km, label) :: below)
     (mkState h (blanks ++ line :: term :: rest) lg)
   = Ok tt (mkState (store_set fields (dict_set c (VStr (header_value line)) d) h) rest
              (if dict_mem c d then lg ++ [WarnDuplicateKey c] else lg)))
  /\
  (forall blank fields0 km0 label0 below0 d0,
   d <> [] -> below = (fields0, km0, label0) :: below0 ->
   strip blank = "" ->
   km_get (header_key line) km0 = Some (Plain c) ->
   nth_error h fields0 = Some d0 ->
   header_loop (S (S (S f))) ((fields, km, label) :: below)
     (mkState h (blank :: line :: term :: rest) lg)
   = Ok tt (mkState (store_set fields0 (dict_set c (VStr (header_value line)) d0) h) rest
              (if dict_mem c d0 then lg ++ [WarnDuplicateKey c] else lg))).
Proof.
  intros Hb Hhd Harr Hterm Hd. split.
  - intros Hopen Hk. induction Hb as [|b bs Hs _ IH].
    + cbn [length app Nat.add].
      apply header_field_then_end; assumption.
    + cbn [length app Nat.add].
      rewrite (header_blank_turn _ _ _ _ _ _ _ _ _ d Hs Hd).
      assert ((0 <? length d)%nat && (0 <? length below)%nat = false) as ->.
      { destruct Hopen as [-> | ->]; [reflexivity | apply andb_false_r]. }
      exact IH.
  - intros blank fields0 km0 label0 below0 d0 Hne -> Hs Hk Hd0.
    rewrite (header_blank_turn _ _ _ _ _ _ _ _ _ d Hs Hd).
    destruct d; [congruence|]. cbn [length Nat.ltb Nat.leb andb].
    apply header_field_then_end; assumption.
Qed.

Lemma blank_lines_in_header_witness :
  header_loop 3 [(1, FILER_MAP, "FILER"); (0, KEY_MAP, "")]
    (mkState [[("FILER", VList [ERef 1])]; [("COMPANY-DATA", VRef 2)];
              [("CIK", VStr "0000000001")]]
       [nl; ln "FILED AS OF DATE: 20240101"; ln "</SEC-HEADER>"; ln "</SUBMISSION>"] [])
  = Ok tt (mkState [[("FILER", VList [ERef 1]); ("FILING-DATE", VStr "20240101")];
                    [("COMPANY-DATA", VRef 2)]; [("CIK", VStr "0000000001")]]
             [ln "</SUBMISSION>"] []).
Proof.
  refine (proj2 (blank_lines_in_header 0 1 FILER_MAP "FILER" [(0, KEY_MAP, "")]
                   [[("FILER", VList [ERef 1])]; [("COMPANY-DATA", VRef 2)];
                    [("CIK", VStr "0000000001")]]
                   [] (ln "FILED AS OF DATE: 20240101") (ln "</SEC-HEADER>")
                   [ln "</SUBMISSION>"] [] [("COMPANY-DATA", VRef 2)] "FILING-DATE"
                   (Forall_nil _) eq_refl eq_refl eq_refl eq_refl)
            nl 0 KEY_MAP "" [] [("FILER", VList [ERef 1])] _ eq_refl eq_refl eq_refl eq_refl).
  discriminate.
Defined.

(* ================================================================== *)
(** ** Occurrences of an array-valued key, to the end of the block *)

Lemma values_of_cons key k v kvs :
  values_of key ((k, v) :: kvs)
  = if k =? key then v :: values_of key kvs else values_of key kvs.
Proof. unfold values_of. cbn [filter fst]. destruct (k =? key); reflexivity. Qed.

Lemma items_of_append key k x d :
  items_of key (dict_append k x d)
  = if k =? key then items_of key d ++ [x] else items_of key d.
Proof.
  unfold dict_append. destruct (String.eqb_spec k key) as [->|Hne].
  - apply items_of_set.
  - now apply items_of_set_other.
Qed.

Lemma items_of_append_values key kvs :
  forall d,
  items_of key (append_values kvs d) = items_of key d ++ map EStr (values_of key kvs).
Proof.
  unfold append_values.
  induction kvs as [|[k v] kvs IH]; intros d; cbn [fold_left fst snd].
  - now rewrite app_nil_r.
  - rewrite IH, items_of_append, values_of_cons.
    destruct (k =? key); [now rewrite <- app_assoc | reflexivity].
Qed.

Lemma items_of_append_refs key n :
  forall base d,
  items_of key (append_refs key base n d) = items_of key d ++ map ERef (seq base n).
Proof.
  unfold append_refs.
  induction n as [|n IH]; intros base d; cbn [seq fold_left map].
  - now rewrite app_nil_r.
  - rewrite IH, items_of_append, String.eqb_refl, <- app_assoc. reflexivity.
Qed.

Lemma dict_ok_append k x d : dict_ok d -> dict_ok (dict_append k x d).
Proof. intros H. apply dict_ok_set; eauto. Qed.

(** Scalar lines of array-valued keys in a row: each value goes to the end
    of the list of its key. *)
Lemma array_scalars_run f name fields lines kvs :
  Forall2 (fun line kv => open_tag name line = Some kv
                          /\ field_is_array (fst kv) = true /\ snd kv <> "")
    lines kvs ->
  forall h lg d rest,
  nth_error h fields = Some d -> dict_ok d ->
  process_nested_fields (length lines + f) name fields (mkState h (lines ++ rest) lg)
  = process_nested_fields f name fields
      (mkState (store_set fields (append_values kvs d) h) rest lg).
Proof.
  intros Hall.
  induction Hall as [|line [k v] lines kvs (Ho & Harr & Hv) _ IH];
    intros h lg d rest Hd Hok.
  - simpl. rewrite (store_set_same _ _ _ Hd). reflexivity.
  - cbn [fst snd] in *. simpl length. simpl app. simpl plus.
    rewrite (array_scalar_turn _ _ _ _ _ _ _ _ _ _ Harr Ho Hv Hd Hok).
    fold (dict_append k (EStr v) d).
    rewrite (IH (store_set fields (dict_append k (EStr v) d) h) lg
               (dict_append k (EStr v) d) rest).
    + rewrite store_set_twice. reflexivity.
    + apply nth_error_store_set_eq. eapply nth_error_valid; eauto.
    + apply dict_ok_append. exact Hok.
Qed.

(** Empty blocks of an array-valued key in a row: each adds a reference
    to a new, empty record. *)
Lemma array_empty_blocks f name fields key blocks :
  field_is_array key = true ->
  Forall (fun b : string * string =>
            open_tag name (fst b) = Some (key, "")
            /\ startswith ("</" ++ key ++ ">")%string (snd b)
               || startswith "</SEC-DOCUMENT>" (snd b) = true) blocks ->
  forall h lg d rest,
  nth_error h fields = Some d -> dict_ok d ->
  process_nested_fields (length blocks + S f) name fields
    (mkState h (flat_map (fun b => [fst b; snd b]) blocks ++ rest) lg)
  = process_nested_fields (S f) name fields
      (mkState (store_set fields (append_refs key (length h) (length blocks) d) h
                ++ repeat [] (length blocks)) rest lg).
Proof.
  intros Harr Hall.
  induction Hall as [|[open close] blocks [Ho Hc] _ IH]; intros h lg d rest Hd Hok.
  - cbn [length flat_map app Nat.add repeat]. unfold append_refs.
    cbn [seq fold_left]. rewrite (store_set_same _ _ _ Hd), !app_nil_r. reflexivity.
  - cbn [fst snd] in *. cbn [length flat_map app Nat.add].
    pose proof (nth_error_valid _ _ _ Hd) as Hlt.
    rewrite (array_nested_turn _ _ _ _ _ _ _ _ _ Harr Ho Hd Hok).
    unfold bind at 1.
    destruct (length blocks + S f) as [|F] eqn:HF; [lia|].
    rewrite (pnf_close_turn _ _ _ _ _ _ _ Hc). cbv beta.
    fold (dict_append key (ERef (length h)) d).
    set (d1 := dict_append key (ERef (length h)) d).
    assert (nth_error (store_set fields d1 h ++ [[]]) fields = Some d1) as Hd1.
    { rewrite nth_error_app1 by (now rewrite length_store_set).
      now apply nth_error_store_set_eq. }
    rewrite (IH (store_set fields d1 h ++ [[]]) lg d1 rest Hd1
               (dict_ok_append _ _ _ Hok)).
    rewrite store_set_app by (now rewrite length_store_set).
    rewrite store_set_twice, <- app_assoc.
    rewrite length_app, length_store_set. cbn [length]. rewrite Nat.add_1_r.
    reflexivity.
Qed.

(** A section that holds one line, in the header parser: a new record is
    attached, the line is stored in it and the blank line closes it. *)
Lemma header_flat_section f fields km label below h lg d key s rest :
  field_is_array key = true -> section_of key km s ->
  nth_error h fields = Some d -> dict_ok d ->
  header_loop (S (S (S f))) ((fields, km, label) :: below)
    (mkState h (section_lines s ++ rest) lg)
  = header_loop f ((fields, km, label) :: below)
      (mkState (store_set fields (dict_append key (ERef (length h)) d) h
                ++ [section_record s]) rest lg).
Proof.
  intros Harr (Hd1 & Hk1 & Hd2 & Hk2 & Harr2 & Hb) Hd Hok.
  unfold section_lines, dict_append. cbn [app].
  rewrite header_loop_turn.
  etransitivity;
    [ apply bind_ok;
      exact (proj2 (header_array_turn fields km label below h (sec_line s) _
                      lg d key Hd1 Harr Hd Hok) (sec_table s) Hk1) |].
  cbv beta iota.
  set (h1 := store_set fields
               (dict_set key (VList (items_of key d ++ [ERef (length h)])) d) h).
  assert (length h1 = length h) as Hlen by apply length_store_set.
  rewrite <- Hlen.
  rewrite header_loop_turn.
  pose proof (header_single_turn (length h1) (sec_table s) (header_key (sec_line s))
                ((fields, km, label) :: below) (h1 ++ [[]]) (sec_field s)
                (sec_blank s :: rest) lg [] (sec_name s)
                Hd2 Harr2 (nth_error_last h1 [])) as T.
  cbn zeta in T. destruct T as [T _]. specialize (T Hk2).
  change (dict_mem (sec_name s) []) with false in T. cbv iota in T.
  rewrite store_set_last in T.
  etransitivity; [apply bind_ok; exact T |].
  cbv beta iota.
  refine (eq_trans
            (header_blank_turn f (length h1) (sec_table s) (header_key (sec_line s))
               ((fields, km, label) :: below) _ (sec_blank s) rest lg
               [(sec_name s, VStr (header_value (sec_field s)))] Hb
               (nth_error_last h1 _)) _).
  reflexivity.
Qed.

(** Sections of an array-valued name in a row, each holding one line. *)
Lemma header_flat_sections f fields km label below key sections :
  field_is_array key = true ->
  Forall (section_of key km) sections ->
  forall h lg d rest,
  nth_error h fields = Some d -> dict_ok d ->
  header_loop (3 * length sections + f) ((fields, km, label) :: below)
    (mkState h (flat_map section_lines sections ++ rest) lg)
  = header_loop f ((fields, km, label) :: below)
      (mkState (store_set fields (append_refs key (length h) (length sections) d) h
                ++ map section_record sections) rest lg).
Proof.
  intros Harr Hall.
  induction Hall as [|s sections Hs _ IH]; intros h lg d rest Hd Hok.
  - cbn [length flat_map map app Nat.mul Nat.add]. unfold append_refs.
    cbn [seq fold_left]. rewrite (store_set_same _ _ _ Hd), !app_nil_r. reflexivity.
  - pose proof (nth_error_valid _ _ _ Hd) as Hlt.
    cbn [length flat_map map]. rewrite <- app_assoc.
    replace (3 * S (length sections) + f) with (S (S (S (3 * length sections + f))))
      by lia.
    rewrite (header_flat_section _ _ _ _ _ _ _ d key s _ Harr Hs Hd Hok).
    set (d1 := dict_append key (ERef (length h)) d).
    assert (nth_error (store_set fields d1 h ++ [section_record s]) fields = Some d1)
      as Hd1.
    { rewrite nth_error_app1 by (now rewrite length_store_set).
      now apply nth_error_store_set_eq. }
    rewrite (IH (store_set fields d1 h ++ [section_record s]) lg d1 rest Hd1
               (dict_ok_append _ _ _ Hok)).
    rewrite store_set_app by (now rewrite length_store_set).
    rewrite store_set_twice, <- app_assoc.
    rewrite length_app, length_store_set. cbn [length]. rewrite Nat.add_1_r.
    reflexivity.
Qed.

(* ================================================================== *)
(** ** Counting the occurrences the header parser meets *)

Lemma appended_refl key t h : appended key t 0 h h.
Proof. intros d Hd. exists d, []. now rewrite app_nil_r. Qed.

Lemma appended_trans key t n1 n2 h h1 h2 :
  appended key t n1 h h1 -> appended key t n2 h1 h2 -> appended key t (n1 + n2) h h2.
Proof.
  intros H1 H2 d Hd. destruct (H1 d Hd) as (d1 & xs1 & Hd1 & E1 & L1).
  destruct (H2 d1 Hd1) as (d2 & xs2 & Hd2 & E2 & L2).
  exists d2, (xs1 ++ xs2). split; [exact Hd2|]. split.
  - rewrite E2, E1, app_assoc. reflexivity.
  - rewrite length_app. lia.
Qed.

Lemma appended_alloc key t n h h1 :
  appended key t n h h1 -> appended key t n h (h1 ++ [[]]).
Proof.
  intros H d Hd. destruct (H d Hd) as (d1 & xs & Hd1 & E & L).
  exists d1, xs. split; [|auto].
  rewrite nth_error_app1 by (eapply nth_error_valid; eauto). exact Hd1.
Qed.

Lemma appended_off key t n h h1 l dv :
  l <> t -> appended key t n h h1 -> appended key t n h (store_set l dv h1).
Proof.
  intros Hne H d Hd. destruct (H d Hd) as (d1 & xs & Hd1 & E & L).
  exists d1, xs. split; [|auto].
  rewrite nth_error_store_set_neq by exact Hne. exact Hd1.
Qed.

Lemma appended_other key t n h h1 k v d0 :
  k <> key -> nth_error h1 t = Some d0 ->
  appended key t n h h1 -> appended key t n h (store_set t (dict_set k v d0) h1).
Proof.
  intros Hne Hd0 H d Hd. destruct (H d Hd) as (d1 & xs & Hd1 & E & L).
  rewrite Hd0 in Hd1. inversion Hd1; subst d1.
  exists (dict_set k v d0), xs. split; [|split; [|exact L]].
  - apply nth_error_store_set_eq. eapply nth_error_valid; eauto.
  - rewrite items_of_set_other by exact Hne. exact E.
Qed.

Lemma appended_ensure key t n h h1 k d0 :
  dict_mem k d0 = false -> nth_error h1 t = Some d0 ->
  appended key t n h h1 ->
  appended key t n h (store_set t (dict_set k (VList []) d0) h1).
Proof.
  intros Hm Hd0 H. destruct (String.eqb_spec k key) as [->|Hne];
    [|apply appended_other; assumption].
  intros d Hd. destruct (H d Hd) as (d1 & xs & Hd1 & E & L).
  rewrite Hd0 in Hd1. inversion Hd1; subst d1.
  exists (dict_set key (VList []) d0), xs. split; [|split; [|exact L]].
  - apply nth_error_store_set_eq. eapply nth_error_valid; eauto.
  - rewrite items_of_set. rewrite <- E. unfold items_of.
    unfold dict_mem in Hm. destruct (dict_get key d0); [discriminate | reflexivity].
Qed.

Lemma appended_append key t n h h1 xs0 x d0 :
  dict_get key d0 = Some (VList xs0) -> nth_error h1 t = Some d0 ->
  appended key t n h h1 ->
  appended key t (S n) h (store_set t (dict_set key (VList (xs0 ++ [x])) d0) h1).
Proof.
  intros Hg Hd0 H d Hd. destruct (H d Hd) as (d1 & xs & Hd1 & E & L).
  rewrite Hd0 in Hd1. inversion Hd1; subst d1.
  exists (dict_set key (VList (xs0 ++ [x])) d0), (xs ++ [x]).
  split; [|split].
  - apply nth_error_store_set_eq. eapply nth_error_valid; eauto.
  - rewrite items_of_set, app_assoc, <- E. unfold items_of. now rewrite Hg.
  - rewrite length_app. cbn [length]. lia.
Qed.

Ltac absurd_blank :=
  match goal with
  | H : ("" =? "") || (strip "" =? "") = false |- _ => vm_compute in H; discriminate H
  end.

(** Evaluates the count of the turn from the tests the walk has made. *)
Ltac eval_count :=
  cbn [hd];
  unfold header_occurrence, header_data, header_key;
  repeat match goal with
         | H : ?b = true |- context [?b] => rewrite H
         | H : ?b = false |- context [?b] => rewrite H
         | H : km_get ?k ?km = _ |- context [km_get ?k ?km] => rewrite H
         end;
  cbn [negb andb]; try rewrite andb_false_r; try rewrite andb_true_r; cbv iota.

Ltac solve_appended :=
  match goal with
  | |- appended _ _ 0 ?h ?h => apply appended_refl
  | |- appended _ _ _ _ (_ ++ [[]]) => apply appended_alloc; solve_appended
  | |- appended _ ?t _ _ (store_set ?l _ _) =>
      first
        [ apply appended_off; [assumption | solve_appended]
        | apply appended_append; [eassumption | eassumption | solve_appended]
        | apply appended_ensure; [eassumption | eassumption | solve_appended]
        | apply appended_other; [congruence | eassumption | solve_appended] ]
  end.

Lemma header_iteration_count key t stack st :
  field_is_array key = true ->
  wp (header_iteration stack)
     (fun _ st' => appended key t (turn_count key t stack st) (heap st) (heap st'))
     (fun _ _ => True) st.
Proof.
  intros Harr. unfold header_iteration.
  destruct stack as [|[[r km] label] below].
  - wp_walk. apply appended_refl.
  - unfold turn_count. wp_walk; try exact I; try absurd_blank.
    all: cbn [heap reader log] in *; subst.
    all: try match goal with H : reader _ = _ |- _ => rewrite H end.
    all: eval_count.
    all: try solve_appended.
    all: destruct (Nat.eqb_spec r t) as [->|Hrt];
           destruct (String.eqb_spec canon key) as [->|Hck];
           cbn [andb]; cbv iota; try congruence; solve_appended.
Qed.

(** The list under [key] in the record [target] grows by one element for
    each occurrence the header loop meets in the scope of [target], and by
    nothing else. *)
Lemma header_loop_count key t f :
  field_is_array key = true ->
  forall stack st,
  wp (header_loop f stack)
     (fun _ st' => appended key t (occurrences_met key t f stack st) (heap st) (heap st'))
     (fun _ _ => True) st.
Proof.
  intros Harr. induction f as [|f IH]; intros [|fr stack] st; try exact I.
  - apply appended_refl.
  - cbn [occurrences_met]. unfold turn_count. cbn [header_iteration ret].
    apply appended_refl.
  - header_loop_step f fr stack. cbn [occurrences_met].
    pose proof (header_iteration_count key t (fr :: stack) st Harr) as W.
    unfold wp in *. unfold bind.
    destruct (header_iteration (fr :: stack) st) as [[stack'|] st1 | |];
      try exact I.
    + specialize (IH stack' st1).
      destruct (header_loop f stack' st1) as [[] st2 | |]; try exact I.
      eapply appended_trans; eassumption.
    + cbn [ret]. rewrite Nat.add_0_r. exact W.
Qed.

(** An occurrence of an array-valued key in the tag parser, when the run
    returns: the run went through a state in which the record has one more
    element under the key, and from which the loop of the block went on. *)
Lemma array_occurrence_passed f name fields key v line rest h lg d st' :
  field_is_array key = true ->
  open_tag name line = Some (key, v) ->
  nth_error h fields = Some d -> dict_ok d ->
  process_nested_fields (S f) name fields (mkState h (line :: rest) lg) = Ok tt st' ->
  exists st1,
    nth_error (heap st1) fields
    = Some (dict_set key
              (VList (items_of key d
                      ++ [if v =? "" then ERef (length h) else EStr v])) d)
    /\ process_nested_fields f name fields st1 = Ok tt st'.
Proof.
  intros Harr Ho Hd Hok Hrun.
  pose proof (nth_error_valid _ _ _ Hd) as Hlt.
  destruct (String.eqb_spec v "") as [->|Hv].
  - rewrite (array_nested_turn _ _ _ _ _ _ _ _ _ Harr Ho Hd Hok) in Hrun.
    unfold bind in Hrun.
    destruct (process_nested_fields f key (length h)
                (mkState (store_set fields
                            (dict_set key
                               (VList (items_of key d ++ [ERef (length h)])) d) h
                          ++ [[]]) rest lg)) as [[] st2 | |] eqn:Hchild;
      try discriminate.
    exists st2. split; [|exact Hrun].
    destruct (process_nested_fields_frame _ _ _ _ _ Hchild) as [_ Hsame].
    cbn [heap] in Hsame. rewrite Hsame.
    + rewrite nth_error_app1 by (now rewrite length_store_set).
      now apply nth_error_store_set_eq.
    + rewrite length_app, length_store_set. lia.
    + lia.
  - rewrite (array_scalar_turn _ _ _ _ _ _ _ _ _ _ Harr Ho Hv Hd Hok) in Hrun.
    eexists. split; [|exact Hrun]. cbn [heap].
    now apply nth_error_store_set_eq.
Qed.

(** A tag line of another key, when the run returns: the list under [key]
    is as it was when the loop of the block goes on. *)
Lemma other_line_passed f name fields key k v line rest h lg d st' :
  open_tag name line = Some (k, v) ->
  k <> key -> k <> "SEC-HEADER" ->
  nth_error h fields = Some d -> dict_ok d ->
  process_nested_fields (S f) name fields (mkState h (line :: rest) lg) = Ok tt st' ->
  exists st1 d1,
    nth_error (heap st1) fields = Some d1
    /\ items_of key d1 = items_of key d
    /\ process_nested_fields f name fields st1 = Ok tt st'.
Proof.
  intros Ho Hk Hh Hd Hok Hrun.
  pose proof (nth_error_valid _ _ _ Hd) as Hlt.
  destruct (String.eqb_spec k "TEXT") as [->|Ht].
  { rewrite (pnf_text_turn _ _ _ _ _ _ _ _ Ho) in Hrun.
    unfold bind at 1 in Hrun. unfold read_text in Hrun.
    cbn [heap reader log] in Hrun.
    destruct (text_loop [] rest) as [[content rest']|]; [|discriminate].
    pose proof (run_set_item (fun _ => process_nested_fields f name fields) fields
                  "TEXT" (VStr (join content)) d h rest' lg Hd) as R.
    unfold bind in R. rewrite R in Hrun.
    eexists. eexists. split; [|split; [|exact Hrun]].
    - cbn [heap]. now apply nth_error_store_set_eq.
    - apply items_of_set_other. exact Hk. }
  destruct (field_is_array k) eqn:Hak.
  - destruct (array_occurrence_passed f name fields k v line rest h lg d st'
                Hak Ho Hd Hok Hrun) as (st1 & Hd1 & Hrun1).
    exists st1. eexists. split; [exact Hd1|]. split; [|exact Hrun1].
    apply items_of_set_other. exact Hk.
  - destruct (dict_mem k d) eqn:Hm.
    { rewrite (duplicate_rejected _ _ _ _ _ _ _ _ _ _ Hak Ht Hh Ho Hd Hm) in Hrun.
      discriminate. }
    destruct ((v =? "") && negb (str_in k scalar_flags)) eqn:Hn.
    + apply andb_true_iff in Hn as [Hv Hf].
      apply String.eqb_eq in Hv. subst v. apply negb_true_iff in Hf.
      rewrite (single_nested_turn _ _ _ _ _ _ _ _ _ Hak Ht Hh Ho Hf Hd Hm) in Hrun.
      unfold bind in Hrun.
      destruct (process_nested_fields f k (length h)
                  (mkState (store_set fields (dict_set k (VRef (length h)) d) h ++ [[]])
                     rest lg)) as [[] st2 | |] eqn:Hchild; try discriminate.
      exists st2. eexists. split; [|split; [|exact Hrun]].
      * destruct (process_nested_fields_frame _ _ _ _ _ Hchild) as [_ Hsame].
        cbn [heap] in Hsame. rewrite Hsame.
        -- rewrite nth_error_app1 by (now rewrite length_store_set).
           now apply nth_error_store_set_eq.
        -- rewrite length_app, length_store_set. lia.
        -- lia.
      * apply items_of_set_other. exact Hk.
    + rewrite (single_scalar_turn _ _ _ _ _ _ _ _ _ _ Hak Ht Hh Ho Hn Hd Hm) in Hrun.
      eexists. eexists. split; [|split; [|exact Hrun]].
      * cbn [heap]. now apply nth_error_store_set_eq.
      * apply items_of_set_other. exact Hk.
Qed.

(** A [SEC-HEADER] block, when the run returns: the list under [key] got
    as many elements as occurrences the header parser met in its root
    scope. *)
Lemma header_block_passed f name fields key v line rest h lg d st' :
  field_is_array key = true ->
  open_tag name line = Some ("SEC-HEADER", v) ->
  nth_error h fields = Some d ->
  process_nested_fields (S f) name fields (mkState h (line :: rest) lg) = Ok tt st' ->
  exists st1 d1 xs,
    nth_error (heap st1) fields = Some d1
    /\ items_of key d1 = items_of key d ++ xs
    /\ length xs = occurrences_met key fields f [(fields, KEY_MAP, "")]
                     (mkState h rest lg)
    /\ process_nested_fields f name fields st1 = Ok tt st'.
Proof.
  intros Harr Ho Hd Hrun.
  rewrite (pnf_header_turn _ _ _ _ _ _ _ _ Ho) in Hrun.
  unfold bind in Hrun. unfold processTxtHeader in Hrun.
  assert (forall r,
            header_loop f [(fields, KEY_MAP, "")] (mkState h rest lg) = r ->
            match r with
            | Ok _ st1 =>
                appended key fields
                  (occurrences_met key fields f [(fields, KEY_MAP, "")]
                     (mkState h rest lg)) h (heap st1)
            | _ => True
            end) as W.
  { intros r <-.
    exact (header_loop_count key fields f Harr [(fields, KEY_MAP, "")]
             (mkState h rest lg)). }
  match type of Hrun with
  | match ?m with _ => _ end = _ =>
      destruct m as [[] st1 | |] eqn:Hhdr; try discriminate
  end.
  specialize (W _ Hhdr). cbv iota in W.
  destruct (W d Hd) as (d1 & xs & Hd1 & E & L).
  exists st1, d1, xs.
  split; [exact Hd1 | split; [exact E | split; [exact L | exact Hrun]]].
Qed.

(** C2, on the code.  The claim fails in the header parser for occurrences
    at the same level of the text: the header has two [FILER] sections, a
    blank line after the [COMPANY DATA] section of each.  The blank line
    closes the [COMPANY DATA] section only, so the second [FILER:] line is
    read in the scope of the first [FILER] section, whose table does not
    have it, and adds nothing: the list under [FILER] has one element, and
    the second [COMPANY DATA] section replaces the first with a warning. *)
Lemma second_filer_section_not_counted :
  field_is_array "FILER" = true /\
  length (filter (String.eqb (ln "FILER:")) two_filers) = 2 /\
  deserialize 12 (mkIO (Some "filing.txt") two_filers)
  = Ok 0 (mkState [[("FILER", VList [ERef 1])]; [("COMPANY-DATA", VRef 3)];
                   [("CIK", VStr "0000000001")]; [("CIK", VStr "0000000002")]] []
            [WarnDuplicateKey "COMPANY-DATA";
             WarnMissingTopField "DOCUMENT" "filing.txt"]) /\
  length (items_of "FILER" [("FILER", VList [ERef 1])]) = 1.
Proof. repeat split; vm_compute; reflexivity. Qed.

(** C2. An array-valued key holds a sequence in every record, whichever
    parser wrote it, and each occurrence met at a level adds one element at
    the end of the sequence of that level's record.
    - In every record of the store [deserialize] returns, and after each
      parser run on a store with that property, the key holds a list.
    - Tag parser: scalar lines of array-valued keys in a row, up to the end
      of the block, add the values of the lines of [key], in the order
      met, and the parser returns; empty blocks of [key] in a row add a
      reference to a new empty record each.  Whenever a run from an
      occurrence returns, it went through a state in which the record has
      exactly one more element under [key], from which the loop went on;
      a run from a line of another key left the list as it was, but for a
      [SEC-HEADER] block, which added what the header parser met in its
      root scope.
    - Header parser: a line that the table of the active scope renames to
      [key] adds the value, or a reference to the record of the new
      section; over a whole run, the list under [key] of a record grows by
      exactly as many elements as lines were met that the table of the
      active scope renames to [key] while that record was the one of the
      active scope; sections of [key] in a row, a blank line closing each,
      add a reference to the record of each, in the order met, and the
      parser returns at the terminator. *)
Theorem array_keys_hold_sequences key :
  field_is_array key = true ->
  (forall fuel input r st l d v,
     deserialize fuel input = Ok r st ->
     nth_error (heap st) l = Some d -> dict_get key d = Some v ->
     exists xs, v = VList xs)
  /\
  (forall f name fields st st',
     arrays_ok (heap st) ->
     process_nested_fields f name fields st = Ok tt st' -> arrays_ok (heap st'))
  /\
  (forall f fields st st',
     arrays_ok (heap st) ->
     processTxtHeader f fields st = Ok tt st' -> arrays_ok (heap st'))
  /\
  (forall f name fields lines kvs tail rest h lg d,
     Forall2 (fun line kv => open_tag name line = Some kv
                             /\ field_is_array (fst kv) = true /\ snd kv <> "")
       lines kvs ->
     block_end name tail = Some rest ->
     nth_error h fields = Some d -> dict_ok d ->
     process_nested_fields (length lines + S f) name fields
       (mkState h (lines ++ tail) lg)
     = Ok tt (mkState (store_set fields (append_values kvs d) h) rest lg)
     /\ items_of key (append_values kvs d)
        = items_of key d ++ map EStr (values_of key kvs)
     /\ length (items_of key (append_values kvs d))
        = length (items_of key d) + length (values_of key kvs))
  /\
  (forall f name fields blocks tail rest h lg d,
     Forall (fun b : string * string =>
               open_tag name (fst b) = Some (key, "")
               /\ startswith ("</" ++ key ++ ">")%string (snd b)
                  || startswith "</SEC-DOCUMENT>" (snd b) = true) blocks ->
     block_end name tail = Some rest ->
     nth_error h fields = Some d -> dict_ok d ->
     process_nested_fields (length blocks + S f) name fields
       (mkState h (flat_map (fun b => [fst b; snd b]) blocks ++ tail) lg)
     = Ok tt (mkState (store_set fields
                         (append_refs key (length h) (length blocks) d) h
                       ++ repeat [] (length blocks)) rest lg)
     /\ items_of key (append_refs key (length h) (length blocks) d)
        = items_of key d ++ map ERef (seq (length h) (length blocks)))
  /\
  (forall f name fields line v rest h lg d st',
     open_tag name line = Some (key, v) ->
     nth_error h fields = Some d -> dict_ok d ->
     process_nested_fields (S f) name fields (mkState h (line :: rest) lg) = Ok tt st' ->
     exists st1,
       nth_error (heap st1) fields
       = Some (dict_set key
                 (VList (items_of key d
                         ++ [if v =? "" then ERef (length h) else EStr v])) d)
       /\ process_nested_fields f name fields st1 = Ok tt st')
  /\
  (forall f name fields line k v rest h lg d st',
     open_tag name line = Some (k, v) ->
     k <> key -> k <> "SEC-HEADER" ->
     nth_error h fields = Some d -> dict_ok d ->
     process_nested_fields (S f) name fields (mkState h (line :: rest) lg) = Ok tt st' ->
     exists st1 d1,
       nth_error (heap st1) fields = Some d1
       /\ items_of key d1 = items_of key d
       /\ process_nested_fields f name fields st1 = Ok tt st')
  /\
  (forall f name fields line v rest h lg d st',
     open_tag name line = Some ("SEC-HEADER", v) ->
     nth_error h fields = Some d ->
     process_nested_fields (S f) name fields (mkState h (line :: rest) lg) = Ok tt st' ->
     exists st1 d1 xs,
       nth_error (heap st1) fields = Some d1
       /\ items_of key d1 = items_of key d ++ xs
       /\ length xs = occurrences_met key fields f [(fields, KEY_MAP, "")]
                        (mkState h rest lg)
       /\ process_nested_fields f name fields st1 = Ok tt st')
  /\
  (forall fields km label below h line rest lg d,
     header_data line = true ->
     nth_error h fields = Some d -> dict_ok d ->
     (km_get (header_key line) km = Some (Plain key) ->
      header_iteration ((fields, km, label) :: below) (mkState h (line :: rest) lg)
      = Ok (Some ((fields, km, label) :: below))
          (mkState (store_set fields
                      (dict_set key
                         (VList (items_of key d ++ [EStr (header_value line)])) d) h)
             rest lg))
     /\
     (forall sub,
      km_get (header_key line) km = Some (Nested key sub) ->
      header_iteration ((fields, km, label) :: below) (mkState h (line :: rest) lg)
      = Ok (Some ((length h, sub, header_key line) :: (fields, km, label) :: below))
          (mkState (store_set fields
                      (dict_set key (VList (items_of key d ++ [ERef (length h)])) d) h
                    ++ [[]])
             rest lg)))
  /\
  (forall f stack target st st' d,
     header_loop f stack st = Ok tt st' ->
     nth_error (heap st) target = Some d ->
     exists d' xs,
       nth_error (heap st') target = Some d'
       /\ items_of key d' = items_of key d ++ xs
       /\ length xs = occurrences_met key target f stack st)
  /\
  (forall f fields km label below sections term rest h lg d,
     Forall (section_of key km) sections ->
     startswith "</SEC-HEADER>" term = true ->
     nth_error h fields = Some d -> dict_ok d ->
     header_loop (3 * length sections + S f) ((fields, km, label) :: below)
       (mkState h (flat_map section_lines sections ++ term :: rest) lg)
     = Ok tt (mkState (store_set fields
                         (append_refs key (length h) (length sections) d) h
                       ++ map section_record sections) rest lg)
     /\ items_of key (append_refs key (length h) (length sections) d)
        = items_of key d ++ map ERef (seq (length h) (length sections))).
Proof.
  intros Harr. repeat apply conj.
  - intros fuel input r st l d v Hrun Hd Hget.
    apply deserialize_arrays_ok in Hrun.
    exact (arrays_ok_lookup _ _ _ Hrun Hd key v Hget Harr).
  - intros f name fields st st' Hok Hrun.
    pose proof (process_nested_fields_arrays_ok f name fields st Hok) as W.
    unfold wp in W. rewrite Hrun in W. exact W.
  - intros f fields st st' Hok Hrun.
    pose proof (header_loop_arrays_ok f [(fields, KEY_MAP, "")] st Hok) as W.
    unfold wp in W. unfold processTxtHeader in Hrun. rewrite Hrun in W. exact W.
  - intros f name fields lines kvs tail rest h lg d Hall He Hd Hok.
    rewrite (array_scalars_run (S f) name fields lines kvs Hall h lg d tail Hd Hok).
    split; [apply pnf_block_end; exact He|].
    split; [apply items_of_append_values|].
    rewrite items_of_append_values, length_app, length_map. reflexivity.
  - intros f name fields blocks tail rest h lg d Hall He Hd Hok.
    rewrite (array_empty_blocks f name fields key blocks Harr Hall h lg d tail Hd Hok).
    split; [apply pnf_block_end; exact He | apply items_of_append_refs].
  - intros f name fields line v rest h lg d st' Ho Hd Hok Hrun.
    exact (array_occurrence_passed f name fields key v line rest h lg d st'
             Harr Ho Hd Hok Hrun).
  - intros f name fields line k v rest h lg d st' Ho Hk Hh Hd Hok Hrun.
    exact (other_line_passed f name fields key k v line rest h lg d st'
             Ho Hk Hh Hd Hok Hrun).
  - intros f name fields line v rest h lg d st' Ho Hd Hrun.
    exact (header_block_passed f name fields key v line rest h lg d st'
             Harr Ho Hd Hrun).
  - intros fields km label below h line rest lg d Hhd Hd Hok.
    exact (header_array_turn fields km label below h line rest lg d key Hhd Harr Hd Hok).
  - intros f stack target st st' d Hrun Hd.
    pose proof (header_loop_count key target f Harr stack st) as W.
    unfold wp in W. rewrite Hrun in W. exact (W d Hd).
  - intros f fields km label below sections term rest h lg d Hall Hterm Hd Hok.
    rewrite (header_flat_sections (S f) fields km label below key sections Harr Hall
               h lg d (term :: rest) Hd Hok).
    split; [apply header_loop_at_terminator; exact Hterm | apply items_of_append_refs].
Qed.

Lemma array_keys_hold_sequences_witness :
  process_nested_fields (3 + 1) "SUBMISSION" 0
    (mkState [[]]
       ([ln "<ITEMS>1.01"; ln "<RULE>12b-2"; ln "<ITEMS>9.01"]
        ++ [ln "</SUBMISSION>"; ln "<TYPE>10-K"]) [])
  = Ok tt (mkState [[("ITEMS", VList [EStr "1.01"; EStr "9.01"]);
                     ("RULE", VList [EStr "12b-2"])]] [ln "<TYPE>10-K"] [])
  /\ items_of "ITEMS" [("ITEMS", VList [EStr "1.01"; EStr "9.01"]);
                       ("RULE", VList [EStr "12b-2"])]
     = [] ++ [EStr "1.01"; EStr "9.01"]
  /\ length (items_of "ITEMS" [("ITEMS", VList [EStr "1.01"; EStr "9.01"]);
                               ("RULE", VList [EStr "12b-2"])])
     = 0 + 2.
Proof.
  refine (proj1 (proj2 (proj2 (proj2 (array_keys_hold_sequences "ITEMS" eq_refl))))
            0 "SUBMISSION" 0 [ln "<ITEMS>1.01"; ln "<RULE>12b-2"; ln "<ITEMS>9.01"]
            [("ITEMS", "1.01"); ("RULE", "12b-2"); ("ITEMS", "9.01")]
            [ln "</SUBMISSION>"; ln "<TYPE>10-K"] [ln "<TYPE>10-K"]
            [[]] [] [] _ eq_refl eq_refl dict_ok_nil).
  repeat constructor; discriminate.
Defined.

(** The runs of C2 on concrete streams: interleaved scalar lines, empty
    blocks, and two [FORMER COMPANY] sections of a header. *)
Example array_runs :
  process_nested_fields 4 "SUBMISSION" 0
    (mkState [[]]
       [ln "<ITEMS>1.01"; ln "<RULE>12b-2"; ln "<ITEMS>9.01"; ln "</SUBMISSION>"] [])
  = Ok tt (mkState [[("ITEMS", VList [EStr "1.01"; EStr "9.01"]);
                     ("RULE", VList [EStr "12b-2"])]] [] [])
  /\
  process_nested_fields 3 "SUBMISSION" 0
    (mkState [[]] [ln "<FILER>"; ln "</FILER>"; ln "<FILER>"; ln "</FILER>"] [])
  = Ok tt (mkState [[("FILER", VList [ERef 1; ERef 2])]; []; []] [] [])
  /\
  header_loop 7 [(1, FILER_MAP, "FILER"); (0, KEY_MAP, "")]
    (mkState [[("FILER", VList [ERef 1])]; []]
       [ln "FORMER COMPANY:"; ln "FORMER CONFORMED NAME: OLD NAME ONE"; nl;
        ln "FORMER COMPANY:"; ln "FORMER CONFORMED NAME: OLD NAME TWO"; nl;
        ln "</SEC-HEADER>"] [])
  = Ok tt (mkState [[("FILER", VList [ERef 1])];
                    [("FORMER-COMPANY", VList [ERef 2; ERef 3])];
                    [("FORMER-CONFORMED-NAME", VStr "OLD NAME ONE")];
                    [("FORMER-CONFORMED-NAME", VStr "OLD NAME TWO")]] [] [])
  /\
  occurrences_met "FORMER-COMPANY" 1 7 [(1, FILER_MAP, "FILER"); (0, KEY_MAP, "")]
    (mkState [[("FILER", VList [ERef 1])]; []]
       [ln "FORMER COMPANY:"; ln "FORMER CONFORMED NAME: OLD NAME ONE"; nl;
        ln "FORMER COMPANY:"; ln "FORMER CONFORMED NAME: OLD NAME TWO"; nl;
        ln "</SEC-HEADER>"] []) = 2
  /\
  occurrences_met "FILER" 0 11 [(0, KEY_MAP, "")]
    (mkState [[]] (tl (tl two_filers)) []) = 1.
Proof. repeat split; vm_compute; reflexivity. Qed.
